(** * The session engine of the chess backend (services/gameStore)

    A shallow embedding of [GameStore]: the in-memory registry of game
    sessions, the lazily derived clocks, the move pipeline, undo/redo by
    replay, and the snapshot written to and read from disk.

    Conventions of the embedding:
    - the clock read by [nowMs()] / [Date.now()] is an explicit argument
      [now] or [atMs] of each operation (one operation runs to completion
      and all its reads return that value); the string of
      [new Date().toISOString()] is an explicit [iso]; every [randomId()]
      is an explicit identifier argument;
    - clock values are integers in milliseconds (the API schema declares
      [initialMs], [incrementMs] and the remaining times as integers), so
      [Math.floor] is the identity on them;
    - a name or color a caller may leave out, and a stored field that is
      a string or [null], is an [option string]; a caller's [playerId] is
      a [CallerId], which tells [undefined] from [null], because the
      strict comparisons of the engine do (numbers, objects and other
      JavaScript values are outside the model);
    - the rules library (chess.js) is the class [Validator]; the object it
      mutates in place is returned as a new value. *)

From Stdlib Require Import ZArith List String Ascii Bool Lia.
Import ListNotations.
Open Scope string_scope.
Open Scope Z_scope.

(** ** JavaScript helpers *)

(** Truthiness of a string-or-null/undefined value: [null], [undefined]
    and the empty string are falsy. *)
Definition truthy (o : option string) : bool :=
  match o with
  | Some s => negb (s =? "")%string
  | None => false
  end.

(** [x || null] (and [x || undefined]) on a string-or-null value. *)
Definition or_null (o : option string) : option string :=
  if truthy o then o else None.

(** [x || d] where [x] is a string and [d] the fallback. *)
Definition or_else (x d : string) : string :=
  if (x =? "")%string then d else x.

(** A [playerId] as a caller sends it: left out ([undefined]), the JSON
    value [null], or a string. *)
Inductive CallerId :=
| IdUndefined
| IdNull
| IdStr (s : string).

(** Truthiness of a caller's [playerId]: only a string that is not empty
    is truthy. *)
Definition truthy_id (playerId : CallerId) : bool :=
  match playerId with
  | IdStr s => negb (s =? "")%string
  | IdUndefined | IdNull => false
  end.

(** [playerId === slotId]: the stored id is a string or [null].  Two
    strings are compared; [null === null] is true, so a caller's [null]
    equals the id of a vacant slot; [undefined === null] is false. *)
Definition strict_eq (playerId : CallerId) (slotId : option string) : bool :=
  match playerId, slotId with
  | IdStr a, Some b => (a =? b)%string
  | IdNull, None => true
  | _, _ => false
  end.

(** A JavaScript [Map] with string keys: insertion ordered, one entry per
    key. *)
Module JsMap.
Definition t (A : Type) : Type := list (string * A).

Definition empty {A} : t A := [].

Fixpoint get {A} (m : t A) (k : string) : option A :=
  match m with
  | [] => None
  | (k', v) :: rest => if (k' =? k)%string then Some v else get rest k
  end.

Definition has {A} (m : t A) (k : string) : bool :=
  match get m k with Some _ => true | None => false end.

(** [set] overwrites in place when the key exists and appends otherwise. *)
Fixpoint set {A} (m : t A) (k : string) (v : A) : t A :=
  match m with
  | [] => [(k, v)]
  | (k', v') :: rest =>
      if (k' =? k)%string then (k, v) :: rest else (k', v') :: set rest k v
  end.

Fixpoint delete {A} (m : t A) (k : string) : t A :=
  match m with
  | [] => []
  | (k', v') :: rest =>
      if (k' =? k)%string then rest else (k', v') :: delete rest k
  end.

Definition values {A} (m : t A) : list A := map snd m.
Definition entries {A} (m : t A) : list (string * A) := m.
Definition size {A} (m : t A) : nat := List.length m.
End JsMap.

(** [arr.slice(0, end)] on an array, for an integer [end]; a negative
    [end] counts from the end of the array. *)
Definition slice0 {A} (arr : list A) (end_ : Z) : list A :=
  let len := Z.of_nat (List.length arr) in
  let e := if end_ <? 0 then Z.max (len + end_) 0 else Z.min end_ len in
  firstn (Z.to_nat e) arr.

(** [String(p).toLowerCase()] on ASCII letters. *)
Definition lower_ascii (c : ascii) : ascii :=
  let n := nat_of_ascii c in
  if (andb (Nat.leb 65 n) (Nat.leb n 90)) then ascii_of_nat (n + 32) else c.

Fixpoint toLowerCase (s : string) : string :=
  match s with
  | EmptyString => EmptyString
  | String c rest => String (lower_ascii c) (toLowerCase rest)
  end.

(** ** Colors, moves and the rules library *)

Inductive Color := W | B.

Definition color_eqb (x y : Color) : bool :=
  match x, y with
  | W, W | B, B => true
  | _, _ => false
  end.

Definition opponent (c : Color) : Color :=
  match c with W => B | B => W end.

Definition normalizeColor (color : option string) : option Color :=
  match color with
  | Some "w" => Some W
  | Some "b" => Some B
  | _ => None
  end.

Definition safePromotion (p : option string) : option string :=
  if negb (truthy p) then None
  else
    match p with
    | Some s =>
        let promo := toLowerCase s in
        if existsb (String.eqb promo) ["q"; "r"; "b"; "n"] then Some promo
        else None
    | None => None
    end.

(** A move record [{from, to, promotion}]: the argument of [chess.move]
    and the entry stored in [game.moves]. *)
Record MoveRecord := {
  from : string;
  to : string;
  promotion : option string
}.

(** The capability consumed from chess.js.  [Chess] is the state of a
    [Chess] instance, [Move] the object returned by an accepted
    [chess.move].  [new_Chess (Some fen)] is [new Chess(fen)] and
    [new_Chess None] is [new Chess()]: the constructor returns an
    instance for every token.  [chess_move] is [None] when the library
    rejects the move, returning [null] and leaving the instance as it was
    (the [if (!move)] test of [makeMove] relies on that).  A library that
    raises on a token or on a move instead is outside this contract.  The
    predicates are the methods that [chessSupports] resolves to. *)
Class Validator := {
  Chess : Type;
  Move : Type;
  move_from : Move -> string;
  move_to : Move -> string;
  move_promotion : Move -> option string;
  new_Chess : option string -> Chess;
  chess_fen : Chess -> string;
  chess_pgn : Chess -> string;
  chess_turn : Chess -> Color;
  chess_history : Chess -> list Move;
  chess_move : Chess -> MoveRecord -> option (Chess * Move);
  isCheck : Chess -> bool;
  isCheckmate : Chess -> bool;
  isStalemate : Chess -> bool;
  isDraw : Chess -> bool;
  isThreefoldRepetition : Chess -> bool;
  isInsufficientMaterial : Chess -> bool;
  isGameOver : Chess -> bool
}.

(** What the engine relies on when it replays a move list: loading the
    token of the default position gives the default position, and an
    accepted move, replayed from the record the engine stores for it,
    leads to the same instance state. *)
Class ValidatorLaws (V : Validator) : Prop := {
  new_Chess_default :
    new_Chess (Some (chess_fen (new_Chess None))) = new_Chess None;
  chess_fen_default_not_empty :
    chess_fen (new_Chess None) <> "";
  chess_move_replay :
    forall c a c' m,
      chess_move c a = Some (c', m) ->
      option_map fst
        (chess_move c {| from := move_from m; to := move_to m;
                         promotion := or_null (move_promotion m) |})
      = Some c'
}.

(** ** Data model *)

Inductive GameState := Waiting | Active | Finished.

Definition state_eqb (x y : GameState) : bool :=
  match x, y with
  | Waiting, Waiting | Active, Active | Finished, Finished => true
  | _, _ => false
  end.

(** The string a state is stored as. *)
Definition state_name (s : GameState) : string :=
  match s with
  | Waiting => "waiting"
  | Active => "active"
  | Finished => "finished"
  end.

Record Status := {
  state : GameState;
  winner : option Color;
  reason : option string
}.

Record Player := {
  pl_id : option string;
  pl_name : option string;
  pl_present : bool
}.

Record Players := {
  players_w : Player;
  players_b : Player
}.

(** [players[c]] *)
Definition slot (ps : Players) (c : Color) : Player :=
  match c with W => players_w ps | B => players_b ps end.

Definition set_slot (ps : Players) (c : Color) (p : Player) : Players :=
  match c with
  | W => {| players_w := p; players_b := players_b ps |}
  | B => {| players_w := players_w ps; players_b := p |}
  end.

Record Clocks := {
  initialMs : Z;
  incrementMs : Z;
  wRemainingMs : Z;
  bRemainingMs : Z;
  activeColor : option Color;
  running : bool;
  lastTickAt : option Z
}.

(** The value [_effectiveClocksSnapshot] returns. *)
Record ClockSnapshot := {
  snap_initialMs : Z;
  snap_incrementMs : Z;
  snap_wRemainingMs : Z;
  snap_bRemainingMs : Z;
  snap_activeColor : option Color;
  snap_running : bool
}.

Definition snap_remaining (s : ClockSnapshot) (c : Color) : Z :=
  match c with W => snap_wRemainingMs s | B => snap_bRemainingMs s end.

(** A structured error [{ error, statusCode }]. *)
Record Err := {
  error : string;
  statusCode : Z
}.

Definition Result (A : Type) : Type := (Err + A)%type.

Inductive Role := RolePlayer | RoleSpectator.

(** [{ playerId, color, role }] as returned by create and join. *)
Record Participant := {
  part_playerId : string;
  part_color : option Color;
  part_role : Role
}.

(** The public view of a player slot. *)
Record PublicPlayer := {
  pp_name : option string;
  pp_color : Color;
  pp_present : bool
}.

Record PublicStatus := {
  ps_state : GameState;
  ps_winner : option Color;
  ps_reason : option string;
  ps_isCheck : bool
}.

(** A player slot of a snapshot on disk.  [sp_present] is [None] when the
    object has no [present] key. *)
Record SerializedPlayer := {
  sp_id : option string;
  sp_name : option string;
  sp_present : option bool
}.

(** The [status] field of a snapshot on disk: an object, a value that is
    missing or falsy ([null], [0], [false], the empty string), or a truthy
    scalar (a string, a number, [true]). *)
Inductive StoredStatus :=
| StatusObject (s : Status)
| StatusMissing
| StatusScalar.

Definition is_scalar (s : StoredStatus) : bool :=
  match s with
  | StatusScalar => true
  | StatusObject _ | StatusMissing => false
  end.

(** A session snapshot as written to and parsed from the JSON file.
    [s_moveCursor] is [None] when the field is not a number. *)
Record Serialized := {
  s_id : string;
  s_createdAt : string;
  s_updatedAt : string;
  s_initialFen : string;
  s_moves : list MoveRecord;
  s_moveCursor : option Z;
  s_players_w : SerializedPlayer;
  s_players_b : SerializedPlayer;
  s_spectators : list (string * option string);
  s_clocks : Clocks;
  s_status : StoredStatus
}.

Section Engine.

Context {V : Validator}.

Record Game := {
  id : string;
  createdAt : string;
  updatedAt : string;
  initialFen : string;
  moves : list MoveRecord;
  moveCursor : Z;
  chess : Chess;
  players : Players;
  spectators : JsMap.t (option string);
  clocks : Clocks;
  status : Status
}.

Record PublicState := {
  ps_gameId : string;
  ps_fen : string;
  ps_pgn : string;
  ps_turn : Color;
  ps_moveCursor : Z;
  ps_history : list Move;
  ps_status : PublicStatus;
  ps_players_w : PublicPlayer;
  ps_players_b : PublicPlayer;
  ps_clocks : ClockSnapshot;
  ps_createdAt : string;
  ps_updatedAt : string
}.

(** Field updates ([game.f = v] in the source). *)
Definition with_updatedAt (game : Game) (v : string) : Game :=
  {| id := id game; createdAt := createdAt game; updatedAt := v;
     initialFen := initialFen game; moves := moves game;
     moveCursor := moveCursor game; chess := chess game;
     players := players game; spectators := spectators game;
     clocks := clocks game; status := status game |}.

Definition with_moves (game : Game) (v : list MoveRecord) : Game :=
  {| id := id game; createdAt := createdAt game; updatedAt := updatedAt game;
     initialFen := initialFen game; moves := v;
     moveCursor := moveCursor game; chess := chess game;
     players := players game; spectators := spectators game;
     clocks := clocks game; status := status game |}.

Definition with_moveCursor (game : Game) (v : Z) : Game :=
  {| id := id game; createdAt := createdAt game; updatedAt := updatedAt game;
     initialFen := initialFen game; moves := moves game;
     moveCursor := v; chess := chess game;
     players := players game; spectators := spectators game;
     clocks := clocks game; status := status game |}.

Definition with_chess (game : Game) (v : Chess) : Game :=
  {| id := id game; createdAt := createdAt game; updatedAt := updatedAt game;
     initialFen := initialFen game; moves := moves game;
     moveCursor := moveCursor game; chess := v;
     players := players game; spectators := spectators game;
     clocks := clocks game; status := status game |}.

Definition with_players (game : Game) (v : Players) : Game :=
  {| id := id game; createdAt := createdAt game; updatedAt := updatedAt game;
     initialFen := initialFen game; moves := moves game;
     moveCursor := moveCursor game; chess := chess game;
     players := v; spectators := spectators game;
     clocks := clocks game; status := status game |}.

Definition with_spectators (game : Game) (v : JsMap.t (option string)) : Game :=
  {| id := id game; createdAt := createdAt game; updatedAt := updatedAt game;
     initialFen := initialFen game; moves := moves game;
     moveCursor := moveCursor game; chess := chess game;
     players := players game; spectators := v;
     clocks := clocks game; status := status game |}.

Definition with_clocks (game : Game) (v : Clocks) : Game :=
  {| id := id game; createdAt := createdAt game; updatedAt := updatedAt game;
     initialFen := initialFen game; moves := moves game;
     moveCursor := moveCursor game; chess := chess game;
     players := players game; spectators := spectators game;
     clocks := v; status := status game |}.

Definition with_status (game : Game) (v : Status) : Game :=
  {| id := id game; createdAt := createdAt game; updatedAt := updatedAt game;
     initialFen := initialFen game; moves := moves game;
     moveCursor := moveCursor game; chess := chess game;
     players := players game; spectators := spectators game;
     clocks := clocks game; status := v |}.

(** [game.status.state = s] *)
Definition with_state (game : Game) (s : GameState) : Game :=
  with_status game
    {| state := s; winner := winner (status game);
       reason := reason (status game) |}.

(** [game.clocks.wRemainingMs = w; game.clocks.bRemainingMs = b] *)
Definition with_remaining (c : Clocks) (w b : Z) : Clocks :=
  {| initialMs := initialMs c; incrementMs := incrementMs c;
     wRemainingMs := w; bRemainingMs := b;
     activeColor := activeColor c; running := running c;
     lastTickAt := lastTickAt c |}.

(** [running = r; activeColor = a; lastTickAt = t] *)
Definition with_run (c : Clocks) (r : bool) (a : option Color)
    (t : option Z) : Clocks :=
  {| initialMs := initialMs c; incrementMs := incrementMs c;
     wRemainingMs := wRemainingMs c; bRemainingMs := bRemainingMs c;
     activeColor := a; running := r; lastTickAt := t |}.

(** The three assignments that stop a clock. *)
Definition stop_clock (c : Clocks) : Clocks := with_run c false None None.

(** The registry: [this.games]. *)
Definition GameStore : Type := JsMap.t Game.

(** ** Termination *)

Record Termination := {
  t_winner : option Color;
  t_reason : string
}.

Definition computeTermination (c : Chess) : option Termination :=
  if negb (isGameOver c) then None
  else if isCheckmate c then
    let winner := match chess_turn c with W => B | B => W end in
    Some {| t_winner := Some winner; t_reason := "checkmate" |}
  else if isStalemate c then
    Some {| t_winner := None; t_reason := "stalemate" |}
  else if isThreefoldRepetition c then
    Some {| t_winner := None; t_reason := "threefold" |}
  else if isInsufficientMaterial c then
    Some {| t_winner := None; t_reason := "insufficient_material" |}
  else if isDraw c then
    Some {| t_winner := None; t_reason := "draw" |}
  else Some {| t_winner := None; t_reason := "game_over" |}.

(** ** Creation and replay *)

(** [timeControl] of a create request; a missing field is [None]. *)
Record TimeControl := {
  tc_initialMs : option Z;
  tc_incrementMs : option Z
}.

(** [timeControl?.f ?? d] *)
Definition tc_field (tc : option TimeControl) (f : TimeControl -> option Z)
    (d : Z) : Z :=
  match tc with
  | Some t => match f t with Some v => v | None => d end
  | None => d
  end.

Definition empty_player : Player :=
  {| pl_id := None; pl_name := None; pl_present := false |}.

Definition createNewGame (creatorName creatorColor : option string)
    (timeControl : option TimeControl)
    (gameId creatorPlayerId iso : string) : Game * string * Color :=
  let color := match normalizeColor creatorColor with
               | Some c => c | None => W end in
  let initial := Z.max 0 (tc_field timeControl tc_initialMs 300000) in
  let increment := Z.max 0 (tc_field timeControl tc_incrementMs 2000) in
  let c := new_Chess None in
  let seated := {| pl_id := Some creatorPlayerId;
                   pl_name := or_null creatorName;
                   pl_present := true |} in
  let white := match color with W => seated | B => empty_player end in
  let black := match color with W => empty_player | B => seated end in
  let game :=
    {| id := gameId;
       createdAt := iso;
       updatedAt := iso;
       initialFen := chess_fen c;
       moves := [];
       moveCursor := 0;
       chess := c;
       players := {| players_w := white; players_b := black |};
       spectators := JsMap.empty;
       clocks := {| initialMs := initial; incrementMs := increment;
                    wRemainingMs := initial; bRemainingMs := initial;
                    activeColor := None; running := false;
                    lastTickAt := None |};
       status := {| state := Waiting; winner := None; reason := None |} |} in
  (game, creatorPlayerId, color).

(** One [chess.move(m)] of a replay loop: the result is not looked at, a
    rejected move leaves the instance as it is. *)
Definition replay_move (c : Chess) (m : MoveRecord) : Chess :=
  match chess_move c {| from := from m; to := to m;
                        promotion := promotion m |} with
  | Some (c', _) => c'
  | None => c
  end.

(** [for (i = 0; i < n; i += 1) { const m = moves[i]; chess.move(...) }]
    on the remaining array; [None] is the [TypeError] raised by [m.from]
    when [moves[i]] is [undefined]. *)
Fixpoint replay (c : Chess) (ms : list MoveRecord) (n : nat) : option Chess :=
  match n with
  | O => Some c
  | S n' =>
      match ms with
      | [] => None
      | m :: rest => replay (replay_move c m) rest n'
      end
  end.

Definition rebuildChess (game : Game) : option Game :=
  match replay (new_Chess (Some (initialFen game))) (moves game)
               (Z.to_nat (moveCursor game)) with
  | Some c => Some (with_chess game c)
  | None => None
  end.

(** ** Projection *)

Definition publicPlayers (game : Game) : PublicPlayer * PublicPlayer :=
  ({| pp_name := pl_name (players_w (players game)); pp_color := W;
      pp_present := pl_present (players_w (players game)) |},
   {| pp_name := pl_name (players_b (players game)); pp_color := B;
      pp_present := pl_present (players_b (players game)) |}).

Definition effectiveClocksSnapshot (game : Game) (atMs : Z) : ClockSnapshot :=
  let c := clocks game in
  let '(wRem, bRem) :=
    match running c, activeColor c, lastTickAt c with
    | true, Some active, Some last =>
        let elapsed := Z.max 0 (atMs - last) in
        (match active with W => wRemainingMs c - elapsed
                         | B => wRemainingMs c end,
         match active with B => bRemainingMs c - elapsed
                         | W => bRemainingMs c end)
    | _, _, _ => (wRemainingMs c, bRemainingMs c)
    end in
  {| snap_initialMs := initialMs c;
     snap_incrementMs := incrementMs c;
     snap_wRemainingMs := Z.max 0 wRem;
     snap_bRemainingMs := Z.max 0 bRem;
     snap_activeColor := activeColor c;
     snap_running := running c |}.

Definition publicState (game : Game) (atMs : Z) : PublicState :=
  let c := chess game in
  let termination := computeTermination c in
  let st :=
    match termination with
    | Some t => {| ps_state := Finished; ps_winner := t_winner t;
                   ps_reason := Some (t_reason t); ps_isCheck := isCheck c |}
    | None => {| ps_state := state (status game);
                 ps_winner := winner (status game);
                 ps_reason := reason (status game);
                 ps_isCheck := isCheck c |}
    end in
  {| ps_gameId := id game;
     ps_fen := chess_fen c;
     ps_pgn := chess_pgn c;
     ps_turn := chess_turn c;
     ps_moveCursor := moveCursor game;
     ps_history := chess_history c;
     ps_status := st;
     ps_players_w := fst (publicPlayers game);
     ps_players_b := snd (publicPlayers game);
     ps_clocks := effectiveClocksSnapshot game atMs;
     ps_createdAt := createdAt game;
     ps_updatedAt := updatedAt game |}.

(** ** Start and pause *)

Definition maybeStartGame (game : Game) (now : Z) : Game :=
  if state_eqb (state (status game)) Finished then game
  else
    let hasW := truthy (pl_id (players_w (players game))) in
    let hasB := truthy (pl_id (players_b (players game))) in
    if hasW && hasB then
      let game1 := with_state game Active in
      if negb (running (clocks game1)) then
        with_clocks game1
          (with_run (clocks game1) true (Some (chess_turn (chess game1)))
                    (Some now))
      else game1
    else
      let game1 := with_state game Waiting in
      if running (clocks game1) then
        let snap := effectiveClocksSnapshot game1 now in
        with_clocks game1
          (stop_clock (with_remaining (clocks game1)
                         (snap_wRemainingMs snap) (snap_bRemainingMs snap)))
      else game1.

(** ** Registry operations *)

Definition not_found : Err :=
  {| error := "Game not found"; statusCode := 404 |}.

Record CreateResult := {
  cr_gameId : string;
  cr_player : Participant;
  cr_state : PublicState
}.

Definition createGame (st : GameStore)
    (creatorName creatorColor : option string)
    (timeControl : option TimeControl)
    (gameId creatorPlayerId iso : string) (now : Z)
    : CreateResult * GameStore :=
  let '(game0, playerId, assignedColor) :=
    createNewGame creatorName creatorColor timeControl
                  gameId creatorPlayerId iso in
  let game := maybeStartGame game0 now in
  ({| cr_gameId := id game;
      cr_player := {| part_playerId := playerId;
                      part_color := Some assignedColor;
                      part_role := RolePlayer |};
      cr_state := publicState game now |},
   JsMap.set st (id game) game).

Definition getGameState (st : GameStore) (gameId : string) (now : Z)
    : option PublicState :=
  match JsMap.get st gameId with
  | None => None
  | Some game => Some (publicState game now)
  end.

Record JoinResult := {
  jr_gameId : string;
  jr_participant : Participant;
  jr_state : PublicState
}.

(** [!game.players[c].id] *)
Definition slotAvailable (game : Game) (c : Color) : bool :=
  negb (truthy (pl_id (slot (players game) c))).

(** The reconnect branch of [joinGame], on the session. *)
Definition rejoin (game : Game) (color : Color) (name : option string)
    (iso : string) (now : Z) : Game :=
  let p := slot (players game) color in
  let p1 := {| pl_id := pl_id p; pl_name := pl_name p; pl_present := true |} in
  let p2 := if truthy name
            then {| pl_id := pl_id p1; pl_name := name;
                    pl_present := pl_present p1 |}
            else p1 in
  let game1 := with_players game (set_slot (players game) color p2) in
  maybeStartGame (with_updatedAt game1 iso) now.

(** [assignTo(c)] of [joinGame], on the session. *)
Definition assignTo (game : Game) (c : Color) (name : option string)
    (newPlayerId iso : string) (now : Z) : Game :=
  let p := {| pl_id := Some newPlayerId; pl_name := or_null name;
              pl_present := true |} in
  let game1 := with_players game (set_slot (players game) c p) in
  maybeStartGame (with_updatedAt game1 iso) now.

(** The spectator branch of [joinGame], on the session. *)
Definition addSpectator (game : Game) (name : option string)
    (spectatorId iso : string) : Game :=
  with_updatedAt
    (with_spectators game
       (JsMap.set (spectators game) spectatorId (or_null name)))
    iso.

(** What [joinGame] does to the session, with the participant it returns. *)
Definition joinOn (game : Game) (name : option string) (playerId : CallerId)
    (requestedColor : option string)
    (freshId iso : string) (now : Z) : Game * Participant :=
  if truthy_id playerId
     && (strict_eq playerId (pl_id (players_w (players game)))
         || strict_eq playerId (pl_id (players_b (players game))))
  then
    let color := if strict_eq playerId (pl_id (players_w (players game)))
                 then W else B in
    (rejoin game color name iso now,
     {| part_playerId := match playerId with IdStr s => s | _ => "" end;
        part_color := Some color; part_role := RolePlayer |})
  else
    let seat c :=
      (assignTo game c name freshId iso now,
       {| part_playerId := freshId; part_color := Some c;
          part_role := RolePlayer |}) in
    match normalizeColor requestedColor with
    | Some desired =>
        if slotAvailable game desired then seat desired
        else if slotAvailable game W then seat W
        else if slotAvailable game B then seat B
        else (addSpectator game name freshId iso,
              {| part_playerId := freshId; part_color := None;
                 part_role := RoleSpectator |})
    | None =>
        if slotAvailable game W then seat W
        else if slotAvailable game B then seat B
        else (addSpectator game name freshId iso,
              {| part_playerId := freshId; part_color := None;
                 part_role := RoleSpectator |})
    end.

Definition joinGame (st : GameStore) (gameId : string)
    (name : option string) (playerId : CallerId)
    (requestedColor : option string)
    (freshId iso : string) (now : Z) : Result JoinResult * GameStore :=
  match JsMap.get st gameId with
  | None => (inl not_found, st)
  | Some game =>
      let '(game1, participant) :=
        joinOn game name playerId requestedColor freshId iso now in
      (inr {| jr_gameId := gameId; jr_participant := participant;
              jr_state := publicState game1 now |},
       JsMap.set st gameId game1)
  end.

(** What [leaveGame] does to the session; [None] is the
    [Unknown playerId] answer. *)
Definition leaveOn (game : Game) (playerId : CallerId)
    (iso : string) (now : Z) : option Game :=
  let vacate c := with_players game (set_slot (players game) c empty_player) in
  let finish g := Some (maybeStartGame (with_updatedAt g iso) now) in
  if strict_eq playerId (pl_id (players_w (players game))) then
    finish (vacate W)
  else if strict_eq playerId (pl_id (players_b (players game))) then
    finish (vacate B)
  else
    match playerId with
    | IdStr pid =>
        if JsMap.has (spectators game) pid then
          finish (with_spectators game (JsMap.delete (spectators game) pid))
        else None
    | IdUndefined | IdNull => None
    end.

Definition leaveGame (st : GameStore) (gameId : string)
    (playerId : CallerId) (iso : string) (now : Z)
    : Result PublicState * GameStore :=
  match JsMap.get st gameId with
  | None => (inl not_found, st)
  | Some game =>
      match leaveOn game playerId iso now with
      | None => (inl {| error := "Unknown playerId"; statusCode := 400 |}, st)
      | Some game1 => (inr (publicState game1 now), JsMap.set st gameId game1)
      end
  end.

(** ** Move pipeline *)

Definition assertPlayerCanMove (game : Game) (playerId : CallerId)
    : Result Color :=
  if negb (truthy_id playerId) then
    inl {| error := "playerId is required"; statusCode := 400 |}
  else if negb (state_eqb (state (status game)) Active) then
    inl {| error := "Game is not active (state="
                    ++ state_name (state (status game)) ++ ")";
           statusCode := 409 |}
  else if state_eqb (state (status game)) Finished then
    inl {| error := "Game is finished"; statusCode := 409 |}
  else
    let color :=
      if strict_eq playerId (pl_id (players_w (players game))) then Some W
      else if strict_eq playerId (pl_id (players_b (players game)))
           then Some B else None in
    match color with
    | None => inl {| error := "Only players may move"; statusCode := 403 |}
    | Some c =>
        if negb (color_eqb (chess_turn (chess game)) c) then
          inl {| error := "Not your turn"; statusCode := 409 |}
        else inr c
    end.

(** The assignments of a timeout: status, then the stopped clock. *)
Definition finalize_timeout (game : Game) (win : Color) : Game :=
  with_clocks
    (with_status game
       {| state := Finished; winner := Some win; reason := Some "timeout" |})
    (stop_clock (clocks game)).

(** Returns the session after the commit and the [timedOut] flag. *)
Definition commitClockBeforeMove (game : Game) (atMs : Z) : Game * bool :=
  let snap := effectiveClocksSnapshot game atMs in
  let game1 :=
    with_clocks game
      (with_remaining (clocks game)
         (snap_wRemainingMs snap) (snap_bRemainingMs snap)) in
  if snap_wRemainingMs snap <=? 0 then (finalize_timeout game1 B, true)
  else if snap_bRemainingMs snap <=? 0 then (finalize_timeout game1 W, true)
  else (game1, false).

Definition illegal_move : Err :=
  {| error := "Illegal move"; statusCode := 409 |}.

(** The part of [makeMove] after an accepted [chess.move]: [c'] is the
    instance after the move, [mv] the move object. *)
Definition applyAccepted (game : Game) (color : Color) (c' : Chess)
    (mv : Move) (at_ : Z) (iso : string) : Game :=
  let game1 := with_chess game c' in
  let game2 :=
    if moveCursor game1 <? Z.of_nat (List.length (moves game1))
    then with_moves game1 (slice0 (moves game1) (moveCursor game1))
    else game1 in
  let game3 :=
    with_moves game2
      (moves game2 ++ [ {| from := move_from mv; to := move_to mv;
                           promotion := or_null (move_promotion mv) |} ]) in
  let game4 := with_moveCursor game3 (Z.of_nat (List.length (moves game3))) in
  let inc := incrementMs (clocks game4) in
  let game5 :=
    with_clocks game4
      (with_remaining (clocks game4)
         (match color with W => wRemainingMs (clocks game4) + inc
                         | B => wRemainingMs (clocks game4) end)
         (match color with B => bRemainingMs (clocks game4) + inc
                         | W => bRemainingMs (clocks game4) end)) in
  let game6 :=
    match computeTermination (chess game5) with
    | Some t =>
        with_clocks
          (with_status game5
             {| state := Finished; winner := t_winner t;
                reason := Some (t_reason t) |})
          (stop_clock (clocks game5))
    | None =>
        with_clocks
          (with_state game5 Active)
          (with_run (clocks game5) true
                    (Some (chess_turn (chess game5))) (Some at_))
    end in
  with_updatedAt game6 iso.

(** What [makeMove] does once the session is found: the answer and the
    session as it is left. *)
Definition makeMoveOn (game : Game) (playerId : CallerId)
    (from_ to_ : string) (promotion_ : option string)
    (at_ : Z) (iso : string) : Result PublicState * Game :=
  match assertPlayerCanMove game playerId with
  | inl e => (inl e, game)
  | inr color =>
      let '(game1, timedOut) := commitClockBeforeMove game at_ in
      if timedOut then
        let game2 := with_updatedAt game1 iso in
        (inr (publicState game2 at_), game2)
      else
        match chess_move (chess game1)
                {| from := from_; to := to_;
                   promotion := safePromotion promotion_ |} with
        | None => (inl illegal_move, game1)
        | Some (c', mv) =>
            let game2 := applyAccepted game1 color c' mv at_ iso in
            (inr (publicState game2 at_), game2)
        end
  end.

Definition makeMove (st : GameStore) (gameId : string)
    (playerId : CallerId) (from_ to_ : string)
    (promotion_ : option string) (at_ : Z) (iso : string)
    : Result PublicState * GameStore :=
  match JsMap.get st gameId with
  | None => (inl not_found, st)
  | Some game =>
      let '(res, game1) :=
        makeMoveOn game playerId from_ to_ promotion_ at_ iso in
      (res, JsMap.set st gameId game1)
  end.

(** ** Undo and redo *)

Definition reset_status : Status :=
  {| state := Waiting; winner := None; reason := None |}.

Definition isPlayer (game : Game) (playerId : CallerId) : bool :=
  strict_eq playerId (pl_id (players_w (players game)))
  || strict_eq playerId (pl_id (players_b (players game))).

(** The common tail of [undo] and [redo] after the cursor is moved;
    [None] when the replay raises. *)
Definition replayAt (game : Game) (cursor : Z) (iso : string) : option Game :=
  match rebuildChess (with_moveCursor game cursor) with
  | None => None
  | Some game1 => Some (with_updatedAt (with_status game1 reset_status) iso)
  end.

(** [None] is an exception raised by the replay (the cursor has been
    moved by then); otherwise the answer and the session as it is left. *)
Definition undoOn (game : Game) (playerId : CallerId) (iso : string)
    (now : Z) : option (Result PublicState * Game) :=
  if running (clocks game) then
    Some (inl {| error := "Undo is disabled while clocks are running";
                 statusCode := 409 |}, game)
  else if negb (isPlayer game playerId) then
    Some (inl {| error := "Only players may undo"; statusCode := 403 |}, game)
  else if moveCursor game <=? 0 then
    Some (inl {| error := "Nothing to undo"; statusCode := 409 |}, game)
  else
    match replayAt game (moveCursor game - 1) iso with
    | None => None
    | Some game1 => Some (inr (publicState game1 now), game1)
    end.

Definition redoOn (game : Game) (playerId : CallerId) (iso : string)
    (now : Z) : option (Result PublicState * Game) :=
  if running (clocks game) then
    Some (inl {| error := "Redo is disabled while clocks are running";
                 statusCode := 409 |}, game)
  else if negb (isPlayer game playerId) then
    Some (inl {| error := "Only players may redo"; statusCode := 403 |}, game)
  else if moveCursor game >=? Z.of_nat (List.length (moves game)) then
    Some (inl {| error := "Nothing to redo"; statusCode := 409 |}, game)
  else
    match replayAt game (moveCursor game + 1) iso with
    | None => None
    | Some game1 => Some (inr (publicState game1 now), game1)
    end.

Definition undo (st : GameStore) (gameId : string) (playerId : CallerId)
    (iso : string) (now : Z) : option (Result PublicState * GameStore) :=
  match JsMap.get st gameId with
  | None => Some (inl not_found, st)
  | Some game =>
      match undoOn game playerId iso now with
      | None => None
      | Some (res, game1) => Some (res, JsMap.set st gameId game1)
      end
  end.

Definition redo (st : GameStore) (gameId : string) (playerId : CallerId)
    (iso : string) (now : Z) : option (Result PublicState * GameStore) :=
  match JsMap.get st gameId with
  | None => Some (inl not_found, st)
  | Some game =>
      match redoOn game playerId iso now with
      | None => None
      | Some (res, game1) => Some (res, JsMap.set st gameId game1)
      end
  end.

(** ** Timeout sweep *)

(** The loop body of [tickClocks] on one session: the session as it is
    left, and whether its id is pushed on [changed]. *)
Definition tickGame (game : Game) (atMs : Z) (iso : string) : Game * bool :=
  if negb (running (clocks game))
     || negb (state_eqb (state (status game)) Active)
  then (game, false)
  else
    let snap := effectiveClocksSnapshot game atMs in
    let isActive c :=
      match activeColor (clocks game) with
      | Some a => color_eqb a c
      | None => false
      end in
    let timedOut :=
      ((snap_wRemainingMs snap <=? 0) && isActive W)
      || ((snap_bRemainingMs snap <=? 0) && isActive B) in
    if timedOut then
      let game1 :=
        with_clocks game
          (with_remaining (clocks game)
             (snap_wRemainingMs snap) (snap_bRemainingMs snap)) in
      let game2 :=
        with_status game1
          {| state := Finished;
             winner := Some (if isActive W then B else W);
             reason := Some "timeout" |} in
      let game3 := with_clocks game2 (stop_clock (clocks game2)) in
      (with_updatedAt game3 iso, true)
    else (game, true).

(** [Array.from(new Set(changed))] *)
Fixpoint dedupe (seen : list string) (l : list string) : list string :=
  match l with
  | [] => []
  | x :: rest =>
      if existsb (String.eqb x) seen then dedupe seen rest
      else x :: dedupe (x :: seen) rest
  end.

Fixpoint tickAll (st : GameStore) (atMs : Z) (iso : string)
    : list string * GameStore :=
  match st with
  | [] => ([], [])
  | (k, game) :: rest =>
      let '(game1, pushed) := tickGame game atMs iso in
      let '(changed, rest1) := tickAll rest atMs iso in
      ((if pushed then id game1 :: changed else changed), (k, game1) :: rest1)
  end.

Definition tickClocks (st : GameStore) (atMs : Z) (iso : string)
    : list string * GameStore :=
  let '(changed, st1) := tickAll st atMs iso in
  (dedupe [] changed, st1).

(** ** Persistence *)

Definition serializePlayer (p : Player) : SerializedPlayer :=
  {| sp_id := pl_id p; sp_name := pl_name p;
     sp_present := Some (pl_present p) |}.

(** [moves] and [status] of the snapshot are the session's own array and
    object; the snapshot is turned into JSON before another operation
    runs. *)
Definition serializeGame (game : Game) : Serialized :=
  {| s_id := id game;
     s_createdAt := createdAt game;
     s_updatedAt := updatedAt game;
     s_initialFen := initialFen game;
     s_moves := moves game;
     s_moveCursor := Some (moveCursor game);
     s_players_w := serializePlayer (players_w (players game));
     s_players_b := serializePlayer (players_b (players game));
     s_spectators := JsMap.entries (spectators game);
     s_clocks := {| initialMs := initialMs (clocks game);
                    incrementMs := incrementMs (clocks game);
                    wRemainingMs := wRemainingMs (clocks game);
                    bRemainingMs := bRemainingMs (clocks game);
                    activeColor := activeColor (clocks game);
                    running := false;
                    lastTickAt := None |};
     s_status := StatusObject (status game) |}.

(** The spectator loop of [_deserializeGame]. *)
Fixpoint loadSpectators (acc : JsMap.t (option string))
    (l : list (string * option string)) : JsMap.t (option string) :=
  match l with
  | [] => acc
  | (sid, sname) :: rest =>
      loadSpectators
        (if truthy (Some sid) then JsMap.set acc sid (or_null sname) else acc)
        rest
  end.

(** [None] is an exception: the [TypeError] of the replay loop, or the
    [TypeError] of [game.status.state = ...] when [serialized.status] is a
    truthy scalar (the class body is strict code, where assigning a
    property of a primitive raises).  An object is taken as it is, a falsy
    value is replaced by a fresh object, and state, winner and reason are
    overwritten in both.  [iso] is the fallback timestamp.  The numeric
    clock fields of a snapshot are read as they are ([Number(x ?? d)] is
    the identity on a number). *)
Definition deserializeGame (serialized : Serialized) (iso : string)
    : option Game :=
  let chess0 := new_Chess (Some (s_initialFen serialized)) in
  let moves_ := s_moves serialized in
  let len := Z.of_nat (List.length moves_) in
  let cursor :=
    match s_moveCursor serialized with
    | Some n => Z.max 0 (Z.min len n)
    | None => len
    end in
  match replay chess0 moves_ (Z.to_nat cursor) with
  | None => None
  | Some c =>
      let termination := computeTermination c in
      if is_scalar (s_status serialized) then None else
      Some
        {| id := s_id serialized;
           createdAt := or_else (s_createdAt serialized) iso;
           updatedAt := or_else (s_updatedAt serialized) iso;
           initialFen := or_else (s_initialFen serialized)
                                 (chess_fen (new_Chess None));
           moves := moves_;
           moveCursor := cursor;
           chess := c;
           players :=
             {| players_w :=
                  {| pl_id := or_null (sp_id (s_players_w serialized));
                     pl_name := or_null (sp_name (s_players_w serialized));
                     pl_present := false |};
                players_b :=
                  {| pl_id := or_null (sp_id (s_players_b serialized));
                     pl_name := or_null (sp_name (s_players_b serialized));
                     pl_present := false |} |};
           spectators := loadSpectators JsMap.empty (s_spectators serialized);
           clocks :=
             {| initialMs := initialMs (s_clocks serialized);
                incrementMs := incrementMs (s_clocks serialized);
                wRemainingMs := wRemainingMs (s_clocks serialized);
                bRemainingMs := bRemainingMs (s_clocks serialized);
                activeColor := None;
                running := false;
                lastTickAt := None |};
           status :=
             match termination with
             | Some t => {| state := Finished; winner := t_winner t;
                            reason := Some (t_reason t) |}
             | None => {| state := Waiting; winner := None; reason := None |}
             end |}
  end.

(** [saveToDisk]: the array handed to the persistence service, which is
    the [games] array [loadFromDisk] gets back. *)
Definition saveToDisk (st : GameStore) : list Serialized :=
  map serializeGame (JsMap.values st).

(** The loop of [loadFromDisk]: a record without an id is passed over,
    and so is a record on which [_deserializeGame] raises (the [catch]
    of the loop). *)
Fixpoint loadInto (next : GameStore) (l : list Serialized) (iso : string)
    : GameStore :=
  match l with
  | [] => next
  | sg :: rest =>
      if negb (truthy (Some (s_id sg))) then loadInto next rest iso
      else
        match deserializeGame sg iso with
        | Some game => loadInto (JsMap.set next (id game) game) rest iso
        | None => loadInto next rest iso
        end
  end.

Definition loadFromDisk (disk : list Serialized) (iso : string)
    : nat * GameStore :=
  let next := loadInto JsMap.empty disk iso in
  (JsMap.size next, next).

End Engine.

Arguments Game {V}.
Arguments PublicState {V}.
Arguments GameStore {V}.

(** ** A small rules library to run the engine on

    An instance of [Validator] used to evaluate the engine on concrete
    sessions.  A position is the start token and the moves played; white
    moves first and the sides alternate.  A move is accepted when the game
    is not over and [from] and [to] are two different non-empty squares; a
    promotion piece is kept only on the square ["e8"].  A move to the
    square ["mate"] mates the side then to move, a move to ["stale"]
    stalemates it, a move to ["check"] gives check. *)
Module Toy.

Record Pos := {
  start : string;
  played : list MoveRecord
}.

Definition last_to (p : Pos) : string :=
  match rev (played p) with
  | m :: _ => to m
  | [] => ""
  end.

Definition mated (p : Pos) : bool := (last_to p =? "mate")%string.
Definition stalemated (p : Pos) : bool := (last_to p =? "stale")%string.
Definition over (p : Pos) : bool := mated p || stalemated p.

Definition fen (p : Pos) : string :=
  start p ++ concat "" (map (fun m => "/" ++ from m ++ "-" ++ to m) (played p)).

Definition turn (p : Pos) : Color :=
  if Nat.even (List.length (played p)) then W else B.

Definition move (p : Pos) (a : MoveRecord) : option (Pos * MoveRecord) :=
  if over p || (from a =? "")%string || (to a =? "")%string
     || (from a =? to a)%string
  then None
  else
    let m := {| from := from a; to := to a;
                promotion := if (to a =? "e8")%string
                             then or_null (promotion a) else None |} in
    Some ({| start := start p; played := played p ++ [m] |}, m).

#[export] Instance validator : Validator := {|
  Chess := Pos;
  Move := MoveRecord;
  move_from := from;
  move_to := to;
  move_promotion := promotion;
  new_Chess := fun f =>
    {| start := match f with Some x => x | None => "startpos" end;
       played := [] |};
  chess_fen := fen;
  chess_pgn := fen;
  chess_turn := turn;
  chess_history := played;
  chess_move := move;
  isCheck := fun p => (last_to p =? "check")%string || mated p;
  isCheckmate := mated;
  isStalemate := stalemated;
  isDraw := stalemated;
  isThreefoldRepetition := fun _ => false;
  isInsufficientMaterial := fun _ => false;
  isGameOver := over
|}.

Definition iso0 : string := "2024-01-01T00:00:00.000Z".
Definition iso1 : string := "2024-01-01T00:00:05.000Z".

(** The session [createGame] makes for ["alice"] as white, with the given
    time control. *)
Definition created (tc : option TimeControl) : Game :=
  maybeStartGame
    (fst (fst (createNewGame (Some "alice") (Some "w") tc "g1" "pw" iso0))) 0.

(** The session once ["bob"] has joined it at time 0. *)
Definition seated (tc : option TimeControl) : Game :=
  fst (joinOn (created tc) (Some "bob") IdUndefined None "pb" iso0 0).

(** One second each, no increment. *)
Definition game0 : Game :=
  Eval vm_compute in
  seated (Some {| tc_initialMs := Some 1000; tc_incrementMs := Some 0 |}).

(** Five minutes each, two seconds of increment (the defaults). *)
Definition game5 : Game := Eval vm_compute in seated None.

Definition store0 : GameStore := [("g1", game0)].
Definition store5 : GameStore := [("g1", game5)].

(** Registry after an operation that may raise, for chaining. *)
Definition after {A} (r : option (A * GameStore)) : GameStore :=
  match r with Some (_, st) => st | None => [] end.

(** The session of a registry that holds ["g1"]. *)
Definition the_game (st : GameStore) : option Game := JsMap.get st "g1".

(** [store5] after white played e2-e4 at 5000 ms. *)
Definition store5_moved : GameStore :=
  Eval vm_compute in
  snd (makeMove store5 "g1" (IdStr "pw") "e2" "e4" None 5000 iso1).

(** [store0] after white played e2-e4 at 10 ms, black ran out of time and
    the sweep at 5000 ms finalized the timeout. *)
Definition store0_timeout : GameStore :=
  Eval vm_compute in
  snd (tickClocks
         (snd (makeMove store0 "g1" (IdStr "pw") "e2" "e4" None 10 iso0))
         5000 iso1).

Definition game0_timeout : Game :=
  Eval vm_compute in
  match the_game store0_timeout with Some g => g | None => game0 end.

(** [store0_timeout] after white undid the move: both players seated,
    clock stopped, state [waiting]. *)
Definition store0_undone : GameStore :=
  Eval vm_compute in
  after (undo store0_timeout "g1" (IdStr "pw") iso1 6000).

Definition game0_undone : Game :=
  Eval vm_compute in
  match the_game store0_undone with Some g => g | None => game0 end.

(** [store5_moved] after black left at 6000 ms: white seated, the black
    slot vacant, one move played, clock stopped, state [waiting]. *)
Definition store5_left : GameStore :=
  Eval vm_compute in
  snd (leaveGame store5_moved "g1" (IdStr "pb") iso1 6000).

Definition game5_left : Game :=
  Eval vm_compute in
  match the_game store5_left with Some g => g | None => game5 end.

(** [store5] after white mated at 5000 ms, undid the move and redid it:
    the position held is mate, the stored status is [waiting]. *)
Definition store5_mate_redone : GameStore :=
  Eval vm_compute in
  after (redo
           (after (undo
                     (snd (makeMove store5 "g1" (IdStr "pw") "d1" "mate"
                             None 5000 iso1))
                     "g1" (IdStr "pw") iso1 6000))
           "g1" (IdStr "pw") iso1 7000).

Definition game5_mate_redone : Game :=
  Eval vm_compute in
  match the_game store5_mate_redone with Some g => g | None => game5 end.

(** A record of the file whose status is the string it should hold an
    object for. *)
Definition scalar_record (gameId : string) : Serialized :=
  {| s_id := gameId;
     s_createdAt := iso0;
     s_updatedAt := iso0;
     s_initialFen := "startpos";
     s_moves := [];
     s_moveCursor := Some 0;
     s_players_w := {| sp_id := None; sp_name := None; sp_present := None |};
     s_players_b := {| sp_id := None; sp_name := None; sp_present := None |};
     s_spectators := [];
     s_clocks := {| initialMs := 300000; incrementMs := 2000;
                    wRemainingMs := 300000; bRemainingMs := 300000;
                    activeColor := None; running := false;
                    lastTickAt := None |};
     s_status := StatusScalar |}.

End Toy.

(** ** Invariants and the operations as one step function *)

Section Invariants.

Context {V : Validator}.

(** [0 <= moveCursor <= len(moves)] *)
Definition cursor_ok (game : Game) : Prop :=
  0 <= moveCursor game <= Z.of_nat (List.length (moves game)).

(** The position held is the one obtained by replaying [moves[0, cursor)]
    from the initial position token. *)
Definition position_replayed (game : Game) : Prop :=
  replay (new_Chess (Some (initialFen game))) (moves game)
         (Z.to_nat (moveCursor game)) = Some (chess game).

(** The strings of a session are the ones the engine itself writes:
    timestamps are not empty and a name is [null] or a non-empty string. *)
Definition strings_normal (game : Game) : Prop :=
  createdAt game <> "" /\ updatedAt game <> ""
  /\ or_null (pl_name (players_w (players game)))
     = pl_name (players_w (players game))
  /\ or_null (pl_name (players_b (players game)))
     = pl_name (players_b (players game)).

Definition store_ok (st : GameStore) : Prop :=
  forall k game, JsMap.get st k = Some game -> cursor_ok game.

(** The session holds the replayed position and has an initial position
    token. *)
Definition replayed_ok (game : Game) : Prop :=
  position_replayed game /\ initialFen game <> "".

Definition store_replayed (st : GameStore) : Prop :=
  forall k game, JsMap.get st k = Some game -> replayed_ok game.

(** The active color's effective remaining time at [atMs] is used up. *)
Definition active_expired (game : Game) (c : Color) (atMs : Z) : Prop :=
  activeColor (clocks game) = Some c
  /\ snap_remaining (effectiveClocksSnapshot game atMs) c <= 0.

(** The clock is stopped. *)
Definition clock_stopped (game : Game) : Prop :=
  running (clocks game) = false
  /\ activeColor (clocks game) = None
  /\ lastTickAt (clocks game) = None.

(** The session is finalized as a timeout. *)
Definition timed_out (game : Game) : Prop :=
  state (status game) = Finished
  /\ reason (status game) = Some "timeout"
  /\ clock_stopped game.

(** Both color slots are occupied, as [_maybeStartGame] tests it. *)
Definition both_seated (game : Game) : bool :=
  truthy (pl_id (players_w (players game)))
  && truthy (pl_id (players_b (players game))).

(** The registry operations. *)
Inductive Op :=
| OpCreate (creatorName creatorColor : option string)
           (timeControl : option TimeControl)
           (gameId creatorPlayerId iso : string) (now : Z)
| OpJoin (gameId : string) (name : option string) (playerId : CallerId)
         (requestedColor : option string) (freshId iso : string) (now : Z)
| OpLeave (gameId : string) (playerId : CallerId) (iso : string) (now : Z)
| OpMove (gameId : string) (playerId : CallerId) (from_ to_ : string)
         (promotion_ : option string) (at_ : Z) (iso : string)
| OpUndo (gameId : string) (playerId : CallerId) (iso : string) (now : Z)
| OpRedo (gameId : string) (playerId : CallerId) (iso : string) (now : Z)
| OpTick (atMs : Z) (iso : string)
| OpSave
| OpLoad (disk : list Serialized) (iso : string).

(** The registry after an operation; [None] when the operation raises. *)
Definition run (st : GameStore) (op : Op) : option GameStore :=
  match op with
  | OpCreate n c tc gid pid iso now =>
      Some (snd (createGame st n c tc gid pid iso now))
  | OpJoin gid n pid rc fid iso now =>
      Some (snd (joinGame st gid n pid rc fid iso now))
  | OpLeave gid pid iso now => Some (snd (leaveGame st gid pid iso now))
  | OpMove gid pid f t pr at_ iso =>
      Some (snd (makeMove st gid pid f t pr at_ iso))
  | OpUndo gid pid iso now => option_map snd (undo st gid pid iso now)
  | OpRedo gid pid iso now => option_map snd (redo st gid pid iso now)
  | OpTick atMs iso => Some (snd (tickClocks st atMs iso))
  | OpSave => Some st
  | OpLoad disk iso => Some (snd (loadFromDisk disk iso))
  end.

(** The color slot whose id the caller's [playerId] is strictly equal
    to, white looked at first: the slot a caller occupies when the id is
    a string, a vacant slot when it is [null]. *)
Definition seat_of (game : Game) (playerId : CallerId) : option Color :=
  if strict_eq playerId (pl_id (players_w (players game))) then Some W
  else if strict_eq playerId (pl_id (players_b (players game))) then Some B
  else None.

(** The five errors of the precondition checks of [makeMove]; the third
    carries the stored state in its message. *)
Definition precondition_errors (s : GameState) : list Err :=
  [ {| error := "Game not found"; statusCode := 404 |};
    {| error := "playerId is required"; statusCode := 400 |};
    {| error := "Game is not active (state=" ++ state_name s ++ ")";
       statusCode := 409 |};
    {| error := "Only players may move"; statusCode := 403 |};
    {| error := "Not your turn"; statusCode := 409 |} ].

(** What [makeMove] does after the five checks passed for a caller
    seated as [color]: the clock commit, then the rules library. *)
Definition commit_and_delegate (st : GameStore) (gameId : string)
    (game : Game) (color : Color) (from_ to_ : string)
    (promotion_ : option string) (at_ : Z) (iso : string)
    : Result PublicState * GameStore :=
  let '(game1, timedOut) := commitClockBeforeMove game at_ in
  if timedOut then
    (inr (publicState (with_updatedAt game1 iso) at_),
     JsMap.set st gameId (with_updatedAt game1 iso))
  else
    match chess_move (chess game1)
            {| from := from_; to := to_;
               promotion := safePromotion promotion_ |} with
    | None => (inl illegal_move, JsMap.set st gameId game1)
    | Some (c', mv) =>
        (inr (publicState (applyAccepted game1 color c' mv at_ iso) at_),
         JsMap.set st gameId (applyAccepted game1 color c' mv at_ iso))
    end.

(** The session the undo/redo controller is specified to leave: the
    cursor set to [cursor], the position obtained by replaying
    [moves[0, cursor)] from the initial position token, the status reset
    to [waiting] with winner and reason cleared. *)
Definition replayed_session (game : Game) (cursor : Z) (iso : string) : Game :=
  with_updatedAt
    (with_status
       (with_chess (with_moveCursor game cursor)
          (fold_left replay_move
             (firstn (Z.to_nat cursor) (moves game))
             (new_Chess (Some (initialFen game)))))
       reset_status)
    iso.

(** What a session looks like after a commit that found the time of
    [c] used up and finalized it. *)
Definition finalized_for (game game1 : Game) : Prop :=
  timed_out game1
  /\ chess game1 = chess game
  /\ moves game1 = moves game
  /\ moveCursor game1 = moveCursor game.

(** A successful leave and a join that seats or reconnects a player both
    end with [_maybeStartGame] on a session that has the status, the
    clocks and the position of the one they started from. *)
Definition settles (game game' : Game) (now : Z) : Prop :=
  exists g1,
    game' = maybeStartGame g1 now
    /\ status g1 = status game
    /\ clocks g1 = clocks game
    /\ chess g1 = chess game.


(** The move list, the cursor, the position held and the initial position
    token are the same in both sessions. *)
Definition same_history (game game' : Game) : Prop :=
  moves game' = moves game
  /\ moveCursor game' = moveCursor game
  /\ chess game' = chess game
  /\ initialFen game' = initialFen game.



Definition store_strings (st : GameStore) : Prop :=
  forall k game, JsMap.get st k = Some game -> strings_normal game.

(** The timestamp an operation is given is not empty. *)
Definition stamp_ok (op : Op) : Prop :=
  match op with
  | OpCreate _ _ _ _ _ iso _ | OpJoin _ _ _ _ _ iso _ | OpLeave _ _ iso _
  | OpMove _ _ _ _ _ _ iso | OpUndo _ _ iso _ | OpRedo _ _ iso _
  | OpTick _ iso | OpLoad _ iso => iso <> ""
  | OpSave => True
  end.

(** The snapshots an [OpLoad] reads all carry an initial position token. *)
Definition disk_has_tokens (op : Op) : Prop :=
  match op with
  | OpLoad disk _ => Forall (fun sg => s_initialFen sg <> "") disk
  | _ => True
  end.

End Invariants.

(** ** Listing, transport and matchmaking

    The remaining callers of the registry: [listGames], the REST
    controller (controllers/games) and the matchmaking queue of the socket
    server (socket/index.js). *)

Section Transport.

Context {V : Validator}.

(** An item of [listGames]. *)
Record GameListItem := {
  li_gameId : string;
  li_state : GameState;
  li_createdAt : string;
  li_updatedAt : string;
  li_players_w : PublicPlayer;
  li_players_b : PublicPlayer
}.

Definition listItem (game : Game) : GameListItem :=
  {| li_gameId := id game;
     li_state := state (status game);
     li_createdAt := createdAt game;
     li_updatedAt := updatedAt game;
     li_players_w := fst (publicPlayers game);
     li_players_b := snd (publicPlayers game) |}.

Definition listGames (st : GameStore) : list GameListItem :=
  map listItem (JsMap.values st).

(** The status a controller answers with: 200 for a result, otherwise
    [result.statusCode || fallback]. *)
Definition http_status {A} (fallback : Z) (result : Result A) : Z :=
  match result with
  | inl e => if statusCode e =? 0 then fallback else statusCode e
  | inr _ => 200
  end.

(** [GamesController.getState] *)
Definition ctl_getState (st : GameStore) (gameId : string) (now : Z) : Z :=
  match getGameState st gameId now with
  | None => 404
  | Some _ => 200
  end.

(** [GamesController.join] *)
Definition ctl_join (st : GameStore) (gameId : string)
    (name : option string) (playerId : CallerId)
    (requestedColor : option string)
    (freshId iso : string) (now : Z) : Z * GameStore :=
  let '(joined, st1) :=
    joinGame st gameId name playerId requestedColor freshId iso now in
  (http_status 400 joined, st1).

(** [GamesController.leave]: a missing [playerId] is answered before the
    registry is called. *)
Definition ctl_leave (st : GameStore) (gameId : string)
    (playerId : CallerId) (iso : string) (now : Z) : Z * GameStore :=
  if negb (truthy_id playerId) then (400, st)
  else
    let '(result, st1) := leaveGame st gameId playerId iso now in
    (http_status 400 result, st1).

(** [GamesController.move] *)
Definition ctl_move (st : GameStore) (gameId : string)
    (playerId : CallerId) (from_ to_ : string)
    (promotion_ : option string) (at_ : Z) (iso : string) : Z * GameStore :=
  let '(result, st1) :=
    makeMove st gameId playerId from_ to_ promotion_ at_ iso in
  (http_status 409 result, st1).

(** [GamesController.undo]; [None] when the registry call raises. *)
Definition ctl_undo (st : GameStore) (gameId : string)
    (playerId : CallerId) (iso : string) (now : Z)
    : option (Z * GameStore) :=
  match undo st gameId playerId iso now with
  | None => None
  | Some (result, st1) => Some (http_status 409 result, st1)
  end.

(** [GamesController.redo] *)
Definition ctl_redo (st : GameStore) (gameId : string)
    (playerId : CallerId) (iso : string) (now : Z)
    : option (Z * GameStore) :=
  match redo st gameId playerId iso now with
  | None => None
  | Some (result, st1) => Some (http_status 409 result, st1)
  end.

(** The payload of [match:find]: [payload?.name] and
    [payload?.timeControl]. *)
Record MatchPayload := {
  mp_name : option string;
  mp_timeControl : option TimeControl
}.

(** [payload || {}] *)
Definition payload_or_empty (payload : option MatchPayload) : MatchPayload :=
  match payload with
  | Some x => x
  | None => {| mp_name := None; mp_timeControl := None |}
  end.

Record QueueEntry := {
  socketId : string;
  payload : MatchPayload
}.

(** [matchmakingQueue] *)
Definition Queue : Type := list QueueEntry.

Definition enqueue (q : Queue) (sid : string) (p : option MatchPayload)
    : Queue :=
  if existsb (fun e => (socketId e =? sid)%string) q then q
  else (q ++ [ {| socketId := sid; payload := payload_or_empty p |} ])%list.

(** [findIndex] then [splice(idx, 1)]: the first entry of the socket is
    removed. *)
Fixpoint dequeue (q : Queue) (sid : string) : Queue :=
  match q with
  | [] => []
  | e :: rest =>
      if (socketId e =? sid)%string then rest else e :: dequeue rest sid
  end.

(** A private [match:found] message: the socket it is emitted on and its
    fields ([participant] and [state] are [undefined] when the join
    failed). *)
Record MatchFound := {
  mf_socketId : string;
  mf_gameId : string;
  mf_participant : option Participant;
  mf_state : option PublicState
}.

(** The [match:find] handler.  [connected] tells whether
    [io.sockets.sockets.get] finds a socket, [coin] is
    [Math.random() < 0.5]; the three identifiers are the ones
    [randomId()] gives to the session, its creator and the joiner. *)
Definition matchFind (st : GameStore) (q : Queue) (sid : string)
    (p : option MatchPayload) (connected : string -> bool) (coin : bool)
    (gameId creatorPlayerId joinerId iso : string) (now : Z)
    : GameStore * Queue * list MatchFound :=
  match enqueue q sid p with
  | a :: b :: rest =>
      if negb (connected (socketId a)) || negb (connected (socketId b)) then
        let q1 := if connected (socketId a) then a :: rest else rest in
        let q2 := if connected (socketId b) then b :: q1 else q1 in
        (st, q2, [])
      else
        let '(createRes, st1) :=
          createGame st (mp_name (payload a))
            (Some (if coin then "w" else "b"))
            (mp_timeControl (payload a))
            gameId creatorPlayerId iso now in
        let '(joinRes, st2) :=
          joinGame st1 (cr_gameId createRes) (mp_name (payload b))
            IdUndefined None joinerId iso now in
        (st2, rest,
         [ {| mf_socketId := socketId a;
              mf_gameId := cr_gameId createRes;
              mf_participant := Some (cr_player createRes);
              mf_state := Some (cr_state createRes) |};
           {| mf_socketId := socketId b;
              mf_gameId := cr_gameId createRes;
              mf_participant :=
                match joinRes with
                | inr r => Some (jr_participant r)
                | inl _ => None
                end;
              mf_state :=
                match joinRes with
                | inr r => Some (jr_state r)
                | inl _ => None
                end |} ])
  | q1 => (st, q1, [])
  end.

(** No two entries of the queue belong to the same socket. *)
Definition queue_ok (q : Queue) : Prop := NoDup (map socketId q).

(** ** Invariants of live play *)

(** Status, clock and seats agree: the clock runs exactly in state
    [active]; a running clock is anchored and its active color is the
    side to move; a stopped clock has neither; an active session has both
    seats taken. *)
Definition live_ok (game : Game) : Prop :=
  (running (clocks game) = true <-> state (status game) = Active)
  /\ (running (clocks game) = true ->
      activeColor (clocks game) = Some (chess_turn (chess game))
      /\ exists t, lastTickAt (clocks game) = Some t)
  /\ (running (clocks game) = false ->
      activeColor (clocks game) = None /\ lastTickAt (clocks game) = None)
  /\ (state (status game) = Active -> both_seated game = true).

Definition store_live (st : GameStore) : Prop :=
  forall k game, JsMap.get st k = Some game -> live_ok game.

(** Stored times are not negative. *)
Definition clock_nonneg (c : Clocks) : Prop :=
  0 <= wRemainingMs c /\ 0 <= bRemainingMs c /\ 0 <= incrementMs c.

Definition store_nonneg (st : GameStore) : Prop :=
  forall k game, JsMap.get st k = Some game -> clock_nonneg (clocks game).

(** The snapshots an [OpLoad] reads carry times that are not negative. *)
Definition disk_nonneg (op : Op) : Prop :=
  match op with
  | OpLoad disk _ => Forall (fun sg => clock_nonneg (s_clocks sg)) disk
  | _ => True
  end.

(** Every session is stored under its own id, ids are not empty and no
    key occurs twice. *)
Definition store_keys_ok (st : GameStore) : Prop :=
  NoDup (map fst st)
  /\ Forall (fun e => id (snd e) = fst e /\ fst e <> "") st.

(** The session [loadFromDisk] builds from the snapshot of [game] (a
    snapshot made by [_serializeGame] is always read back, see
    [snapshot_is_read_back]). *)
Definition reload (game : Game) (iso : string) : Game :=
  match deserializeGame (serializeGame game) iso with
  | Some g => g
  | None => game
  end.

(** What every session is like right after a load. *)
Definition freshly_loaded (game : Game) : Prop :=
  running (clocks game) = false
  /\ activeColor (clocks game) = None
  /\ lastTickAt (clocks game) = None
  /\ pl_present (players_w (players game)) = false
  /\ pl_present (players_b (players game)) = false
  /\ (state (status game) = Finished /\ isGameOver (chess game) = true
      \/ status game = reset_status /\ isGameOver (chess game) = false)
  /\ cursor_ok game.

(** The session object [_createNewGame] builds. *)
Definition new_session (creatorName creatorColor : option string)
    (timeControl : option TimeControl)
    (gameId creatorPlayerId iso : string) : Game :=
  fst (fst (createNewGame creatorName creatorColor timeControl
              gameId creatorPlayerId iso)).

(** The color [_createNewGame] seats the creator on. *)
Definition creator_color (creatorColor : option string) : Color :=
  match normalizeColor creatorColor with Some c => c | None => W end.

(** The id a create is given is not empty. *)
Definition create_id_ok (op : Op) : Prop :=
  match op with
  | OpCreate _ _ _ gameId _ _ _ => gameId <> ""
  | _ => True
  end.

(** The operation is a join, a leave, a move, a sweep, a save, or a create
    under another id than [gid]. *)
Definition plays_on (op : Op) (gid : string) : Prop :=
  match op with
  | OpUndo _ _ _ _ | OpRedo _ _ _ _ | OpLoad _ _ => False
  | OpCreate _ _ _ gameId _ _ _ => gid <> gameId
  | _ => True
  end.

(** The promotion pieces [safePromotion] lets through. *)
Definition promotion_pieces : list string := ["q"; "r"; "b"; "n"].

(** The reasons [computeTermination] gives. *)
Definition termination_reasons : list string :=
  ["checkmate"; "stalemate"; "threefold"; "insufficient_material";
   "draw"; "game_over"].

End Transport.

Arguments MatchFound {V}.

(** * Properties *)

Lemma JsMap_get_set {A} (m : JsMap.t A) (k k' : string) (v : A) :
  JsMap.get (JsMap.set m k v) k'
  = if (k =? k')%string then Some v else JsMap.get m k'.
Proof.
  induction m as [|[k0 v0] m IH]; simpl.
  - reflexivity.
  - destruct (k0 =? k)%string eqn:E0; simpl.
    + apply String.eqb_eq in E0; subst k0.
      destruct (k =? k')%string; reflexivity.
    + rewrite IH.
      destruct (k =? k')%string eqn:E1; [|reflexivity].
      apply String.eqb_eq in E1; subst k'.
      rewrite E0; reflexivity.
Qed.

Lemma JsMap_get_set_same {A} (m : JsMap.t A) (k : string) (v : A) :
  JsMap.get (JsMap.set m k v) k = Some v.
Proof. rewrite JsMap_get_set, String.eqb_refl; reflexivity. Qed.

Section Projector.

Context {V : Validator}.

Lemma computeTermination_None (c : Chess) :
  computeTermination c = None <-> isGameOver c = false.
Proof.
  unfold computeTermination.
  destruct (isGameOver c); simpl.
  - split; [|discriminate].
    destruct (isCheckmate c), (isStalemate c), (isThreefoldRepetition c),
      (isInsufficientMaterial c), (isDraw c); discriminate.
  - split; reflexivity.
Qed.

Lemma computeTermination_terminal (c : Chess) :
  isGameOver c = true -> exists t, computeTermination c = Some t.
Proof.
  intros H. destruct (computeTermination c) as [t|] eqn:E.
  - exists t; reflexivity.
  - apply computeTermination_None in E. congruence.
Qed.

(** What [computeTermination] answers for a position that is over: the
    opponent of the side to move by checkmate, otherwise no winner and
    the first reason that applies. *)
Lemma computeTermination_over (c : Chess) :
  isGameOver c = true ->
  computeTermination c
  = Some (if isCheckmate c
          then {| t_winner := Some (opponent (chess_turn c));
                  t_reason := "checkmate" |}
          else {| t_winner := None;
                  t_reason :=
                    if isStalemate c then "stalemate"
                    else if isThreefoldRepetition c then "threefold"
                    else if isInsufficientMaterial c
                         then "insufficient_material"
                    else if isDraw c then "draw"
                    else "game_over" |}).
Proof.
  intros Hover. unfold computeTermination. rewrite Hover. cbn [negb].
  destruct (isCheckmate c); [destruct (chess_turn c); reflexivity|].
  destruct (isStalemate c); [reflexivity|].
  destruct (isThreefoldRepetition c); [reflexivity|].
  destruct (isInsufficientMaterial c); [reflexivity|].
  destruct (isDraw c); reflexivity.
Qed.

(** C10 -- the public state recomputes termination from the position held
    and lets it override the stored status.  For a session whose position
    is over, [getGameState] reports [finished] whatever the stored status
    says: by checkmate the winner is the opponent of the side to move and
    the reason is [checkmate]; otherwise there is no winner and the
    reason is the first that applies of [stalemate], [threefold],
    [insufficient_material], [draw], and [game_over] when none does.  For
    a position that is not over it reports the stored state, winner and
    reason unchanged.  A successful redo stores [waiting] with no winner
    and no reason, and the state it returns is still [finished], with the
    winner and reason of the position, when the position it rebuilt is
    over. *)
Theorem C10_projector_overrides_status :
  forall (st : GameStore) (gameId : string) (game : Game) (now : Z),
    JsMap.get st gameId = Some game ->
    exists ps,
      getGameState st gameId now = Some ps
      /\ ps_isCheck (ps_status ps) = isCheck (chess game)
      /\ (isGameOver (chess game) = true ->
          ps_state (ps_status ps) = Finished
          /\ (isCheckmate (chess game) = true ->
              ps_winner (ps_status ps)
              = Some (opponent (chess_turn (chess game)))
              /\ ps_reason (ps_status ps) = Some "checkmate")
          /\ (isCheckmate (chess game) = false ->
              ps_winner (ps_status ps) = None
              /\ ps_reason (ps_status ps)
                 = Some (if isStalemate (chess game) then "stalemate"
                         else if isThreefoldRepetition (chess game)
                              then "threefold"
                         else if isInsufficientMaterial (chess game)
                              then "insufficient_material"
                         else if isDraw (chess game) then "draw"
                         else "game_over")))
      /\ (isGameOver (chess game) = false ->
          ps_status ps
          = {| ps_state := state (status game);
               ps_winner := winner (status game);
               ps_reason := reason (status game);
               ps_isCheck := isCheck (chess game) |})
      /\ (forall playerId iso ps' game',
            redoOn game playerId iso now = Some (inr ps', game') ->
            status game' = reset_status
            /\ ps' = publicState game' now
            /\ (isGameOver (chess game') = true ->
                ps_state (ps_status ps') = Finished
                /\ (isCheckmate (chess game') = true ->
                    ps_winner (ps_status ps')
                    = Some (opponent (chess_turn (chess game')))
                    /\ ps_reason (ps_status ps') = Some "checkmate"))).
Proof.
  intros st gameId game now Hget.
  assert (Hterm : forall g : Game,
    isGameOver (chess g) = true ->
    ps_state (ps_status (publicState g now)) = Finished
    /\ (isCheckmate (chess g) = true ->
        ps_winner (ps_status (publicState g now))
        = Some (opponent (chess_turn (chess g)))
        /\ ps_reason (ps_status (publicState g now)) = Some "checkmate")
    /\ (isCheckmate (chess g) = false ->
        ps_winner (ps_status (publicState g now)) = None
        /\ ps_reason (ps_status (publicState g now))
           = Some (if isStalemate (chess g) then "stalemate"
                   else if isThreefoldRepetition (chess g) then "threefold"
                   else if isInsufficientMaterial (chess g)
                        then "insufficient_material"
                   else if isDraw (chess g) then "draw"
                   else "game_over"))).
  { intros g Hover. unfold publicState. cbn [ps_status].
    rewrite (computeTermination_over _ Hover).
    destruct (isCheckmate (chess g)); cbn [ps_state ps_winner ps_reason
                                           t_winner t_reason];
      (split; [reflexivity|]); split; intros H;
      first [discriminate H | split; reflexivity]. }
  exists (publicState game now).
  unfold getGameState. rewrite Hget.
  split; [reflexivity|]. split; [|split; [|split]].
  - unfold publicState. cbn [ps_status].
    destruct (computeTermination (chess game)); reflexivity.
  - apply Hterm.
  - intros Hnot. apply computeTermination_None in Hnot.
    unfold publicState; simpl. rewrite Hnot. reflexivity.
  - intros playerId iso ps' game' Hredo.
    unfold redoOn in Hredo.
    destruct (running (clocks game)); [discriminate|].
    destruct (negb (isPlayer game playerId)); [discriminate|].
    destruct (moveCursor game >=? _); [discriminate|].
    destruct (replayAt game (moveCursor game + 1) iso) as [g1|] eqn:Er;
      [|discriminate].
    injection Hredo as <- <-.
    unfold replayAt in Er.
    destruct (rebuildChess _) as [g2|]; [|discriminate].
    injection Er as <-.
    split; [reflexivity|]. split; [reflexivity|].
    intros Hover. destruct (Hterm _ Hover) as [Hfin [Hmate _]].
    split; [exact Hfin|exact Hmate].
Qed.

End Projector.

Lemma C10_projector_overrides_status_witness :
  state (status Toy.game5_mate_redone) = Waiting
  /\ exists ps,
       getGameState Toy.store5_mate_redone "g1" 8000 = Some ps
       /\ ps_status ps
          = {| ps_state := Finished; ps_winner := Some W;
               ps_reason := Some "checkmate"; ps_isCheck := true |}.
Proof.
  split; [reflexivity|].
  destruct (C10_projector_overrides_status Toy.store5_mate_redone "g1"
              Toy.game5_mate_redone 8000 eq_refl)
    as [ps [Hps [Hcheck [Hover _]]]].
  destruct (Hover eq_refl) as [Hstate [Hmate _]].
  destruct (Hmate eq_refl) as [Hwin Hreason].
  exists ps. split; [exact Hps|].
  destruct ps as [a b c d e f [s w r k] g h i j l].
  cbn [ps_status ps_state ps_winner ps_reason ps_isCheck] in *.
  rewrite Hstate, Hwin, Hreason, Hcheck. reflexivity.
Defined.

Lemma JsMap_set_unchanged {A} (m : JsMap.t A) (k : string) (v : A) :
  JsMap.get m k = Some v -> JsMap.set m k v = m.
Proof.
  induction m as [|[k0 v0] m IH]; simpl; [discriminate|].
  destruct (k0 =? k)%string eqn:E.
  - intros [= ->]. apply String.eqb_eq in E. subst; reflexivity.
  - intros H. rewrite (IH H). reflexivity.
Qed.

Section MovePreconditions.

Context {V : Validator}.

Lemma assertPlayerCanMove_seat (game : Game) (playerId : CallerId) :
  truthy_id playerId = true ->
  state (status game) = Active ->
  assertPlayerCanMove game playerId
  = match seat_of game playerId with
    | None => inl {| error := "Only players may move"; statusCode := 403 |}
    | Some c =>
        if color_eqb (chess_turn (chess game)) c then inr c
        else inl {| error := "Not your turn"; statusCode := 409 |}
    end.
Proof.
  intros Hp Hs. unfold assertPlayerCanMove, seat_of.
  rewrite Hp, Hs. simpl.
  destruct (strict_eq playerId (pl_id (players_w (players game)))).
  - destruct (color_eqb _ W); reflexivity.
  - destruct (strict_eq playerId (pl_id (players_b (players game)))).
    + destruct (color_eqb _ B); reflexivity.
    + reflexivity.
Qed.

(** C5 -- [makeMove] checks its preconditions in this order: the session
    exists (404), [playerId] is provided (400), the state is [active]
    (409), the caller occupies a color slot (403), that color is the color
    to move (409).  A failed check answers with its own error, the five
    errors are pairwise different, and the registry is left as it was.
    When all five hold the call goes on to the clock commit and the rules
    library. *)
Theorem C5_makeMove_precondition_order :
  forall (st : GameStore) (gameId : string) (playerId : CallerId)
         (from_ to_ : string) (promotion_ : option string)
         (at_ : Z) (iso : string),
    let call := makeMove st gameId playerId from_ to_ promotion_ at_ iso in
    (JsMap.get st gameId = None ->
     call = (inl {| error := "Game not found"; statusCode := 404 |}, st))
    /\ (forall game,
         JsMap.get st gameId = Some game ->
         (truthy_id playerId = false ->
          call = (inl {| error := "playerId is required";
                         statusCode := 400 |}, st))
         /\ (truthy_id playerId = true ->
             state (status game) <> Active ->
             call = (inl {| error := "Game is not active (state="
                                     ++ state_name (state (status game))
                                     ++ ")";
                            statusCode := 409 |}, st))
         /\ (truthy_id playerId = true ->
             state (status game) = Active ->
             seat_of game playerId = None ->
             call = (inl {| error := "Only players may move";
                            statusCode := 403 |}, st))
         /\ (forall color,
               truthy_id playerId = true ->
               state (status game) = Active ->
               seat_of game playerId = Some color ->
               chess_turn (chess game) <> color ->
               call = (inl {| error := "Not your turn";
                              statusCode := 409 |}, st))
         /\ (forall color,
               truthy_id playerId = true ->
               state (status game) = Active ->
               seat_of game playerId = Some color ->
               chess_turn (chess game) = color ->
               call = commit_and_delegate st gameId game color
                        from_ to_ promotion_ at_ iso))
    /\ (forall s, NoDup (precondition_errors s)).
Proof.
  intros st gameId playerId from_ to_ promotion_ at_ iso call.
  subst call. unfold makeMove.
  split; [|split].
  - intros ->. reflexivity.
  - intros game Hget. rewrite Hget. unfold makeMoveOn.
    split; [|split; [|split; [|split]]].
    + intros Hp. unfold assertPlayerCanMove. rewrite Hp. simpl.
      rewrite (JsMap_set_unchanged _ _ _ Hget). reflexivity.
    + intros Hp Hs. unfold assertPlayerCanMove. rewrite Hp. simpl.
      destruct (state (status game)); try congruence; simpl;
        rewrite (JsMap_set_unchanged _ _ _ Hget); reflexivity.
    + intros Hp Hs Hseat.
      rewrite (assertPlayerCanMove_seat _ _ Hp Hs), Hseat.
      rewrite (JsMap_set_unchanged _ _ _ Hget). reflexivity.
    + intros color Hp Hs Hseat Hturn.
      rewrite (assertPlayerCanMove_seat _ _ Hp Hs), Hseat.
      destruct (color_eqb (chess_turn (chess game)) color) eqn:E.
      * destruct (chess_turn (chess game)), color;
          simpl in E; congruence.
      * rewrite (JsMap_set_unchanged _ _ _ Hget). reflexivity.
    + intros color Hp Hs Hseat Hturn.
      rewrite (assertPlayerCanMove_seat _ _ Hp Hs), Hseat.
      subst color.
      replace (color_eqb (chess_turn (chess game)) (chess_turn (chess game)))
        with true by (destruct (chess_turn (chess game)); reflexivity).
      unfold commit_and_delegate.
      destruct (commitClockBeforeMove game at_) as [game1 timedOut].
      destruct timedOut; [reflexivity|].
      destruct (chess_move _ _) as [[c' mv]|]; reflexivity.
  - intros s.
    destruct s; unfold precondition_errors; simpl;
      repeat (constructor;
              [simpl; intros H;
               repeat (destruct H as [H|H]; [discriminate H|]); exact H|]);
      constructor.
Qed.

End MovePreconditions.

Lemma C5_makeMove_precondition_order_witness :
  makeMove Toy.store0 "g1" (IdStr "pb") "e7" "e5" None 10 Toy.iso0
  = (inl {| error := "Not your turn"; statusCode := 409 |}, Toy.store0).
Proof.
  destruct (C5_makeMove_precondition_order
              Toy.store0 "g1" (IdStr "pb") "e7" "e5" None 10 Toy.iso0)
    as [_ [H _]].
  destruct (H Toy.game0 eq_refl) as [_ [_ [_ [Hturn _]]]].
  apply (Hturn B); try reflexivity. discriminate.
Defined.

Section Snapshot.

Context {V : Validator}.

(** C9 (amended) -- the snapshot of a session holds its identity, both
    timestamps, the initial position token, the full move list, the
    cursor, the spectator list, the status and the clock totals with
    [running] forced to [false] and [lastTickAt] cleared; each player slot
    is written with its id, its name and its current [present] flag. *)
Theorem C9_snapshot_contents :
  forall game : Game,
    let sg := serializeGame game in
    s_id sg = id game
    /\ s_createdAt sg = createdAt game
    /\ s_updatedAt sg = updatedAt game
    /\ s_initialFen sg = initialFen game
    /\ s_moves sg = moves game
    /\ s_moveCursor sg = Some (moveCursor game)
    /\ s_spectators sg = JsMap.entries (spectators game)
    /\ s_status sg = StatusObject (status game)
    /\ initialMs (s_clocks sg) = initialMs (clocks game)
    /\ incrementMs (s_clocks sg) = incrementMs (clocks game)
    /\ wRemainingMs (s_clocks sg) = wRemainingMs (clocks game)
    /\ bRemainingMs (s_clocks sg) = bRemainingMs (clocks game)
    /\ activeColor (s_clocks sg) = activeColor (clocks game)
    /\ running (s_clocks sg) = false
    /\ lastTickAt (s_clocks sg) = None
    /\ (forall c,
          let p := slot (players game) c in
          match c with W => s_players_w sg | B => s_players_b sg end
          = {| sp_id := pl_id p; sp_name := pl_name p;
               sp_present := Some (pl_present p) |}).
Proof.
  intros game sg. subst sg. unfold serializeGame; simpl.
  repeat (split; [reflexivity|]).
  intros [|]; reflexivity.
Qed.

End Snapshot.

(** C9, as stated, fails: the serialized slot of a seated player carries
    the [present] flag. *)
Lemma C9_present_flag_is_serialized :
  sp_present (s_players_w (serializeGame Toy.game0)) = Some true
  /\ ~ (forall game : Game (V := Toy.validator),
          sp_present (s_players_w (serializeGame game)) = None
          /\ sp_present (s_players_b (serializeGame game)) = None).
Proof.
  split; [reflexivity|].
  intros H. destruct (H Toy.game0) as [Hw _]. discriminate Hw.
Qed.

Lemma C9_snapshot_contents_witness :
  running (s_clocks (serializeGame Toy.game0)) = false
  /\ running (clocks Toy.game0) = true.
Proof.
  split; [|reflexivity].
  apply (C9_snapshot_contents Toy.game0).
Defined.

Section UndoRedo.

Context {V : Validator}.

Lemma replay_firstn (ms : list MoveRecord) :
  forall (n : nat) (c : Chess),
    (n <= List.length ms)%nat ->
    replay c ms n = Some (fold_left replay_move (firstn n ms) c).
Proof.
  induction ms as [|m ms IH]; intros [|n] c Hn; simpl in *;
    try reflexivity; try lia.
  apply IH. lia.
Qed.

Lemma replayAt_spec (game : Game) (cursor : Z) (iso : string) :
  cursor <= Z.of_nat (List.length (moves game)) ->
  replayAt game cursor iso = Some (replayed_session game cursor iso).
Proof.
  intros Hc. unfold replayAt, rebuildChess, replayed_session. simpl.
  rewrite replay_firstn by lia. reflexivity.
Qed.

Lemma isPlayer_spec (game : Game) (playerId : CallerId) :
  isPlayer game playerId = true
  <-> (exists s, playerId = IdStr s
                 /\ (pl_id (players_w (players game)) = Some s
                     \/ pl_id (players_b (players game)) = Some s))
      \/ (playerId = IdNull
          /\ (pl_id (players_w (players game)) = None
              \/ pl_id (players_b (players game)) = None)).
Proof.
  unfold isPlayer. rewrite orb_true_iff.
  assert (Hs : forall slotId,
    strict_eq playerId slotId = true
    <-> (exists s, playerId = IdStr s /\ slotId = Some s)
        \/ (playerId = IdNull /\ slotId = None)).
  { intros slotId. split.
    - intros H. destruct playerId as [| |a], slotId as [b|];
        cbn [strict_eq] in H; try discriminate.
      + right. split; reflexivity.
      + apply String.eqb_eq in H. subst. left. eauto.
    - intros [[s [-> ->]]|[-> ->]]; cbn [strict_eq];
        [apply String.eqb_refl|reflexivity]. }
  rewrite !Hs. split.
  - intros [[[s [-> H]]|[-> H]]|[[s [-> H]]|[-> H]]]; eauto 6.
  - intros [[s [-> [H|H]]]|[-> [H|H]]]; eauto 7.
Qed.

(** Undo and redo, as the code tests them: with the clock running both
    answer Conflict (409) and change nothing; otherwise a caller whose
    [playerId] is strictly equal to neither slot id gets Forbidden (403);
    otherwise undo needs [moveCursor > 0] and redo
    [moveCursor < len(moves)], Conflict (409) if not.  On success the
    cursor moves by exactly one, the position is the one reached from the
    initial position token by the first [cursor] moves of the list (a
    move the rules library refuses being passed over), the status is
    [waiting] with winner and reason [null], and list, token, clocks and
    seats are untouched.  The strict test is passed by a string that is
    the id of a slot, and by [null] when a slot is vacant. *)
Theorem undo_redo_contract :
  forall (st : GameStore) (gameId : string) (game : Game)
         (playerId : CallerId) (iso : string) (now : Z),
    JsMap.get st gameId = Some game ->
    let len := Z.of_nat (List.length (moves game)) in
    (running (clocks game) = true ->
     undo st gameId playerId iso now
     = Some (inl {| error := "Undo is disabled while clocks are running";
                    statusCode := 409 |}, st)
     /\ redo st gameId playerId iso now
        = Some (inl {| error := "Redo is disabled while clocks are running";
                       statusCode := 409 |}, st))
    /\ (running (clocks game) = false ->
        isPlayer game playerId = false ->
        undo st gameId playerId iso now
        = Some (inl {| error := "Only players may undo";
                       statusCode := 403 |}, st)
        /\ redo st gameId playerId iso now
           = Some (inl {| error := "Only players may redo";
                          statusCode := 403 |}, st))
    /\ (running (clocks game) = false ->
        isPlayer game playerId = true ->
        (moveCursor game <= 0 ->
         undo st gameId playerId iso now
         = Some (inl {| error := "Nothing to undo"; statusCode := 409 |}, st))
        /\ (len <= moveCursor game ->
            redo st gameId playerId iso now
            = Some (inl {| error := "Nothing to redo";
                           statusCode := 409 |}, st))
        /\ (0 < moveCursor game <= len ->
            let game' := replayed_session game (moveCursor game - 1) iso in
            undo st gameId playerId iso now
            = Some (inr (publicState game' now), JsMap.set st gameId game'))
        /\ (moveCursor game < len ->
            let game' := replayed_session game (moveCursor game + 1) iso in
            redo st gameId playerId iso now
            = Some (inr (publicState game' now), JsMap.set st gameId game')))
    /\ (forall cursor,
          let game' := replayed_session game cursor iso in
          moveCursor game' = cursor
          /\ chess game'
             = fold_left
                 (fun c m =>
                    match chess_move c {| from := from m; to := to m;
                                          promotion := promotion m |} with
                    | Some (c', _) => c'
                    | None => c
                    end)
                 (firstn (Z.to_nat cursor) (moves game))
                 (new_Chess (Some (initialFen game)))
          /\ moves game' = moves game
          /\ initialFen game' = initialFen game
          /\ status game'
             = {| state := Waiting; winner := None; reason := None |}
          /\ clocks game' = clocks game
          /\ players game' = players game
          /\ updatedAt game' = iso)
    /\ (isPlayer game playerId = true
        <-> (exists s, playerId = IdStr s
                       /\ (pl_id (players_w (players game)) = Some s
                           \/ pl_id (players_b (players game)) = Some s))
            \/ (playerId = IdNull
                /\ (pl_id (players_w (players game)) = None
                    \/ pl_id (players_b (players game)) = None))).
Proof.
  intros st gameId game playerId iso now Hget len.
  unfold undo, redo. rewrite Hget. unfold undoOn, redoOn.
  pose proof (JsMap_set_unchanged _ _ _ Hget) as Hsame.
  split; [|split; [|split; [|split]]].
  - intros ->. rewrite Hsame. split; reflexivity.
  - intros -> ->. simpl. rewrite Hsame. split; reflexivity.
  - intros -> ->. simpl. split; [|split; [|split]].
    + intros Hc. apply Z.leb_le in Hc. rewrite Hc, Hsame. reflexivity.
    + intros Hc. apply Z.geb_le in Hc. fold len. rewrite Hc, Hsame.
      reflexivity.
    + intros [Hpos Hle].
      destruct (moveCursor game <=? 0) eqn:E;
        [apply Z.leb_le in E; lia|].
      rewrite replayAt_spec by (fold len; lia). reflexivity.
    + intros Hlt. fold len.
      destruct (moveCursor game >=? len) eqn:E;
        [apply Z.geb_le in E; lia|].
      rewrite replayAt_spec by (fold len; lia). reflexivity.
  - intros cursor. unfold replayed_session. simpl.
    repeat split; reflexivity.
  - apply isPlayer_spec.
Qed.

End UndoRedo.

Lemma undo_redo_contract_witness :
  exists ps st' game',
    undo Toy.store0_timeout "g1" (IdStr "pw") Toy.iso1 6000
    = Some (inr ps, st')
    /\ JsMap.get st' "g1" = Some game'
    /\ moveCursor game' = 0
    /\ chess_fen (chess game') = "startpos"
    /\ chess_fen (chess Toy.game0_timeout) = "startpos/e2-e4"
    /\ status game' = {| state := Waiting; winner := None; reason := None |}.
Proof.
  destruct (undo_redo_contract Toy.store0_timeout "g1" Toy.game0_timeout
              (IdStr "pw") Toy.iso1 6000 eq_refl)
    as [_ [_ [H [Hfields _]]]].
  destruct (H eq_refl eq_refl) as [_ [_ [Hundo _]]].
  destruct (Hfields 0) as [Hcur [Hchess [_ [_ [Hstatus _]]]]].
  cbv zeta in Hcur, Hchess, Hstatus.
  exists (publicState (replayed_session Toy.game0_timeout 0 Toy.iso1) 6000).
  exists (JsMap.set Toy.store0_timeout "g1"
            (replayed_session Toy.game0_timeout 0 Toy.iso1)).
  exists (replayed_session Toy.game0_timeout 0 Toy.iso1).
  split; [apply Hundo; simpl; lia|].
  split; [apply JsMap_get_set_same|].
  split; [exact Hcur|].
  split; [rewrite Hchess; reflexivity|].
  split; [reflexivity|exact Hstatus].
Defined.

(** C6 -- evaluated where it fails.  White is seated, black has left
    after one move, the clock is stopped.  A caller who sends no
    [playerId], or one that is the id of no slot, is refused with 403.  A
    caller who sends [null] occupies no slot either, but [null] is
    strictly equal to the [null] id of the vacant black slot: the undo is
    carried out (cursor 0, start position, 200 from the controller), and
    so is the redo that follows. *)
Theorem C6_null_caller_may_undo :
  pl_id (players_w (players Toy.game5_left)) = Some "pw"
  /\ pl_id (players_b (players Toy.game5_left)) = None
  /\ running (clocks Toy.game5_left) = false
  /\ moveCursor Toy.game5_left = 1
  /\ JsMap.get Toy.store5_left "g1" = Some Toy.game5_left
  /\ undo Toy.store5_left "g1" IdUndefined Toy.iso1 7000
     = Some (inl {| error := "Only players may undo"; statusCode := 403 |},
             Toy.store5_left)
  /\ undo Toy.store5_left "g1" (IdStr "stranger") Toy.iso1 7000
     = Some (inl {| error := "Only players may undo"; statusCode := 403 |},
             Toy.store5_left)
  /\ exists ps st' game',
       undo Toy.store5_left "g1" IdNull Toy.iso1 7000 = Some (inr ps, st')
       /\ option_map fst
            (ctl_undo Toy.store5_left "g1" IdNull Toy.iso1 7000)
          = Some 200
       /\ JsMap.get st' "g1" = Some game'
       /\ moveCursor game' = 0
       /\ ps_fen ps = "startpos"
       /\ exists ps2 st2,
            redo st' "g1" IdNull Toy.iso1 8000 = Some (inr ps2, st2)
            /\ ps_moveCursor ps2 = 1
            /\ ps_fen ps2 = "startpos/e2-e4".
Proof.
  repeat (split; [reflexivity|]).
  eexists. eexists. eexists.
  split; [reflexivity|].
  split; [reflexivity|].
  split; [reflexivity|].
  split; [reflexivity|].
  split; [reflexivity|].
  eexists. eexists.
  split; [reflexivity|].
  split; reflexivity.
Qed.

Section ClockCommit.

Context {V : Validator}.

Lemma tickAll_get (st : GameStore) (atMs : Z) (iso : string) (k : string) :
  JsMap.get (snd (tickAll st atMs iso)) k
  = option_map (fun g => fst (tickGame g atMs iso)) (JsMap.get st k).
Proof.
  induction st as [|[k0 g0] st IH]; simpl; [reflexivity|].
  destruct (tickGame g0 atMs iso) as [g1 pushed] eqn:E1.
  destruct (tickAll st atMs iso) as [changed rest1] eqn:E2.
  simpl in *. destruct (k0 =? k)%string.
  - simpl. rewrite E1. reflexivity.
  - exact IH.
Qed.

Lemma tickClocks_get (st : GameStore) (atMs : Z) (iso : string) (k : string) :
  JsMap.get (snd (tickClocks st atMs iso)) k
  = option_map (fun g => fst (tickGame g atMs iso)) (JsMap.get st k).
Proof.
  unfold tickClocks. rewrite <- tickAll_get.
  destruct (tickAll st atMs iso); reflexivity.
Qed.

Lemma commit_timed_out (game : Game) (c : Color) (atMs : Z) :
  active_expired game c atMs ->
  let game1 := fst (commitClockBeforeMove game atMs) in
  snd (commitClockBeforeMove game atMs) = true
  /\ finalized_for game game1
  /\ (c = W \/ 0 < snap_wRemainingMs (effectiveClocksSnapshot game atMs) ->
      winner (status game1) = Some (opponent c)).
Proof.
  intros [Hact Hexp]. unfold commitClockBeforeMove.
  destruct (snap_wRemainingMs (effectiveClocksSnapshot game atMs) <=? 0)
    eqn:Ew.
  - simpl. split; [reflexivity|]. split.
    + repeat split; reflexivity.
    + intros [->|Hpos]; [reflexivity|]. apply Z.leb_le in Ew. lia.
  - destruct c; simpl in Hexp.
    + apply Z.leb_gt in Ew. lia.
    + apply Z.leb_le in Hexp. rewrite Hexp. simpl.
      split; [reflexivity|]. split.
      * repeat split; reflexivity.
      * intros _. reflexivity.
Qed.

(** C1 (amended) -- at the commit made before a move and at the sweep
    (which looks at running sessions in state [active]), a session whose
    active color has no effective time left is finalized: state
    [finished], reason [timeout], clock stopped ([running=false],
    [activeColor=null], [lastTickAt=null]).  The sweep names the opponent
    of the active color as winner; so does the move commit when the active
    color is white or white still has time.  A move attempt in that
    situation returns the finalized state and nothing is applied: position,
    move list and cursor are as before.  The commit made when a seated
    slot becomes vacant writes the clamped remaining times and stops the
    clock in state [waiting]; it does not finalize. *)
Theorem C1_timeout_at_move_commit_and_sweep :
  forall (st : GameStore) (gameId : string) (game : Game) (c : Color)
         (atMs : Z) (iso : string),
    JsMap.get st gameId = Some game ->
    active_expired game c atMs ->
    (let game1 := fst (commitClockBeforeMove game atMs) in
     snd (commitClockBeforeMove game atMs) = true
     /\ finalized_for game game1
     /\ (c = W \/ 0 < snap_wRemainingMs (effectiveClocksSnapshot game atMs) ->
         winner (status game1) = Some (opponent c)))
    /\ (forall playerId from_ to_ promotion_ color,
          assertPlayerCanMove game playerId = inr color ->
          let game2 :=
            with_updatedAt (fst (commitClockBeforeMove game atMs)) iso in
          makeMove st gameId playerId from_ to_ promotion_ atMs iso
          = (inr (publicState game2 atMs), JsMap.set st gameId game2)
          /\ finalized_for game game2
          /\ ps_state (ps_status (publicState game2 atMs)) = Finished)
    /\ (running (clocks game) = true ->
        state (status game) = Active ->
        let game1 := fst (tickGame game atMs iso) in
        JsMap.get (snd (tickClocks st atMs iso)) gameId = Some game1
        /\ finalized_for game game1
        /\ winner (status game1) = Some (opponent c))
    /\ (running (clocks game) = true ->
        state (status game) <> Finished ->
        both_seated game = false ->
        let game1 := maybeStartGame game atMs in
        state (status game1) = Waiting
        /\ clock_stopped game1
        /\ wRemainingMs (clocks game1)
           = snap_wRemainingMs (effectiveClocksSnapshot game atMs)
        /\ bRemainingMs (clocks game1)
           = snap_bRemainingMs (effectiveClocksSnapshot game atMs)).
Proof.
  intros st gameId game c atMs iso Hget Hexp.
  pose proof (commit_timed_out game c atMs Hexp) as [Hflag [Hfin Hwin]].
  split; [|split; [|split]].
  - simpl. auto.
  - intros playerId from_ to_ promotion_ color Hperm game2.
    unfold makeMove. rewrite Hget. unfold makeMoveOn. rewrite Hperm.
    destruct (commitClockBeforeMove game atMs) as [game1 timedOut] eqn:Ec.
    simpl in Hflag, Hfin. subst timedOut. subst game2. simpl.
    split; [reflexivity|]. split.
    + destruct Hfin as [[Hs [Hr [Hc1 [Hc2 Hc3]]]] [H1 [H2 H3]]].
      unfold finalized_for, timed_out, clock_stopped. simpl. tauto.
    + destruct Hfin as [[Hs _] _]. unfold publicState. simpl.
      destruct (computeTermination (chess game1)); [reflexivity|].
      simpl. exact Hs.
  - intros Hrun Hstate game1.
    rewrite tickClocks_get, Hget. simpl.
    split; [reflexivity|]. subst game1.
    destruct Hexp as [Hact Hle]. unfold tickGame.
    rewrite Hrun, Hstate, Hact. simpl.
    destruct c; simpl in Hle; apply Z.leb_le in Hle; rewrite Hle; simpl.
    + split; [repeat split; reflexivity|reflexivity].
    + rewrite andb_false_r. simpl.
      split; [repeat split; reflexivity|reflexivity].
  - intros Hrun Hstate Hseat game1. subst game1.
    unfold maybeStartGame, both_seated in *.
    destruct (state (status game)) eqn:Es; try congruence;
      simpl; rewrite Hseat; simpl; rewrite Hrun; simpl;
      repeat split; reflexivity.
Qed.

End ClockCommit.

(** C1, as stated, fails at the commit made when a seated slot becomes
    vacant: white's second is used up when black leaves at 5000 ms, the
    commit writes 0 for white and the session is [waiting], not finished,
    with no winner. *)
Lemma C1_pause_commit_does_not_finalize :
  active_expired Toy.game0 W 5000
  /\ exists game1,
       Toy.the_game (snd (leaveGame Toy.store0 "g1" (IdStr "pb") Toy.iso1 5000))
       = Some game1
       /\ wRemainingMs (clocks game1) = 0
       /\ running (clocks game1) = false
       /\ state (status game1) = Waiting
       /\ winner (status game1) = None
       /\ reason (status game1) = None.
Proof.
  split.
  - split; [reflexivity|]. vm_compute. intros E; discriminate E.
  - eexists. split; [vm_compute; reflexivity|].
    repeat split; reflexivity.
Qed.

Lemma C1_timeout_at_move_commit_and_sweep_witness :
  exists game2,
    makeMove Toy.store0 "g1" (IdStr "pw") "e2" "e4" None 5000 Toy.iso1
    = (inr (publicState game2 5000), JsMap.set Toy.store0 "g1" game2)
    /\ winner (status game2) = Some B
    /\ moves game2 = [].
Proof.
  assert (Hexp : active_expired Toy.game0 W 5000).
  { split; [reflexivity|]. vm_compute. intros E; discriminate E. }
  destruct (C1_timeout_at_move_commit_and_sweep
              Toy.store0 "g1" Toy.game0 W 5000 Toy.iso1 eq_refl Hexp)
    as [_ [Hmove _]].
  destruct (Hmove (IdStr "pw") "e2" "e4" None W eq_refl) as [Hcall _].
  eexists. split; [exact Hcall|]. split; reflexivity.
Defined.

Section ClockAccounting.

Context {V : Validator}.

Lemma commit_not_timed_out (game : Game) (atMs : Z) :
  snd (commitClockBeforeMove game atMs) = false ->
  fst (commitClockBeforeMove game atMs)
  = with_clocks game
      (with_remaining (clocks game)
         (snap_wRemainingMs (effectiveClocksSnapshot game atMs))
         (snap_bRemainingMs (effectiveClocksSnapshot game atMs))).
Proof.
  unfold commitClockBeforeMove.
  destruct (snap_wRemainingMs _ <=? 0); [discriminate|].
  destruct (snap_bRemainingMs _ <=? 0); [discriminate|].
  reflexivity.
Qed.

Lemma applyAccepted_remaining (game : Game) (color : Color) (c' : Chess)
    (mv : Move) (at_ : Z) (iso : string) :
  let game2 := applyAccepted game color c' mv at_ iso in
  wRemainingMs (clocks game2)
  = wRemainingMs (clocks game)
    + match color with W => incrementMs (clocks game) | B => 0 end
  /\ bRemainingMs (clocks game2)
     = bRemainingMs (clocks game)
       + match color with B => incrementMs (clocks game) | W => 0 end.
Proof.
  unfold applyAccepted. cbv zeta.
  destruct (moveCursor _ <? _);
    cbn [with_chess with_moves with_moveCursor with_clocks with_status
         with_state with_updatedAt clocks chess];
    destruct (computeTermination c');
    cbn [with_chess with_moves with_moveCursor with_clocks with_status
         with_state with_updatedAt clocks chess with_remaining with_run
         stop_clock wRemainingMs bRemainingMs incrementMs];
    destruct color; lia.
Qed.

Lemma applyAccepted_anchor (game : Game) (color : Color) (c' : Chess)
    (mv : Move) (at_ : Z) (iso : string) :
  computeTermination c' = None ->
  let game2 := applyAccepted game color c' mv at_ iso in
  running (clocks game2) = true
  /\ lastTickAt (clocks game2) = Some at_
  /\ activeColor (clocks game2) = Some (chess_turn c').
Proof.
  intros Hn. unfold applyAccepted. cbv zeta.
  destruct (moveCursor _ <? _);
    cbn [with_chess with_moves with_moveCursor with_clocks with_status
         with_state with_updatedAt clocks chess];
    rewrite Hn; repeat split; reflexivity.
Qed.

(** An accepted move credits the increment to the mover once, on top of
    the committed remaining time, and anchors the clock at the time of the
    move. *)
Lemma accepted_move_clock (game : Game) (color : Color) (c' : Chess)
    (mv : Move) (at_ : Z) (iso : string) :
  let game1 := fst (commitClockBeforeMove game at_) in
  let game2 := applyAccepted game1 color c' mv at_ iso in
  snd (commitClockBeforeMove game at_) = false ->
  wRemainingMs (clocks game2)
  = snap_wRemainingMs (effectiveClocksSnapshot game at_)
    + match color with W => incrementMs (clocks game) | B => 0 end
  /\ bRemainingMs (clocks game2)
     = snap_bRemainingMs (effectiveClocksSnapshot game at_)
       + match color with B => incrementMs (clocks game) | W => 0 end
  /\ (computeTermination c' = None ->
      running (clocks game2) = true
      /\ lastTickAt (clocks game2) = Some at_
      /\ activeColor (clocks game2) = Some (chess_turn c')).
Proof.
  intros game1 game2 Hcommit. subst game1 game2.
  rewrite (commit_not_timed_out _ _ Hcommit).
  pose proof (applyAccepted_remaining
                (with_clocks game
                   (with_remaining (clocks game)
                      (snap_wRemainingMs (effectiveClocksSnapshot game at_))
                      (snap_bRemainingMs (effectiveClocksSnapshot game at_))))
                color c' mv at_ iso) as [Hw Hb].
  split; [exact Hw|]. split; [exact Hb|].
  intros Hn. apply applyAccepted_anchor. exact Hn.
Qed.

(** A move the rules library rejects leaves the committed remaining times
    in the session and the old anchor [lastTickAt] with them. *)
Lemma rejected_move_keeps_anchor (game : Game) (playerId : CallerId)
    (from_ to_ : string) (promotion_ : option string) (at_ : Z)
    (iso : string) (color : Color) :
  assertPlayerCanMove game playerId = inr color ->
  snd (commitClockBeforeMove game at_) = false ->
  chess_move (chess game)
    {| from := from_; to := to_; promotion := safePromotion promotion_ |}
  = None ->
  exists game1,
    makeMoveOn game playerId from_ to_ promotion_ at_ iso
    = (inl illegal_move, game1)
    /\ wRemainingMs (clocks game1)
       = snap_wRemainingMs (effectiveClocksSnapshot game at_)
    /\ bRemainingMs (clocks game1)
       = snap_bRemainingMs (effectiveClocksSnapshot game at_)
    /\ lastTickAt (clocks game1) = lastTickAt (clocks game)
    /\ running (clocks game1) = running (clocks game)
    /\ activeColor (clocks game1) = activeColor (clocks game).
Proof.
  intros Hperm Hcommit Hrej. unfold makeMoveOn. rewrite Hperm.
  pose proof (commit_not_timed_out _ _ Hcommit) as Hfst.
  destruct (commitClockBeforeMove game at_) as [game1 timedOut].
  simpl in Hcommit, Hfst. subst timedOut game1. simpl.
  rewrite Hrej. eexists. split; [reflexivity|].
  repeat split; reflexivity.
Qed.

End ClockAccounting.

(** C2 -- evaluated where it fails.  White has 300000 ms, the clock has
    run since 0.  At 5000 ms white tries a move the rules library rejects.
    Before the call the projector reports 295000 ms for white at 5000 ms.
    The call commits 295000 and keeps [lastTickAt = 0], so after the
    rejection the projector reports 290000 ms at the same instant: the
    interval before the commit is deducted a second time. *)
Theorem C2_rejected_move_double_counts :
  let call :=
    makeMove Toy.store5 "g1" (IdStr "pw") "e2" "e2" None 5000 Toy.iso1 in
  fst call = inl illegal_move
  /\ snap_wRemainingMs (effectiveClocksSnapshot Toy.game5 5000) = 295000
  /\ exists game1,
       Toy.the_game (snd call) = Some game1
       /\ wRemainingMs (clocks game1) = 295000
       /\ lastTickAt (clocks game1) = Some 0
       /\ running (clocks game1) = true
       /\ snap_wRemainingMs (effectiveClocksSnapshot game1 5000) = 290000.
Proof.
  split; [reflexivity|]. split; [reflexivity|].
  eexists. split; [vm_compute; reflexivity|].
  repeat split; reflexivity.
Qed.

Section StartPause.

Context {V : Validator}.

Lemma snapshot_depends_on_clocks (g1 g2 : Game) (atMs : Z) :
  clocks g1 = clocks g2 ->
  effectiveClocksSnapshot g1 atMs = effectiveClocksSnapshot g2 atMs.
Proof. intros H. unfold effectiveClocksSnapshot. rewrite H. reflexivity. Qed.

Lemma snapshot_nonneg (game : Game) (atMs : Z) :
  0 <= snap_wRemainingMs (effectiveClocksSnapshot game atMs)
  /\ 0 <= snap_bRemainingMs (effectiveClocksSnapshot game atMs).
Proof.
  unfold effectiveClocksSnapshot.
  destruct (running (clocks game)), (activeColor (clocks game)) as [[|]|],
    (lastTickAt (clocks game)); simpl; lia.
Qed.

Lemma snapshot_stopped (game : Game) (atMs : Z) :
  running (clocks game) = false ->
  snap_wRemainingMs (effectiveClocksSnapshot game atMs)
  = Z.max 0 (wRemainingMs (clocks game))
  /\ snap_bRemainingMs (effectiveClocksSnapshot game atMs)
     = Z.max 0 (bRemainingMs (clocks game)).
Proof.
  intros H. unfold effectiveClocksSnapshot. rewrite H. split; reflexivity.
Qed.

(** What [_maybeStartGame] does to a session that is not finished. *)
Lemma maybeStartGame_spec (game : Game) (now : Z) :
  state (status game) <> Finished ->
  let game' := maybeStartGame game now in
  players game' = players game
  /\ (state (status game') = Active <-> both_seated game = true)
  /\ (state (status game') = Waiting <-> both_seated game = false)
  /\ (both_seated game = true -> running (clocks game) = false ->
      running (clocks game') = true
      /\ lastTickAt (clocks game') = Some now
      /\ activeColor (clocks game') = Some (chess_turn (chess game))
      /\ wRemainingMs (clocks game') = wRemainingMs (clocks game)
      /\ bRemainingMs (clocks game') = bRemainingMs (clocks game))
  /\ (both_seated game = false -> running (clocks game) = true ->
      clock_stopped game'
      /\ wRemainingMs (clocks game')
         = snap_wRemainingMs (effectiveClocksSnapshot game now)
      /\ bRemainingMs (clocks game')
         = snap_bRemainingMs (effectiveClocksSnapshot game now)).
Proof.
  intros Hs. unfold maybeStartGame, both_seated.
  destruct (state (status game)) eqn:Es; try congruence; simpl;
    destruct (truthy (pl_id (players_w (players game))));
    destruct (truthy (pl_id (players_b (players game))));
    destruct (running (clocks game)); simpl;
    repeat split; try reflexivity; try discriminate;
      try (intros; discriminate); intros; congruence.
Qed.

Lemma leaveOn_settles (game game' : Game) (playerId : CallerId)
    (iso : string) (now : Z) :
  leaveOn game playerId iso now = Some game' -> settles game game' now.
Proof.
  unfold leaveOn.
  destruct (strict_eq playerId (pl_id (players_w (players game)))).
  { intros [= <-]. eexists. split; [reflexivity|]. repeat split. }
  destruct (strict_eq playerId (pl_id (players_b (players game)))).
  { intros [= <-]. eexists. split; [reflexivity|]. repeat split. }
  destruct playerId as [| |pid]; try discriminate.
  destruct (JsMap.has (spectators game) pid); [|discriminate].
  intros [= <-]. eexists. split; [reflexivity|]. repeat split.
Qed.

Lemma joinOn_cases (game game' : Game) (name : option string)
    (playerId : CallerId)
    (requestedColor : option string) (freshId iso : string) (now : Z)
    (part : Participant) :
  joinOn game name playerId requestedColor freshId iso now = (game', part) ->
  (part_role part = RolePlayer /\ settles game game' now)
  \/ (part_role part = RoleSpectator
      /\ game' = addSpectator game name freshId iso).
Proof.
  unfold joinOn.
  destruct (truthy_id playerId && _).
  { intros [= <- <-]. left. split; [reflexivity|].
    unfold rejoin. eexists. split; [reflexivity|]. repeat split. }
  assert (Hseat : forall c,
             (assignTo game c name freshId iso now,
              {| part_playerId := freshId; part_color := Some c;
                 part_role := RolePlayer |}) = (game', part) ->
             part_role part = RolePlayer /\ settles game game' now).
  { intros c [= <- <-]. split; [reflexivity|].
    unfold assignTo. eexists. split; [reflexivity|]. repeat split. }
  destruct (normalizeColor requestedColor) as [desired|].
  - destruct (slotAvailable game desired); [left; eauto|].
    destruct (slotAvailable game W); [left; eauto|].
    destruct (slotAvailable game B); [left; eauto|].
    intros [= <- <-]. right. split; reflexivity.
  - destruct (slotAvailable game W); [left; eauto|].
    destruct (slotAvailable game B); [left; eauto|].
    intros [= <- <-]. right. split; reflexivity.
Qed.

Lemma settles_spec (game game' : Game) (now : Z) :
  state (status game) <> Finished ->
  settles game game' now ->
  (state (status game') = Active <-> both_seated game' = true)
  /\ (running (clocks game) = false -> state (status game') = Active ->
      running (clocks game') = true
      /\ lastTickAt (clocks game') = Some now
      /\ activeColor (clocks game') = Some (chess_turn (chess game))
      /\ wRemainingMs (clocks game') = wRemainingMs (clocks game)
      /\ bRemainingMs (clocks game') = bRemainingMs (clocks game))
  /\ (running (clocks game) = true -> both_seated game' = false ->
      state (status game') = Waiting
      /\ clock_stopped game'
      /\ wRemainingMs (clocks game')
         = snap_wRemainingMs (effectiveClocksSnapshot game now)
      /\ bRemainingMs (clocks game')
         = snap_bRemainingMs (effectiveClocksSnapshot game now)).
Proof.
  intros Hs [g1 [-> [Hst [Hcl Hch]]]].
  assert (Hs1 : state (status g1) <> Finished) by (rewrite Hst; exact Hs).
  destruct (maybeStartGame_spec g1 now Hs1)
    as [Hpl [Hact [Hwait [Hstart Hpause]]]].
  assert (Hseat : both_seated (maybeStartGame g1 now) = both_seated g1)
    by (unfold both_seated; rewrite Hpl; reflexivity).
  rewrite Hseat, <- Hcl, <- Hch,
    <- (snapshot_depends_on_clocks g1 game now Hcl).
  split; [exact Hact|]. split.
  - intros Hrun Hactive. apply Hstart; [apply Hact; exact Hactive|exact Hrun].
  - intros Hrun Hvac. split; [apply Hwait; exact Hvac|].
    apply Hpause; assumption.
Qed.

(** C7 (amended) -- for a session that is not finished: after a leave
    that succeeds, and after a join that seats or reconnects a player, the
    state is [active] exactly when both color slots are occupied; a join
    as spectator leaves status, clocks and seats as they are.  When the
    session becomes active with a stopped clock, the clock starts with
    [lastTickAt] set to the current time, the color to move as active
    color and the stored remaining times untouched.  When a leave vacates
    a slot while the clock runs, the effective remaining times at that
    instant are written to the stored fields and the clock is stopped
    ([running=false], [activeColor=null], [lastTickAt=null]); the
    projector then reports those values at every later instant. *)
Theorem C7_start_pause :
  forall (game : Game) (iso : string) (now : Z),
    state (status game) <> Finished ->
    (forall playerId game',
        leaveOn game playerId iso now = Some game' ->
        (state (status game') = Active <-> both_seated game' = true)
        /\ (running (clocks game) = false -> state (status game') = Active ->
            running (clocks game') = true
            /\ lastTickAt (clocks game') = Some now
            /\ activeColor (clocks game') = Some (chess_turn (chess game))
            /\ wRemainingMs (clocks game') = wRemainingMs (clocks game)
            /\ bRemainingMs (clocks game') = bRemainingMs (clocks game))
        /\ (running (clocks game) = true -> both_seated game' = false ->
            state (status game') = Waiting
            /\ clock_stopped game'
            /\ forall t,
                 snap_wRemainingMs (effectiveClocksSnapshot game' t)
                 = snap_wRemainingMs (effectiveClocksSnapshot game now)
                 /\ wRemainingMs (clocks game')
                    = snap_wRemainingMs (effectiveClocksSnapshot game now)
                 /\ snap_bRemainingMs (effectiveClocksSnapshot game' t)
                    = snap_bRemainingMs (effectiveClocksSnapshot game now)
                 /\ bRemainingMs (clocks game')
                    = snap_bRemainingMs (effectiveClocksSnapshot game now)))
    /\ (forall name playerId requestedColor freshId game' part,
          joinOn game name playerId requestedColor freshId iso now
          = (game', part) ->
          (part_role part = RolePlayer ->
           (state (status game') = Active <-> both_seated game' = true)
           /\ (running (clocks game) = false ->
               state (status game') = Active ->
               running (clocks game') = true
               /\ lastTickAt (clocks game') = Some now
               /\ activeColor (clocks game')
                  = Some (chess_turn (chess game))
               /\ wRemainingMs (clocks game') = wRemainingMs (clocks game)
               /\ bRemainingMs (clocks game') = bRemainingMs (clocks game)))
          /\ (part_role part = RoleSpectator ->
              status game' = status game
              /\ clocks game' = clocks game
              /\ players game' = players game))
    /\ (forall playerId c,
          seat_of game playerId = Some c ->
          exists game',
            leaveOn game playerId iso now = Some game'
            /\ both_seated game' = false
            /\ pl_id (slot (players game') c) = None).
Proof.
  intros game iso now Hs. split; [|split].
  - intros playerId game' Hleave.
    destruct (settles_spec game game' now Hs (leaveOn_settles _ _ _ _ _ Hleave))
      as [Hiff [Hstart Hpause]].
    split; [exact Hiff|]. split; [exact Hstart|].
    intros Hrun Hvac.
    destruct (Hpause Hrun Hvac) as [Hw [Hstop [Hwr Hbr]]].
    split; [exact Hw|]. split; [exact Hstop|].
    intros t. destruct Hstop as [Hr [Ha Hl]].
    pose proof (snapshot_nonneg game now) as [Hw0 Hb0].
    destruct (snapshot_stopped game' t Hr) as [-> ->].
    rewrite Hwr, Hbr. repeat split; lia.
  - intros name playerId requestedColor freshId game' part Hjoin.
    destruct (joinOn_cases _ _ _ _ _ _ _ _ _ Hjoin)
      as [[Hrole Hset]|[Hrole ->]].
    + split; [|rewrite Hrole; discriminate].
      intros _.
      destruct (settles_spec game game' now Hs Hset) as [Hiff [Hstart _]].
      split; assumption.
    + split; [rewrite Hrole; discriminate|].
      intros _. repeat split; reflexivity.
  - intros playerId c Hseat. unfold seat_of in Hseat. unfold leaveOn.
    destruct (strict_eq playerId (pl_id (players_w (players game)))).
    + injection Hseat as <-. eexists. split; [reflexivity|].
      assert (Hpl : forall g, players (maybeStartGame g now) = players g).
      { intros g. unfold maybeStartGame.
        destruct (state_eqb _ _); [reflexivity|].
        destruct (_ && _); [destruct (negb _)|destruct (running _)];
          reflexivity. }
      unfold both_seated. rewrite Hpl. simpl. split; reflexivity.
    + destruct (strict_eq playerId (pl_id (players_b (players game))));
        [|discriminate].
      injection Hseat as <-. eexists. split; [reflexivity|].
      assert (Hpl : forall g, players (maybeStartGame g now) = players g).
      { intros g. unfold maybeStartGame.
        destruct (state_eqb _ _); [reflexivity|].
        destruct (_ && _); [destruct (negb _)|destruct (running _)];
          reflexivity. }
      unfold both_seated. rewrite Hpl. simpl.
      split; [apply andb_false_r|reflexivity].
Qed.

End StartPause.

(** C7, as stated, fails for a join as spectator: after a timeout and an
    undo both players are seated and the state is [waiting]; a third
    participant joins as spectator and the state stays [waiting]. *)
Lemma C7_spectator_join_stays_waiting :
  Toy.the_game Toy.store0_undone = Some Toy.game0_undone
  /\ state (status Toy.game0_undone) = Waiting
  /\ exists res game',
       joinGame Toy.store0_undone "g1" (Some "carol") IdUndefined None "px"
                Toy.iso1 7000
       = (inr res, [("g1", game')])
       /\ part_role (jr_participant res) = RoleSpectator
       /\ both_seated game' = true
       /\ state (status game') = Waiting.
Proof.
  split; [reflexivity|]. split; [reflexivity|].
  eexists. eexists. split; [vm_compute; reflexivity|].
  repeat split; reflexivity.
Qed.

Lemma C7_start_pause_witness :
  exists game',
    leaveOn Toy.game0 (IdStr "pb") Toy.iso1 400 = Some game'
    /\ state (status game') = Waiting
    /\ wRemainingMs (clocks game') = 600.
Proof.
  assert (Hs : state (status Toy.game0) <> Finished) by discriminate.
  destruct (C7_start_pause Toy.game0 Toy.iso1 400 Hs) as [Hleave _].
  eexists. split; [reflexivity|].
  destruct (Hleave (IdStr "pb") _ eq_refl) as [_ [_ Hpause]].
  destruct (Hpause eq_refl eq_refl) as [Hw [_ Hval]].
  split; [exact Hw|].
  destruct (Hval 0) as [_ [H _]]. rewrite H. reflexivity.
Defined.

Section CursorInvariant.

Context {V : Validator}.

Lemma same_history_refl (game : Game) : same_history game game.
Proof. repeat split; reflexivity. Qed.

Lemma same_history_cursor_ok (game game' : Game) :
  same_history game game' -> cursor_ok game -> cursor_ok game'.
Proof. intros [Hm [Hc _]]. unfold cursor_ok. rewrite Hm, Hc. auto. Qed.

Lemma maybeStartGame_history (game : Game) (now : Z) :
  same_history game (maybeStartGame game now).
Proof.
  unfold maybeStartGame.
  destruct (state_eqb _ _); [apply same_history_refl|].
  destruct (_ && _); [destruct (negb _)|destruct (running _)];
    repeat split; reflexivity.
Qed.

Lemma maybeStartGame_id (game : Game) (now : Z) :
  id (maybeStartGame game now) = id game.
Proof.
  unfold maybeStartGame.
  destruct (state_eqb _ _); [reflexivity|].
  destruct (_ && _); [destruct (negb _)|destruct (running _)]; reflexivity.
Qed.

Lemma settles_history (g1 game : Game) (now : Z) :
  same_history game g1 -> same_history game (maybeStartGame g1 now).
Proof.
  intros [Hm [Hc [Hp Hf]]].
  destruct (maybeStartGame_history g1 now) as [Hm' [Hc' [Hp' Hf']]].
  repeat split; congruence.
Qed.

Lemma joinOn_history (game : Game) (name : option string)
    (playerId : CallerId)
    (requestedColor : option string) (freshId iso : string) (now : Z) :
  same_history game
    (fst (joinOn game name playerId requestedColor freshId iso now)).
Proof.
  unfold joinOn.
  destruct (truthy_id playerId && _); simpl.
  { apply settles_history. repeat split; reflexivity. }
  destruct (normalizeColor requestedColor) as [desired|].
  - destruct (slotAvailable game desired); simpl;
      [apply settles_history; repeat split; reflexivity|].
    destruct (slotAvailable game W); simpl;
      [apply settles_history; repeat split; reflexivity|].
    destruct (slotAvailable game B); simpl;
      [apply settles_history; repeat split; reflexivity|].
    repeat split; reflexivity.
  - destruct (slotAvailable game W); simpl;
      [apply settles_history; repeat split; reflexivity|].
    destruct (slotAvailable game B); simpl;
      [apply settles_history; repeat split; reflexivity|].
    repeat split; reflexivity.
Qed.

Lemma leaveOn_history (game game' : Game) (playerId : CallerId)
    (iso : string) (now : Z) :
  leaveOn game playerId iso now = Some game' -> same_history game game'.
Proof.
  unfold leaveOn.
  destruct (strict_eq playerId (pl_id (players_w (players game)))).
  { intros [= <-]. apply settles_history. repeat split; reflexivity. }
  destruct (strict_eq playerId (pl_id (players_b (players game)))).
  { intros [= <-]. apply settles_history. repeat split; reflexivity. }
  destruct playerId as [| |pid]; try discriminate.
  destruct (JsMap.has (spectators game) pid); [|discriminate].
  intros [= <-]. apply settles_history. repeat split; reflexivity.
Qed.

Lemma commit_history (game : Game) (atMs : Z) :
  same_history game (fst (commitClockBeforeMove game atMs)).
Proof.
  unfold commitClockBeforeMove.
  destruct (snap_wRemainingMs _ <=? 0); [repeat split; reflexivity|].
  destruct (snap_bRemainingMs _ <=? 0); repeat split; reflexivity.
Qed.

Lemma slice0_prefix {A} (l : list A) (n : Z) :
  0 <= n <= Z.of_nat (List.length l) ->
  slice0 l n = firstn (Z.to_nat n) l.
Proof.
  intros [H0 Hn]. unfold slice0.
  destruct (n <? 0) eqn:E; [apply Z.ltb_lt in E; lia|].
  rewrite Z.min_l by lia. reflexivity.
Qed.

Lemma applyAccepted_history (game : Game) (color : Color) (c' : Chess)
    (mv : Move) (at_ : Z) (iso : string) :
  cursor_ok game ->
  let game' := applyAccepted game color c' mv at_ iso in
  moves game'
  = (firstn (Z.to_nat (moveCursor game)) (moves game)
     ++ [ {| from := move_from mv; to := move_to mv;
             promotion := or_null (move_promotion mv) |} ])%list
  /\ moveCursor game' = Z.of_nat (List.length (moves game'))
  /\ chess game' = c'
  /\ initialFen game' = initialFen game.
Proof.
  intros Hok. unfold applyAccepted. cbv zeta.
  cbn [with_chess moves moveCursor].
  destruct (moveCursor game <? Z.of_nat (List.length (moves game))) eqn:E;
    cbn [with_chess with_moves with_moveCursor with_clocks with_status
         with_state with_updatedAt clocks chess moves moveCursor initialFen];
    destruct (computeTermination c');
    cbn [with_chess with_moves with_moveCursor with_clocks with_status
         with_state with_updatedAt clocks chess moves moveCursor initialFen];
    rewrite ?(slice0_prefix _ _ Hok);
    try (apply Z.ltb_ge in E;
         assert (Hfull : Z.to_nat (moveCursor game) = List.length (moves game))
           by (unfold cursor_ok in Hok; lia);
         rewrite Hfull, firstn_all);
    repeat split; reflexivity.
Qed.





Lemma tickGame_history (game : Game) (atMs : Z) (iso : string) :
  same_history game (fst (tickGame game atMs iso)).
Proof.
  unfold tickGame.
  destruct (negb _ || negb _); [apply same_history_refl|].
  destruct (_ || _); repeat split; reflexivity.
Qed.

Lemma deserializeGame_cursor_ok (sg : Serialized) (iso : string)
    (game : Game) :
  deserializeGame sg iso = Some game ->
  cursor_ok game /\ moves game = s_moves sg.
Proof.
  unfold deserializeGame.
  destruct (replay _ _ _) as [c|]; [|discriminate].
  destruct (is_scalar _); [discriminate|].
  intros [= <-]. unfold cursor_ok. simpl.
  split; [|reflexivity].
  destruct (s_moveCursor sg); lia.
Qed.




(** An update of the session stored under [k]: what a lookup finds
    afterwards. *)
Lemma set_lookup (st : GameStore) (k gid : string) (g0 g1 game game' : Game) :
  JsMap.get st k = Some g0 ->
  JsMap.get st gid = Some game ->
  JsMap.get (JsMap.set st k g1) gid = Some game' ->
  ((k =? gid)%string = true /\ game = g0 /\ game' = g1)
  \/ ((k =? gid)%string = false /\ game' = game).
Proof.
  intros Hk Hgid. rewrite JsMap_get_set.
  destruct (k =? gid)%string eqn:E.
  - apply String.eqb_eq in E. subst gid. intros [= <-]. left.
    split; [reflexivity|]. split; congruence.
  - intros H. right. split; congruence.
Qed.




End CursorInvariant.

Lemma Toy_store5_ok : store_ok Toy.store5.
Proof.
  intros k game. unfold Toy.store5. cbn [JsMap.get].
  destruct ("g1" =? k)%string; [|discriminate].
  intros [= <-]. unfold cursor_ok. simpl. lia.
Qed.


Section Roundtrips.

Context {V : Validator}.

(** C4 -- undo then redo: for a session of the registry (cursor within
    the move list, position held equal to the replay of the applied
    prefix) on which undo succeeds, the redo that follows succeeds and
    gives back the position held before the undo -- same position token,
    same history -- with the same move list and the same cursor. *)
Theorem C4_undo_redo_roundtrip :
  forall (st st1 : GameStore) (gameId : string) (game : Game)
         (playerId : CallerId) (iso iso' : string) (now now' : Z)
         (ps : PublicState),
    JsMap.get st gameId = Some game ->
    cursor_ok game ->
    position_replayed game ->
    undo st gameId playerId iso now = Some (inr ps, st1) ->
    exists ps' st2 game2,
      redo st1 gameId playerId iso' now' = Some (inr ps', st2)
      /\ JsMap.get st2 gameId = Some game2
      /\ chess game2 = chess game
      /\ ps_fen ps' = chess_fen (chess game)
      /\ ps_history ps' = chess_history (chess game)
      /\ moves game2 = moves game
      /\ firstn (Z.to_nat (moveCursor game2)) (moves game2)
         = firstn (Z.to_nat (moveCursor game)) (moves game)
      /\ moveCursor game2 = moveCursor game
      /\ ps_moveCursor ps' = moveCursor game.
Proof.
  intros st st1 gameId game playerId iso iso' now now' ps
         Hget [Hc0 Hclen] Hrep Hundo.
  unfold undo in Hundo. rewrite Hget in Hundo. unfold undoOn in Hundo.
  destruct (running (clocks game)) eqn:Hrun; [discriminate|].
  destruct (isPlayer game playerId) eqn:Hpl; [|discriminate].
  simpl in Hundo.
  destruct (moveCursor game <=? 0) eqn:Hpos; [discriminate|].
  apply Z.leb_gt in Hpos.
  rewrite replayAt_spec in Hundo by lia.
  injection Hundo as _ <-.
  set (game1 := replayed_session game (moveCursor game - 1) iso).
  assert (Hch : fold_left replay_move
                  (firstn (Z.to_nat (moveCursor game)) (moves game))
                  (new_Chess (Some (initialFen game))) = chess game).
  { unfold position_replayed in Hrep.
    rewrite replay_firstn in Hrep by lia. congruence. }
  unfold redo. rewrite JsMap_get_set_same. unfold redoOn.
  replace (running (clocks game1)) with false by (symmetry; exact Hrun).
  replace (isPlayer game1 playerId) with true by (symmetry; exact Hpl).
  simpl negb. cbv iota.
  replace (moveCursor game1) with (moveCursor game - 1) by reflexivity.
  replace (moves game1) with (moves game) by reflexivity.
  destruct (moveCursor game - 1 >=? Z.of_nat (List.length (moves game)))
    eqn:E; [apply Z.geb_le in E; lia|].
  rewrite replayAt_spec
    by (replace (moves game1) with (moves game) by reflexivity; lia).
  set (game2 := replayed_session game1 (moveCursor game - 1 + 1) iso').
  assert (Hc2 : moveCursor game2 = moveCursor game)
    by (unfold game2, replayed_session; simpl; lia).
  assert (Hch2 : chess game2 = chess game).
  { unfold game2, replayed_session. simpl.
    replace (moveCursor game - 1 + 1) with (moveCursor game) by lia.
    exact Hch. }
  eexists. exists (JsMap.set (JsMap.set st gameId game1) gameId game2).
  exists game2.
  split; [reflexivity|]. split; [apply JsMap_get_set_same|].
  split; [exact Hch2|].
  unfold publicState. cbn [ps_fen ps_history ps_moveCursor].
  rewrite Hch2, Hc2.
  repeat split; reflexivity.
Qed.

Lemma or_else_not_empty (x d : string) : x <> "" -> or_else x d = x.
Proof.
  intros H. unfold or_else.
  destruct (x =? "")%string eqn:E; [|reflexivity].
  apply String.eqb_eq in E. contradiction.
Qed.

(** The session read back from the snapshot of [game]. *)
Lemma deserialize_serialize (game : Game) (iso : string) :
  cursor_ok game ->
  position_replayed game ->
  exists game',
    deserializeGame (serializeGame game) iso = Some game'
    /\ id game' = id game
    /\ createdAt game' = or_else (createdAt game) iso
    /\ updatedAt game' = or_else (updatedAt game) iso
    /\ moves game' = moves game
    /\ moveCursor game' = moveCursor game
    /\ chess game' = chess game
    /\ pl_name (players_w (players game'))
       = or_null (pl_name (players_w (players game)))
    /\ pl_name (players_b (players game'))
       = or_null (pl_name (players_b (players game)))
    /\ pl_present (players_w (players game')) = false
    /\ pl_present (players_b (players game')) = false
    /\ clocks game'
       = stop_clock (clocks game)
    /\ status game'
       = match computeTermination (chess game) with
         | Some t => {| state := Finished; winner := t_winner t;
                        reason := Some (t_reason t) |}
         | None => reset_status
         end.
Proof.
  intros [H0 Hlen] Hrep. unfold position_replayed in Hrep.
  unfold deserializeGame.
  cbn [serializeGame s_moves s_moveCursor s_initialFen].
  replace (Z.max 0 (Z.min (Z.of_nat (List.length (moves game)))
                          (moveCursor game)))
    with (moveCursor game) by lia.
  rewrite Hrep.
  eexists. split; [reflexivity|]. simpl.
  repeat split; reflexivity.
Qed.

(** C3 (amended) -- save then load.  For a session of the registry
    (cursor within the move list, position held equal to the replay of
    the applied prefix, timestamps and names as the engine writes them)
    the session read back from its snapshot has a public state with the
    same identity, position token, notation, turn, cursor, history,
    timestamps and player names; [present=false] on both slots; the clock
    stopped ([running=false], [activeColor=null]) at the stored remaining
    times, which are the projected ones when the clock was not running.
    Its status is derived again from the replayed position: the public
    status is the same when the position is terminal, and is [waiting]
    with winner and reason [null] when it is not. *)
Theorem C3_snapshot_roundtrip :
  forall (game : Game) (iso : string) (atMs : Z),
    cursor_ok game ->
    position_replayed game ->
    strings_normal game ->
    exists game',
      deserializeGame (serializeGame game) iso = Some game'
      /\ let ps := publicState game atMs in
         let ps' := publicState game' atMs in
         ps_gameId ps' = ps_gameId ps
         /\ ps_fen ps' = ps_fen ps
         /\ ps_pgn ps' = ps_pgn ps
         /\ ps_turn ps' = ps_turn ps
         /\ ps_moveCursor ps' = ps_moveCursor ps
         /\ ps_history ps' = ps_history ps
         /\ ps_createdAt ps' = ps_createdAt ps
         /\ ps_updatedAt ps' = ps_updatedAt ps
         /\ ps_players_w ps'
            = {| pp_name := pp_name (ps_players_w ps); pp_color := W;
                 pp_present := false |}
         /\ ps_players_b ps'
            = {| pp_name := pp_name (ps_players_b ps); pp_color := B;
                 pp_present := false |}
         /\ ps_clocks ps'
            = {| snap_initialMs := initialMs (clocks game);
                 snap_incrementMs := incrementMs (clocks game);
                 snap_wRemainingMs := Z.max 0 (wRemainingMs (clocks game));
                 snap_bRemainingMs := Z.max 0 (bRemainingMs (clocks game));
                 snap_activeColor := None;
                 snap_running := false |}
         /\ (running (clocks game) = false ->
             snap_wRemainingMs (ps_clocks ps')
             = snap_wRemainingMs (ps_clocks ps)
             /\ snap_bRemainingMs (ps_clocks ps')
                = snap_bRemainingMs (ps_clocks ps))
         /\ ps_isCheck (ps_status ps') = ps_isCheck (ps_status ps)
         /\ (isGameOver (chess game) = true -> ps_status ps' = ps_status ps)
         /\ (isGameOver (chess game) = false ->
             status game' = reset_status
             /\ ps_state (ps_status ps') = Waiting
             /\ ps_winner (ps_status ps') = None
             /\ ps_reason (ps_status ps') = None).
Proof.
  intros game iso atMs Hok Hrep [Hca [Hua [Hnw Hnb]]].
  destruct (deserialize_serialize game iso Hok Hrep)
    as [game' [Hd [Hid [Hc [Hu [Hm [Hcur [Hch [Hw [Hb [Hpw [Hpb [Hcl Hst]]]]]]]]]]]]].
  exists game'. split; [exact Hd|].
  rewrite (or_else_not_empty _ _ Hca) in Hc.
  rewrite (or_else_not_empty _ _ Hua) in Hu.
  rewrite Hnw in Hw. rewrite Hnb in Hb.
  unfold publicState, publicPlayers.
  cbn [ps_gameId ps_fen ps_pgn ps_turn ps_moveCursor ps_history ps_createdAt
       ps_updatedAt ps_players_w ps_players_b ps_clocks ps_status fst snd
       pp_name].
  rewrite Hid, Hch, Hcur, Hc, Hu, Hw, Hb, Hpw, Hpb.
  repeat (split; [reflexivity|]).
  assert (Hsnap : effectiveClocksSnapshot game' atMs
                  = {| snap_initialMs := initialMs (clocks game);
                       snap_incrementMs := incrementMs (clocks game);
                       snap_wRemainingMs :=
                         Z.max 0 (wRemainingMs (clocks game));
                       snap_bRemainingMs :=
                         Z.max 0 (bRemainingMs (clocks game));
                       snap_activeColor := None;
                       snap_running := false |}).
  { unfold effectiveClocksSnapshot. rewrite Hcl. reflexivity. }
  rewrite Hsnap. split; [reflexivity|]. split.
  { intros Hrun. simpl.
    destruct (snapshot_stopped game atMs Hrun) as [-> ->].
    split; reflexivity. }
  split.
  { destruct (computeTermination (chess game)); reflexivity. }
  split.
  - intros Hover.
    destruct (computeTermination_terminal _ Hover) as [t Ht].
    rewrite Ht. reflexivity.
  - intros Hnot. apply computeTermination_None in Hnot.
    rewrite Hnot in *. rewrite Hst. repeat split; reflexivity.
Qed.

End Roundtrips.

(** C3, as stated, fails for a session finished by timeout: its position
    is not terminal, and the session read back from its snapshot is
    [waiting] with no winner and no reason. *)
Lemma C3_timeout_result_lost_on_load :
  status Toy.game0_timeout
  = {| state := Finished; winner := Some W; reason := Some "timeout" |}
  /\ isGameOver (Validator := Toy.validator) (chess Toy.game0_timeout)
     = false
  /\ ps_state (ps_status (publicState Toy.game0_timeout 6000)) = Finished
  /\ exists game' : Game (V := Toy.validator),
       deserializeGame (serializeGame Toy.game0_timeout) Toy.iso1 = Some game'
       /\ status game' = reset_status
       /\ ps_status (publicState game' 6000)
          = {| ps_state := Waiting; ps_winner := None; ps_reason := None;
               ps_isCheck := false |}.
Proof.
  split; [reflexivity|]. split; [reflexivity|]. split; [reflexivity|].
  eexists. split; [vm_compute; reflexivity|].
  split; reflexivity.
Qed.

Lemma C3_snapshot_roundtrip_witness :
  exists game' : Game (V := Toy.validator),
    deserializeGame (serializeGame Toy.game0_timeout) Toy.iso1 = Some game'
    /\ ps_fen (publicState game' 6000) = "startpos/e2-e4"
    /\ ps_moveCursor (publicState game' 6000) = 1.
Proof.
  assert (Hok : cursor_ok Toy.game0_timeout)
    by (unfold cursor_ok; simpl; lia).
  assert (Hrep : position_replayed Toy.game0_timeout) by reflexivity.
  assert (Hstr : strings_normal Toy.game0_timeout)
    by (repeat split; try reflexivity; discriminate).
  destruct (C3_snapshot_roundtrip Toy.game0_timeout Toy.iso1 6000
              Hok Hrep Hstr) as [game' [Hd [_ [Hfen [_ [_ [Hcur _]]]]]]].
  exists game'. split; [exact Hd|].
  rewrite Hfen, Hcur. split; reflexivity.
Defined.

Lemma C4_undo_redo_roundtrip_witness :
  exists ps' st2 (game2 : Game (V := Toy.validator)),
    redo Toy.store0_undone "g1" (IdStr "pw") Toy.iso1 7000
    = Some (inr ps', st2)
    /\ JsMap.get st2 "g1" = Some game2
    /\ chess game2 = chess Toy.game0_timeout
    /\ moveCursor game2 = 1.
Proof.
  assert (Hok : cursor_ok Toy.game0_timeout)
    by (unfold cursor_ok; simpl; lia).
  assert (Hrep : position_replayed Toy.game0_timeout) by reflexivity.
  destruct (C4_undo_redo_roundtrip
              Toy.store0_timeout Toy.store0_undone "g1" Toy.game0_timeout
              (IdStr "pw") Toy.iso1 Toy.iso1 6000 7000
              (publicState Toy.game0_undone 6000)
              eq_refl Hok Hrep eq_refl)
    as [ps' [st2 [game2 [Hredo [Hget [Hch [_ [_ [_ [_ [Hcur _]]]]]]]]]]].
  exists ps', st2, game2. repeat split; assumption.
Defined.

(** ** The invariants hold on every session the engine produces

    [cursor_ok] is kept by every operation (C8).  The lemmas below show
    the same for [position_replayed], the hypothesis of the two round-trip
    theorems, from the laws of the rules library. *)

Lemma or_null_idem (o : option string) : or_null (or_null o) = or_null o.
Proof.
  unfold or_null. destruct (truthy o) eqn:E; [rewrite E|]; reflexivity.
Qed.

Lemma Toy_laws : ValidatorLaws Toy.validator.
Proof.
  split.
  - reflexivity.
  - discriminate.
  - intros c a c' m. simpl. unfold Toy.move.
    destruct (Toy.over c) eqn:Eo; simpl; [discriminate|].
    destruct (from a =? "")%string eqn:Ef; simpl; [discriminate|].
    destruct (to a =? "")%string eqn:Et; simpl; [discriminate|].
    destruct (from a =? to a)%string eqn:Ee; simpl; [discriminate|].
    intros [= <- <-]. simpl. rewrite Ef, Et, Ee. simpl.
    destruct (to a =? "e8")%string; simpl.
    + rewrite !or_null_idem. reflexivity.
    + reflexivity.
Qed.

Section ReplayInvariant.

Context {V : Validator} {L : ValidatorLaws V}.

Lemma same_history_replayed (game game' : Game) :
  same_history game game' -> replayed_ok game -> replayed_ok game'.
Proof.
  intros [Hm [Hc [Hp Hf]]] [Hrep Hne].
  unfold replayed_ok, position_replayed. rewrite Hm, Hc, Hp, Hf. auto.
Qed.

Lemma created_replayed (creatorName creatorColor : option string)
    (timeControl : option TimeControl) (gameId creatorPlayerId iso : string) :
  replayed_ok
    (fst (fst (createNewGame creatorName creatorColor timeControl
                 gameId creatorPlayerId iso))).
Proof.
  unfold replayed_ok, position_replayed, createNewGame. simpl.
  split; [rewrite new_Chess_default; reflexivity|].
  apply chess_fen_default_not_empty.
Qed.

Lemma replay_move_accepted (c c' : Chess) (a : MoveRecord) (mv : Move) :
  chess_move c a = Some (c', mv) ->
  replay_move c {| from := move_from mv; to := move_to mv;
                   promotion := or_null (move_promotion mv) |} = c'.
Proof.
  intros H. pose proof (chess_move_replay c a c' mv H) as Hr.
  unfold replay_move. simpl.
  destruct (chess_move c {| from := move_from mv; to := move_to mv;
                            promotion := or_null (move_promotion mv) |})
    as [[c1 m1]|]; simpl in Hr; congruence.
Qed.

Lemma applyAccepted_replayed (game : Game) (color : Color) (a : MoveRecord)
    (c' : Chess) (mv : Move) (at_ : Z) (iso : string) :
  cursor_ok game ->
  replayed_ok game ->
  chess_move (chess game) a = Some (c', mv) ->
  replayed_ok (applyAccepted game color c' mv at_ iso).
Proof.
  intros Hok [Hrep Hne] Hmv.
  destruct (applyAccepted_history game color c' mv at_ iso Hok)
    as [Hm [Hc [Hch Hf]]].
  unfold replayed_ok, position_replayed. rewrite Hf, Hc, Hch.
  split; [|exact Hne].
  rewrite Nat2Z.id, replay_firstn by lia.
  rewrite firstn_all, Hm, fold_left_app. simpl.
  unfold position_replayed in Hrep. unfold cursor_ok in Hok.
  rewrite replay_firstn in Hrep by lia. injection Hrep as ->.
  rewrite (replay_move_accepted _ _ _ _ Hmv). reflexivity.
Qed.

Lemma makeMoveOn_replayed (game : Game) (playerId : CallerId)
    (from_ to_ : string) (promotion_ : option string) (at_ : Z)
    (iso : string) :
  cursor_ok game ->
  replayed_ok game ->
  replayed_ok (snd (makeMoveOn game playerId from_ to_ promotion_ at_ iso)).
Proof.
  intros Hok Hrep. unfold makeMoveOn.
  destruct (assertPlayerCanMove game playerId) as [e|color]; [exact Hrep|].
  pose proof (commit_history game at_) as Hh.
  destruct (commitClockBeforeMove game at_) as [game1 timedOut].
  simpl in Hh.
  pose proof (same_history_replayed _ _ Hh Hrep) as Hrep1.
  destruct timedOut; simpl.
  { apply (same_history_replayed game1); [repeat split; reflexivity|].
    exact Hrep1. }
  destruct (chess_move (chess game1) _) as [[c' mv]|] eqn:Hmv; simpl.
  - apply (applyAccepted_replayed game1 color _ c' mv at_ iso
             (same_history_cursor_ok _ _ Hh Hok) Hrep1 Hmv).
  - exact Hrep1.
Qed.

Lemma replayed_session_replayed (game : Game) (cursor : Z) (iso : string) :
  cursor <= Z.of_nat (List.length (moves game)) ->
  initialFen game <> "" ->
  replayed_ok (replayed_session game cursor iso).
Proof.
  intros Hc Hne. unfold replayed_ok, position_replayed, replayed_session.
  simpl. split; [|exact Hne]. apply replay_firstn. lia.
Qed.

Lemma undoOn_replayed (game : Game) (playerId : CallerId)
    (iso : string) (now : Z) (res : Result PublicState) (game' : Game) :
  cursor_ok game -> replayed_ok game ->
  undoOn game playerId iso now = Some (res, game') -> replayed_ok game'.
Proof.
  intros [H0 Hlen] Hrep. unfold undoOn.
  destruct (running (clocks game)); [intros [= _ <-]; exact Hrep|].
  destruct (negb _); [intros [= _ <-]; exact Hrep|].
  destruct (moveCursor game <=? 0); [intros [= _ <-]; exact Hrep|].
  rewrite replayAt_spec by lia. intros [= _ <-].
  apply replayed_session_replayed; [lia|apply Hrep].
Qed.

Lemma redoOn_replayed (game : Game) (playerId : CallerId)
    (iso : string) (now : Z) (res : Result PublicState) (game' : Game) :
  cursor_ok game -> replayed_ok game ->
  redoOn game playerId iso now = Some (res, game') -> replayed_ok game'.
Proof.
  intros [H0 Hlen] Hrep. unfold redoOn.
  destruct (running (clocks game)); [intros [= _ <-]; exact Hrep|].
  destruct (negb _); [intros [= _ <-]; exact Hrep|].
  destruct (moveCursor game >=? _) eqn:E; [intros [= _ <-]; exact Hrep|].
  assert (moveCursor game < Z.of_nat (List.length (moves game)))
    by (destruct (Z.geb_spec (moveCursor game)
                    (Z.of_nat (List.length (moves game)))); [discriminate|lia]).
  rewrite replayAt_spec by lia. intros [= _ <-].
  apply replayed_session_replayed; [lia|apply Hrep].
Qed.

Lemma deserializeGame_replayed (sg : Serialized) (iso : string)
    (game : Game) :
  s_initialFen sg <> "" ->
  deserializeGame sg iso = Some game -> replayed_ok game.
Proof.
  intros Hne. unfold deserializeGame.
  destruct (replay _ _ _) as [c|] eqn:E; [|discriminate].
  destruct (is_scalar _); [discriminate|].
  intros [= <-]. unfold replayed_ok, position_replayed. simpl.
  rewrite (or_else_not_empty _ _ Hne). split; [exact E|exact Hne].
Qed.

Lemma store_replayed_set (st : GameStore) (k : string) (game : Game) :
  store_replayed st -> replayed_ok game ->
  store_replayed (JsMap.set st k game).
Proof.
  intros Hst Hg k' g'. rewrite JsMap_get_set.
  destruct (k =? k')%string; [intros [= <-]; exact Hg|apply Hst].
Qed.

Lemma loadInto_replayed (l : list Serialized) (iso : string) :
  Forall (fun sg => s_initialFen sg <> "") l ->
  forall next : GameStore,
    store_replayed next -> store_replayed (loadInto next l iso).
Proof.
  induction 1 as [|sg l Hsg Hl IH]; intros next Hnext; simpl; [exact Hnext|].
  destruct (negb _); [apply IH; exact Hnext|].
  destruct (deserializeGame sg iso) as [game|] eqn:E; [|apply IH; exact Hnext].
  apply IH. apply store_replayed_set; [exact Hnext|].
  apply (deserializeGame_replayed _ _ _ Hsg E).
Qed.

(** Every operation keeps, for every session of the registry, the
    position held equal to the replay of [moves[0, cursor)] from the
    initial position token. *)
Theorem run_keeps_positions_replayed :
  forall (st st' : GameStore) (op : Op),
    store_ok st ->
    store_replayed st ->
    disk_has_tokens op ->
    run st op = Some st' ->
    store_replayed st'.
Proof.
  intros st st' op Hok Hst Hdisk Hrun.
  destruct op; simpl in Hrun.
  - injection Hrun as <-.
    pose proof (created_replayed creatorName creatorColor timeControl
                  gameId creatorPlayerId iso) as Hc.
    unfold createGame, createNewGame in *. simpl in *.
    apply store_replayed_set; [exact Hst|].
    apply (same_history_replayed _ _ (maybeStartGame_history _ _) Hc).
  - injection Hrun as <-. unfold joinGame.
    destruct (JsMap.get st gameId) as [game|] eqn:Hget; [|exact Hst].
    pose proof (joinOn_history game name playerId requestedColor
                  freshId iso now) as Hh.
    destruct (joinOn _ _ _ _ _ _ _) as [game1 part]. simpl in *.
    apply store_replayed_set; [exact Hst|].
    apply (same_history_replayed _ _ Hh (Hst _ _ Hget)).
  - injection Hrun as <-. unfold leaveGame.
    destruct (JsMap.get st gameId) as [game|] eqn:Hget; [|exact Hst].
    destruct (leaveOn game playerId iso now) as [game1|] eqn:Hl; [|exact Hst].
    simpl. apply store_replayed_set; [exact Hst|].
    apply (same_history_replayed _ _ (leaveOn_history _ _ _ _ _ Hl)
             (Hst _ _ Hget)).
  - injection Hrun as <-. unfold makeMove.
    destruct (JsMap.get st gameId) as [game|] eqn:Hget; [|exact Hst].
    pose proof (makeMoveOn_replayed game playerId from_ to_ promotion_
                  at_ iso (Hok _ _ Hget) (Hst _ _ Hget)) as Hh.
    destruct (makeMoveOn _ _ _ _ _ _ _) as [res game1]. simpl in *.
    apply store_replayed_set; assumption.
  - unfold undo in Hrun.
    destruct (JsMap.get st gameId) as [game|] eqn:Hget;
      [|injection Hrun as <-; exact Hst].
    destruct (undoOn game playerId iso now) as [[res game1]|] eqn:Hu;
      [|discriminate].
    injection Hrun as <-. apply store_replayed_set; [exact Hst|].
    apply (undoOn_replayed _ _ _ _ _ _ (Hok _ _ Hget) (Hst _ _ Hget) Hu).
  - unfold redo in Hrun.
    destruct (JsMap.get st gameId) as [game|] eqn:Hget;
      [|injection Hrun as <-; exact Hst].
    destruct (redoOn game playerId iso now) as [[res game1]|] eqn:Hu;
      [|discriminate].
    injection Hrun as <-. apply store_replayed_set; [exact Hst|].
    apply (redoOn_replayed _ _ _ _ _ _ (Hok _ _ Hget) (Hst _ _ Hget) Hu).
  - injection Hrun as <-. intros k g'. rewrite tickClocks_get.
    destruct (JsMap.get st k) as [g|] eqn:Hget; [|discriminate].
    intros [= <-].
    apply (same_history_replayed _ _ (tickGame_history _ _ _) (Hst _ _ Hget)).
  - injection Hrun as <-. exact Hst.
  - injection Hrun as <-. unfold loadFromDisk. simpl.
    apply loadInto_replayed; [exact Hdisk|]. intros k g. discriminate.
Qed.

End ReplayInvariant.

Example toy_store5_moved_replayed : store_replayed Toy.store5_moved.
Proof.
  apply (run_keeps_positions_replayed (L := Toy_laws)
           Toy.store5 Toy.store5_moved
           (OpMove "g1" (IdStr "pw") "e2" "e4" None 5000 Toy.iso1)
           Toy_store5_ok).
  - intros k game. unfold Toy.store5. cbn [JsMap.get].
    destruct ("g1" =? k)%string; [|discriminate].
    intros [= <-]. split; [reflexivity|discriminate].
  - exact I.
  - reflexivity.
Defined.

Section StringInvariant.

Context {V : Validator}.

Lemma or_null_truthy (o : option string) : truthy o = true -> or_null o = o.
Proof. intros H. unfold or_null. rewrite H. reflexivity. Qed.

Lemma or_else_stamp (x iso : string) : iso <> "" -> or_else x iso <> "".
Proof.
  intros H. unfold or_else.
  destruct (x =? "")%string eqn:E; [exact H|].
  apply String.eqb_neq in E. exact E.
Qed.

Lemma maybeStartGame_strings (game : Game) (now : Z) :
  strings_normal game -> strings_normal (maybeStartGame game now).
Proof.
  unfold maybeStartGame.
  destruct (state_eqb _ _); [auto|].
  destruct (_ && _); [destruct (negb _)|destruct (running _)]; auto.
Qed.

Lemma set_slot_strings (game : Game) (c : Color) (p : Player) (iso : string) :
  strings_normal game ->
  iso <> "" ->
  or_null (pl_name p) = pl_name p ->
  strings_normal
    (with_updatedAt (with_players game (set_slot (players game) c p)) iso).
Proof.
  intros [Hc [Hu [Hw Hb]]] Hiso Hp. unfold strings_normal.
  destruct c; simpl; auto.
Qed.

Lemma joinOn_strings (game : Game) (name : option string)
    (playerId : CallerId)
    (requestedColor : option string) (freshId iso : string) (now : Z) :
  strings_normal game ->
  iso <> "" ->
  strings_normal
    (fst (joinOn game name playerId requestedColor freshId iso now)).
Proof.
  intros Hs Hiso.
  assert (Hseat : forall c,
             strings_normal (assignTo game c name freshId iso now)).
  { intros c. unfold assignTo. apply maybeStartGame_strings.
    apply set_slot_strings; [assumption..|]. apply or_null_idem. }
  assert (Hspec : strings_normal (addSpectator game name freshId iso)).
  { destruct Hs as [Hc [Hu [Hw Hb]]]. unfold strings_normal. simpl. auto. }
  unfold joinOn.
  destruct (truthy_id playerId && _); simpl.
  { unfold rejoin. apply maybeStartGame_strings.
    apply set_slot_strings; [assumption..|].
    destruct (truthy name) eqn:E; simpl; [apply or_null_truthy; exact E|].
    destruct Hs as [_ [_ [Hw Hb]]].
    destruct (strict_eq playerId _); assumption. }
  destruct (normalizeColor requestedColor) as [desired|].
  - destruct (slotAvailable game desired); simpl; [apply Hseat|].
    destruct (slotAvailable game W); simpl; [apply Hseat|].
    destruct (slotAvailable game B); simpl; [apply Hseat|exact Hspec].
  - destruct (slotAvailable game W); simpl; [apply Hseat|].
    destruct (slotAvailable game B); simpl; [apply Hseat|exact Hspec].
Qed.

Lemma leaveOn_strings (game game' : Game) (playerId : CallerId)
    (iso : string) (now : Z) :
  strings_normal game ->
  iso <> "" ->
  leaveOn game playerId iso now = Some game' -> strings_normal game'.
Proof.
  intros Hs Hiso. unfold leaveOn.
  destruct (strict_eq playerId (pl_id (players_w (players game)))).
  { intros [= <-]. apply maybeStartGame_strings.
    apply (set_slot_strings game W empty_player iso); auto. }
  destruct (strict_eq playerId (pl_id (players_b (players game)))).
  { intros [= <-]. apply maybeStartGame_strings.
    apply (set_slot_strings game B empty_player iso); auto. }
  destruct playerId as [| |pid]; try discriminate.
  destruct (JsMap.has (spectators game) pid); [|discriminate].
  intros [= <-]. apply maybeStartGame_strings.
  destruct Hs as [Hc [Hu [Hw Hb]]]. unfold strings_normal. simpl. auto.
Qed.

(** A change that leaves the creation stamp and the players alone and
    either keeps the update stamp or sets it to [iso]. *)
Lemma strings_normal_kept (game game' : Game) (iso : string) :
  strings_normal game ->
  iso <> "" ->
  createdAt game' = createdAt game ->
  players game' = players game ->
  updatedAt game' = updatedAt game \/ updatedAt game' = iso ->
  strings_normal game'.
Proof.
  intros [Hc [Hu [Hw Hb]]] Hiso Hc' Hp' Hu'. unfold strings_normal.
  rewrite Hc', Hp'. destruct Hu' as [->| ->]; auto.
Qed.

Lemma commit_strings (game : Game) (atMs : Z) :
  let game1 := fst (commitClockBeforeMove game atMs) in
  createdAt game1 = createdAt game
  /\ players game1 = players game
  /\ updatedAt game1 = updatedAt game.
Proof.
  unfold commitClockBeforeMove.
  destruct (snap_wRemainingMs _ <=? 0); [repeat split; reflexivity|].
  destruct (snap_bRemainingMs _ <=? 0); repeat split; reflexivity.
Qed.

Lemma applyAccepted_strings (game : Game) (color : Color) (c' : Chess)
    (mv : Move) (at_ : Z) (iso : string) :
  let game' := applyAccepted game color c' mv at_ iso in
  createdAt game' = createdAt game
  /\ players game' = players game
  /\ updatedAt game' = iso.
Proof.
  unfold applyAccepted. cbv zeta.
  destruct (moveCursor _ <? _);
    cbn [with_chess with_moves with_moveCursor with_clocks with_status
         with_state with_updatedAt clocks chess];
    destruct (computeTermination c'); repeat split; reflexivity.
Qed.

Lemma makeMoveOn_strings (game : Game) (playerId : CallerId)
    (from_ to_ : string) (promotion_ : option string) (at_ : Z)
    (iso : string) :
  strings_normal game ->
  iso <> "" ->
  strings_normal
    (snd (makeMoveOn game playerId from_ to_ promotion_ at_ iso)).
Proof.
  intros Hs Hiso. unfold makeMoveOn.
  destruct (assertPlayerCanMove game playerId) as [e|color]; [exact Hs|].
  pose proof (commit_strings game at_) as [Hc [Hp Hu]].
  destruct (commitClockBeforeMove game at_) as [game1 timedOut].
  simpl in Hc, Hp, Hu. destruct timedOut; simpl.
  { apply (strings_normal_kept game _ iso); auto. }
  destruct (chess_move (chess game1) _) as [[c' mv]|]; simpl.
  - destruct (applyAccepted_strings game1 color c' mv at_ iso)
      as [Hc' [Hp' Hu']].
    apply (strings_normal_kept game _ iso); auto; congruence.
  - apply (strings_normal_kept game _ iso); auto.
Qed.

Lemma replayAt_strings (game game' : Game) (cursor : Z) (iso : string) :
  strings_normal game ->
  iso <> "" ->
  replayAt game cursor iso = Some game' -> strings_normal game'.
Proof.
  intros Hs Hiso. unfold replayAt, rebuildChess.
  destruct (replay _ _ _); [|discriminate].
  intros [= <-]. apply (strings_normal_kept game _ iso); auto.
Qed.

Lemma undoOn_strings (game game' : Game) (playerId : CallerId)
    (iso : string) (now : Z) (res : Result PublicState) :
  strings_normal game ->
  iso <> "" ->
  undoOn game playerId iso now = Some (res, game') -> strings_normal game'.
Proof.
  intros Hs Hiso. unfold undoOn.
  destruct (running (clocks game)); [intros [= _ <-]; exact Hs|].
  destruct (negb _); [intros [= _ <-]; exact Hs|].
  destruct (moveCursor game <=? 0); [intros [= _ <-]; exact Hs|].
  destruct (replayAt game _ iso) as [g1|] eqn:E; [|discriminate].
  intros [= _ <-]. apply (replayAt_strings _ _ _ _ Hs Hiso E).
Qed.

Lemma redoOn_strings (game game' : Game) (playerId : CallerId)
    (iso : string) (now : Z) (res : Result PublicState) :
  strings_normal game ->
  iso <> "" ->
  redoOn game playerId iso now = Some (res, game') -> strings_normal game'.
Proof.
  intros Hs Hiso. unfold redoOn.
  destruct (running (clocks game)); [intros [= _ <-]; exact Hs|].
  destruct (negb _); [intros [= _ <-]; exact Hs|].
  destruct (moveCursor game >=? _); [intros [= _ <-]; exact Hs|].
  destruct (replayAt game _ iso) as [g1|] eqn:E; [|discriminate].
  intros [= _ <-]. apply (replayAt_strings _ _ _ _ Hs Hiso E).
Qed.

Lemma tickGame_strings (game : Game) (atMs : Z) (iso : string) :
  strings_normal game ->
  iso <> "" ->
  strings_normal (fst (tickGame game atMs iso)).
Proof.
  intros Hs Hiso. unfold tickGame.
  destruct (negb _ || negb _); [exact Hs|].
  destruct (_ || _); [|exact Hs].
  apply (strings_normal_kept game _ iso); auto.
Qed.

Lemma deserializeGame_strings (sg : Serialized) (iso : string) (game : Game) :
  iso <> "" ->
  deserializeGame sg iso = Some game -> strings_normal game.
Proof.
  intros Hiso. unfold deserializeGame.
  destruct (replay _ _ _); [|discriminate].
  destruct (is_scalar _); [discriminate|].
  intros [= <-]. unfold strings_normal. simpl.
  repeat split; try apply or_else_stamp; try apply or_null_idem; assumption.
Qed.

Lemma store_strings_set (st : GameStore) (k : string) (game : Game) :
  store_strings st -> strings_normal game ->
  store_strings (JsMap.set st k game).
Proof.
  intros Hst Hg k' g'. rewrite JsMap_get_set.
  destruct (k =? k')%string; [intros [= <-]; exact Hg|apply Hst].
Qed.

Lemma loadInto_strings (l : list Serialized) (iso : string) :
  iso <> "" ->
  forall next : GameStore,
    store_strings next -> store_strings (loadInto next l iso).
Proof.
  intros Hiso. induction l as [|sg l IH]; intros next Hnext; simpl;
    [exact Hnext|].
  destruct (negb _); [apply IH; exact Hnext|].
  destruct (deserializeGame sg iso) as [game|] eqn:E; [|apply IH; exact Hnext].
  apply IH. apply store_strings_set; [exact Hnext|].
  apply (deserializeGame_strings _ _ _ Hiso E).
Qed.

(** Every operation given a non-empty timestamp keeps the timestamps of
    every session non-empty and the player names [null] or non-empty. *)
Theorem run_keeps_strings_normal :
  forall (st st' : GameStore) (op : Op),
    store_strings st ->
    stamp_ok op ->
    run st op = Some st' ->
    store_strings st'.
Proof.
  intros st st' op Hst Hiso Hrun.
  destruct op; simpl in Hrun, Hiso.
  - injection Hrun as <-. unfold createGame, createNewGame. simpl.
    apply store_strings_set; [exact Hst|].
    apply maybeStartGame_strings. unfold strings_normal. simpl.
    destruct (normalizeColor creatorColor) as [[|]|]; simpl;
      repeat split; try assumption; try reflexivity; apply or_null_idem.
  - injection Hrun as <-. unfold joinGame.
    destruct (JsMap.get st gameId) as [game|] eqn:Hget; [|exact Hst].
    pose proof (joinOn_strings game name playerId requestedColor
                  freshId iso now (Hst _ _ Hget) Hiso) as Hh.
    destruct (joinOn _ _ _ _ _ _ _) as [game1 part]. simpl in *.
    apply store_strings_set; assumption.
  - injection Hrun as <-. unfold leaveGame.
    destruct (JsMap.get st gameId) as [game|] eqn:Hget; [|exact Hst].
    destruct (leaveOn game playerId iso now) as [game1|] eqn:Hl; [|exact Hst].
    simpl. apply store_strings_set; [exact Hst|].
    apply (leaveOn_strings _ _ _ _ _ (Hst _ _ Hget) Hiso Hl).
  - injection Hrun as <-. unfold makeMove.
    destruct (JsMap.get st gameId) as [game|] eqn:Hget; [|exact Hst].
    pose proof (makeMoveOn_strings game playerId from_ to_ promotion_
                  at_ iso (Hst _ _ Hget) Hiso) as Hh.
    destruct (makeMoveOn _ _ _ _ _ _ _) as [res game1]. simpl in *.
    apply store_strings_set; assumption.
  - unfold undo in Hrun.
    destruct (JsMap.get st gameId) as [game|] eqn:Hget;
      [|injection Hrun as <-; exact Hst].
    destruct (undoOn game playerId iso now) as [[res game1]|] eqn:Hu;
      [|discriminate].
    injection Hrun as <-. apply store_strings_set; [exact Hst|].
    apply (undoOn_strings _ _ _ _ _ _ (Hst _ _ Hget) Hiso Hu).
  - unfold redo in Hrun.
    destruct (JsMap.get st gameId) as [game|] eqn:Hget;
      [|injection Hrun as <-; exact Hst].
    destruct (redoOn game playerId iso now) as [[res game1]|] eqn:Hu;
      [|discriminate].
    injection Hrun as <-. apply store_strings_set; [exact Hst|].
    apply (redoOn_strings _ _ _ _ _ _ (Hst _ _ Hget) Hiso Hu).
  - injection Hrun as <-. intros k g'. rewrite tickClocks_get.
    destruct (JsMap.get st k) as [g|] eqn:Hget; [|discriminate].
    intros [= <-]. apply tickGame_strings; [apply (Hst _ _ Hget)|exact Hiso].
  - injection Hrun as <-. exact Hst.
  - injection Hrun as <-. unfold loadFromDisk. simpl.
    apply loadInto_strings; [exact Hiso|]. intros k g. discriminate.
Qed.

End StringInvariant.

(** * Further properties of the engine *)

(** ** Helpers of the move pipeline and the projector *)

(** [safePromotion] lets through nothing but the four promotion pieces,
    in lower case: its result is [undefined] or one of q, r, b, n; a piece
    given in either case is kept in lower case; applying it twice changes
    nothing. *)
Theorem safePromotion_pieces_only :
  forall p : option string,
    (safePromotion p = None
     \/ exists piece, safePromotion p = Some piece
                      /\ In piece promotion_pieces)
    /\ (forall s, In (toLowerCase s) promotion_pieces ->
                  safePromotion (Some s) = Some (toLowerCase s))
    /\ safePromotion (safePromotion p) = safePromotion p.
Proof.
  intros p.
  assert (Hfix : forall piece, In piece promotion_pieces ->
                               safePromotion (Some piece) = Some piece).
  { intros piece Hin. unfold promotion_pieces in Hin. simpl in Hin.
    destruct Hin as [<-|[<-|[<-|[<-|[]]]]]; reflexivity. }
  assert (Hrange : safePromotion p = None
                   \/ exists piece, safePromotion p = Some piece
                                    /\ In piece promotion_pieces).
  { unfold safePromotion. destruct (negb (truthy p)); [left; reflexivity|].
    destruct p as [s|]; [|left; reflexivity].
    destruct (existsb (String.eqb (toLowerCase s)) ["q"; "r"; "b"; "n"])
      eqn:E; [|left; reflexivity].
    right. exists (toLowerCase s). split; [reflexivity|].
    apply existsb_exists in E. destruct E as [x [Hin Hx]].
    apply String.eqb_eq in Hx. subst x. exact Hin. }
  split; [exact Hrange|]. split.
  - intros s Hin. unfold safePromotion.
    assert (Hne : truthy (Some s) = true).
    { destruct s; [simpl in Hin; unfold promotion_pieces in Hin; simpl in Hin;
                   destruct Hin as [H|[H|[H|[H|[]]]]]; discriminate H
                  |reflexivity]. }
    rewrite Hne. simpl negb. cbv iota.
    replace (existsb (String.eqb (toLowerCase s)) ["q"; "r"; "b"; "n"])
      with true; [reflexivity|].
    symmetry. apply existsb_exists. exists (toLowerCase s).
    split; [exact Hin|apply String.eqb_refl].
  - destruct Hrange as [->|[piece [-> Hin]]]; [reflexivity|].
    apply Hfix. exact Hin.
Qed.

Section TerminationFacts.

Context {V : Validator}.

(** [computeTermination] answers only for a position that is over; its
    reason is one of six fixed words; it names a winner exactly for a
    checkmate, and the winner is then the opponent of the side to move. *)
Theorem computeTermination_winner_only_by_checkmate :
  forall (c : Chess) (t : Termination),
    computeTermination c = Some t ->
    isGameOver c = true
    /\ In (t_reason t) termination_reasons
    /\ (isCheckmate c = true ->
        t = {| t_winner := Some (opponent (chess_turn c));
               t_reason := "checkmate" |})
    /\ (isCheckmate c = false -> t_winner t = None)
    /\ (t_winner t <> None <-> t_reason t = "checkmate")
    /\ t_winner t <> Some (chess_turn c).
Proof.
  intros c t. unfold computeTermination, termination_reasons.
  destruct (isGameOver c); simpl; [|discriminate].
  destruct (isCheckmate c).
  { intros [= <-]. simpl.
    repeat split; auto; try discriminate;
      destruct (chess_turn c); simpl; auto; discriminate. }
  destruct (isStalemate c);
    [|destruct (isThreefoldRepetition c);
      [|destruct (isInsufficientMaterial c); [|destruct (isDraw c)]]];
    intros [= <-]; simpl;
    (split; [reflexivity|]);
    (split; [tauto|]);
    (split; [discriminate|]);
    (split; [reflexivity|]);
    (split; [split; [congruence|discriminate]|discriminate]).
Qed.

(** The projected remaining times never go below zero and never grow
    with the time of observation; a color that is not the active color of
    a running clock keeps its time.  The active color of a running clock
    is shown its stored time less the time elapsed since the anchor, not
    below zero, and no time has elapsed before the anchor: between two
    observations its time stays the same when the later one is not after
    the anchor, and gets strictly smaller when the later one is after the
    anchor and the time was positive. *)
Theorem projected_clock_monotone :
  forall (game : Game) (t1 t2 : Z),
    t1 <= t2 ->
    let s1 := effectiveClocksSnapshot game t1 in
    let s2 := effectiveClocksSnapshot game t2 in
    (forall c, 0 <= snap_remaining s2 c <= snap_remaining s1 c)
    /\ (forall c,
          running (clocks game) = false
          \/ activeColor (clocks game) <> Some c ->
          snap_remaining s2 c = snap_remaining s1 c)
    /\ (forall c last,
          running (clocks game) = true ->
          activeColor (clocks game) = Some c ->
          lastTickAt (clocks game) = Some last ->
          (forall t,
             snap_remaining (effectiveClocksSnapshot game t) c
             = Z.max 0 (match c with
                        | W => wRemainingMs (clocks game)
                        | B => bRemainingMs (clocks game)
                        end - Z.max 0 (t - last)))
          /\ (t2 <= last -> snap_remaining s2 c = snap_remaining s1 c)
          /\ (t1 < t2 -> last < t2 -> 0 < snap_remaining s1 c ->
              snap_remaining s2 c < snap_remaining s1 c)).
Proof.
  intros game t1 t2 Hle s1 s2. subst s1 s2.
  unfold effectiveClocksSnapshot.
  destruct (running (clocks game)) eqn:Hr;
    destruct (activeColor (clocks game)) as [a|] eqn:Ha;
    destruct (lastTickAt (clocks game)) as [l|] eqn:Hl;
    (split; [intros [|]; try destruct a; simpl; lia|]);
    (split;
     [intros [|] [H|H]; try discriminate H; try destruct a; simpl;
      try reflexivity; try congruence
     |intros [|] last H1 H2 H3; try discriminate;
      injection H2 as ->; try injection H3 as ->; simpl;
      (split; [intros t; reflexivity|]); split; lia]).
Qed.

End TerminationFacts.

(** ** Status, clock and seats stay coherent *)

Section LivePlay.

Context {V : Validator}.

(** [live_ok] without its clause on the seats, which [_maybeStartGame]
    establishes by itself. *)
Lemma maybeStartGame_live (game : Game) (now : Z) :
  (running (clocks game) = true <-> state (status game) = Active) ->
  (running (clocks game) = true ->
   activeColor (clocks game) = Some (chess_turn (chess game))
   /\ exists t, lastTickAt (clocks game) = Some t) ->
  (running (clocks game) = false ->
   activeColor (clocks game) = None /\ lastTickAt (clocks game) = None) ->
  live_ok (maybeStartGame game now).
Proof.
  intros [H1 H1'] H2 H3. unfold live_ok, maybeStartGame, both_seated.
  destruct (state (status game)) eqn:Es; simpl;
    destruct (truthy (pl_id (players_w (players game)))) eqn:Ew;
    destruct (truthy (pl_id (players_b (players game)))) eqn:Eb;
    destruct (running (clocks game)) eqn:Er; simpl;
    try rewrite Es; try rewrite Er; simpl;
    repeat split; intros; try discriminate; try congruence;
    try (apply H2; reflexivity); try (apply H3; reflexivity);
    try (exists now; reflexivity); auto;
    try (specialize (H1 eq_refl); discriminate);
    try (rewrite ?Ew, ?Eb; reflexivity).
Qed.

Lemma settles_live (game game' : Game) (now : Z) :
  live_ok game -> settles game game' now -> live_ok game'.
Proof.
  intros [H1 [H2 [H3 _]]] [g1 [-> [Hst [Hcl Hch]]]].
  apply maybeStartGame_live; rewrite ?Hst, ?Hcl, ?Hch; assumption.
Qed.

Lemma joinOn_live (game : Game) (name : option string)
    (playerId : CallerId)
    (requestedColor : option string) (freshId iso : string) (now : Z) :
  live_ok game ->
  live_ok (fst (joinOn game name playerId requestedColor freshId iso now)).
Proof.
  intros Hl.
  destruct (joinOn game name playerId requestedColor freshId iso now)
    as [game' part] eqn:E.
  destruct (joinOn_cases _ _ _ _ _ _ _ _ _ E) as [[_ Hs]|[_ ->]]; simpl.
  - apply (settles_live _ _ _ Hl Hs).
  - exact Hl.
Qed.

Lemma leaveOn_live (game game' : Game) (playerId : CallerId)
    (iso : string) (now : Z) :
  live_ok game -> leaveOn game playerId iso now = Some game' -> live_ok game'.
Proof.
  intros Hl E. apply (settles_live _ _ _ Hl (leaveOn_settles _ _ _ _ _ E)).
Qed.

Lemma assert_ok_active (game : Game) (playerId : CallerId)
    (color : Color) :
  assertPlayerCanMove game playerId = inr color ->
  truthy_id playerId = true
  /\ state (status game) = Active
  /\ seat_of game playerId = Some color
  /\ chess_turn (chess game) = color.
Proof.
  unfold assertPlayerCanMove, seat_of.
  destruct (truthy_id playerId); simpl; [|discriminate].
  destruct (state (status game)); simpl; try discriminate.
  destruct (strict_eq playerId (pl_id (players_w (players game)))).
  - destruct (chess_turn (chess game)); simpl; intros [= <-]; auto.
  - destruct (strict_eq playerId (pl_id (players_b (players game))));
      [|discriminate].
    destruct (chess_turn (chess game)); simpl; intros [= <-]; auto.
Qed.

Lemma finalize_timeout_live (game : Game) (win : Color) (iso : string) :
  live_ok (with_updatedAt (finalize_timeout game win) iso).
Proof.
  unfold live_ok, finalize_timeout. simpl.
  repeat split; intros; try discriminate; auto.
Qed.

Lemma applyAccepted_live (game : Game) (color : Color) (c' : Chess)
    (mv : Move) (at_ : Z) (iso : string) :
  both_seated game = true ->
  live_ok (applyAccepted game color c' mv at_ iso).
Proof.
  intros Hseat. unfold live_ok, both_seated, applyAccepted in *. cbv zeta.
  destruct (moveCursor _ <? _);
    cbn [with_chess with_moves with_moveCursor with_clocks with_status
         with_state with_updatedAt clocks chess status players];
    destruct (computeTermination c');
    cbn [with_chess with_moves with_moveCursor with_clocks with_status
         with_state with_updatedAt clocks chess status players
         with_remaining with_run stop_clock running activeColor lastTickAt
         state];
    repeat split; intros; try discriminate; auto; exists at_; reflexivity.
Qed.

Lemma makeMoveOn_live (game : Game) (playerId : CallerId)
    (from_ to_ : string) (promotion_ : option string) (at_ : Z)
    (iso : string) :
  live_ok game ->
  live_ok (snd (makeMoveOn game playerId from_ to_ promotion_ at_ iso)).
Proof.
  intros Hl. unfold makeMoveOn.
  destruct (assertPlayerCanMove game playerId) as [e|color] eqn:Ea;
    [exact Hl|].
  destruct (assert_ok_active _ _ _ Ea) as [_ [Hact _]].
  assert (Hseat : both_seated game = true) by (apply Hl; exact Hact).
  unfold commitClockBeforeMove.
  destruct (snap_wRemainingMs _ <=? 0); simpl;
    [apply finalize_timeout_live|].
  destruct (snap_bRemainingMs _ <=? 0); simpl;
    [apply finalize_timeout_live|].
  destruct (chess_move _ _) as [[c' mv]|]; simpl.
  - apply applyAccepted_live. exact Hseat.
  - exact Hl.
Qed.

Lemma replayAt_live (game game' : Game) (cursor : Z) (iso : string) :
  live_ok game ->
  running (clocks game) = false ->
  replayAt game cursor iso = Some game' -> live_ok game'.
Proof.
  intros [_ [_ [H3 _]]] Hr. unfold replayAt, rebuildChess.
  destruct (replay _ _ _); [|discriminate].
  destruct (H3 Hr) as [Ha Hl].
  intros [= <-]. unfold live_ok. simpl. rewrite Hr.
  repeat split; intros; try discriminate; assumption.
Qed.

Lemma undoOn_live (game game' : Game) (playerId : CallerId)
    (iso : string) (now : Z) (res : Result PublicState) :
  live_ok game ->
  undoOn game playerId iso now = Some (res, game') -> live_ok game'.
Proof.
  intros Hl. unfold undoOn.
  destruct (running (clocks game)) eqn:Hr; [intros [= _ <-]; exact Hl|].
  destruct (negb _); [intros [= _ <-]; exact Hl|].
  destruct (moveCursor game <=? 0); [intros [= _ <-]; exact Hl|].
  destruct (replayAt game _ iso) as [g1|] eqn:E; [|discriminate].
  intros [= _ <-]. apply (replayAt_live _ _ _ _ Hl Hr E).
Qed.

Lemma redoOn_live (game game' : Game) (playerId : CallerId)
    (iso : string) (now : Z) (res : Result PublicState) :
  live_ok game ->
  redoOn game playerId iso now = Some (res, game') -> live_ok game'.
Proof.
  intros Hl. unfold redoOn.
  destruct (running (clocks game)) eqn:Hr; [intros [= _ <-]; exact Hl|].
  destruct (negb _); [intros [= _ <-]; exact Hl|].
  destruct (moveCursor game >=? _); [intros [= _ <-]; exact Hl|].
  destruct (replayAt game _ iso) as [g1|] eqn:E; [|discriminate].
  intros [= _ <-]. apply (replayAt_live _ _ _ _ Hl Hr E).
Qed.

Lemma tickGame_live (game : Game) (atMs : Z) (iso : string) :
  live_ok game -> live_ok (fst (tickGame game atMs iso)).
Proof.
  intros Hl. unfold tickGame.
  destruct (negb _ || negb _); [exact Hl|].
  destruct (_ || _); [|exact Hl].
  unfold live_ok. simpl.
  repeat split; intros; try discriminate; auto.
Qed.

Lemma deserializeGame_live (sg : Serialized) (iso : string) (game : Game) :
  deserializeGame sg iso = Some game -> live_ok game.
Proof.
  unfold deserializeGame.
  destruct (replay _ _ _) as [c|]; [|discriminate].
  destruct (is_scalar _); [discriminate|].
  intros [= <-]. unfold live_ok. simpl.
  destruct (computeTermination c); simpl;
    repeat split; intros; try discriminate; auto.
Qed.

Lemma store_live_set (st : GameStore) (k : string) (game : Game) :
  store_live st -> live_ok game -> store_live (JsMap.set st k game).
Proof.
  intros Hst Hg k' g'. rewrite JsMap_get_set.
  destruct (k =? k')%string; [intros [= <-]; exact Hg|apply Hst].
Qed.

Lemma loadInto_live (l : list Serialized) (iso : string) :
  forall next : GameStore, store_live next -> store_live (loadInto next l iso).
Proof.
  induction l as [|sg l IH]; intros next Hnext; simpl; [exact Hnext|].
  destruct (negb _); [apply IH; exact Hnext|].
  destruct (deserializeGame sg iso) as [game|] eqn:E; [|apply IH; exact Hnext].
  apply IH. apply store_live_set; [exact Hnext|].
  apply (deserializeGame_live _ _ _ E).
Qed.

(** Every operation keeps status, clock and seats coherent in every
    session: the clock runs exactly when the state is [active]; a running
    clock has an anchor and its active color is the side to move; a
    stopped clock has no active color and no anchor; an active session has
    both seats taken. *)
Theorem run_keeps_live_play_coherent :
  forall (st st' : GameStore) (op : Op),
    store_live st ->
    run st op = Some st' ->
    store_live st'.
Proof.
  intros st st' op Hst Hrun.
  destruct op; simpl in Hrun.
  - injection Hrun as <-. unfold createGame, createNewGame. simpl.
    apply store_live_set; [exact Hst|].
    apply maybeStartGame_live; simpl.
    + split; discriminate.
    + discriminate.
    + auto.
  - injection Hrun as <-. unfold joinGame.
    destruct (JsMap.get st gameId) as [game|] eqn:Hget; [|exact Hst].
    pose proof (joinOn_live game name playerId requestedColor
                  freshId iso now (Hst _ _ Hget)) as Hh.
    destruct (joinOn _ _ _ _ _ _ _) as [game1 part]. simpl in *.
    apply store_live_set; assumption.
  - injection Hrun as <-. unfold leaveGame.
    destruct (JsMap.get st gameId) as [game|] eqn:Hget; [|exact Hst].
    destruct (leaveOn game playerId iso now) as [game1|] eqn:Hl; [|exact Hst].
    simpl. apply store_live_set; [exact Hst|].
    apply (leaveOn_live _ _ _ _ _ (Hst _ _ Hget) Hl).
  - injection Hrun as <-. unfold makeMove.
    destruct (JsMap.get st gameId) as [game|] eqn:Hget; [|exact Hst].
    pose proof (makeMoveOn_live game playerId from_ to_ promotion_
                  at_ iso (Hst _ _ Hget)) as Hh.
    destruct (makeMoveOn _ _ _ _ _ _ _) as [res game1]. simpl in *.
    apply store_live_set; assumption.
  - unfold undo in Hrun.
    destruct (JsMap.get st gameId) as [game|] eqn:Hget;
      [|injection Hrun as <-; exact Hst].
    destruct (undoOn game playerId iso now) as [[res game1]|] eqn:Hu;
      [|discriminate].
    injection Hrun as <-. apply store_live_set; [exact Hst|].
    apply (undoOn_live _ _ _ _ _ _ (Hst _ _ Hget) Hu).
  - unfold redo in Hrun.
    destruct (JsMap.get st gameId) as [game|] eqn:Hget;
      [|injection Hrun as <-; exact Hst].
    destruct (redoOn game playerId iso now) as [[res game1]|] eqn:Hu;
      [|discriminate].
    injection Hrun as <-. apply store_live_set; [exact Hst|].
    apply (redoOn_live _ _ _ _ _ _ (Hst _ _ Hget) Hu).
  - injection Hrun as <-. intros k g'. rewrite tickClocks_get.
    destruct (JsMap.get st k) as [g|] eqn:Hget; [|discriminate].
    intros [= <-]. apply tickGame_live. apply (Hst _ _ Hget).
  - injection Hrun as <-. exact Hst.
  - injection Hrun as <-. unfold loadFromDisk. simpl.
    apply loadInto_live. intros k g. discriminate.
Qed.

End LivePlay.

Lemma Toy_store5_live : store_live Toy.store5.
Proof.
  intros k game. unfold Toy.store5. cbn [JsMap.get].
  destruct ("g1" =? k)%string; [|discriminate].
  intros [= <-]. unfold live_ok. simpl.
  repeat split; intros; try discriminate; auto. exists 0. reflexivity.
Qed.

Lemma run_keeps_live_play_coherent_witness :
  store_live Toy.store5_moved.
Proof.
  apply (run_keeps_live_play_coherent Toy.store5 Toy.store5_moved
           (OpMove "g1" (IdStr "pw") "e2" "e4" None 5000 Toy.iso1)
           Toy_store5_live eq_refl).
Defined.

Section LiveContract.

Context {V : Validator}.

(** In a coherent session that is [active], undo and redo are refused
    with 409 and change nothing; and whenever [makeMove] answers with a
    state, the session was active with its clock running and both seats
    taken, and the caller sat on the side to move. *)
Theorem live_play_excludes_undo_and_strangers :
  forall (game : Game) (playerId : CallerId) (iso : string) (now : Z),
    live_ok game ->
    (state (status game) = Active ->
     undoOn game playerId iso now
     = Some (inl {| error := "Undo is disabled while clocks are running";
                    statusCode := 409 |}, game)
     /\ redoOn game playerId iso now
        = Some (inl {| error := "Redo is disabled while clocks are running";
                       statusCode := 409 |}, game))
    /\ (forall from_ to_ promotion_ ps game',
          makeMoveOn game playerId from_ to_ promotion_ now iso
          = (inr ps, game') ->
          state (status game) = Active
          /\ running (clocks game) = true
          /\ both_seated game = true
          /\ seat_of game playerId = Some (chess_turn (chess game))).
Proof.
  intros game playerId iso now [H1 [H2 [H3 H4]]]. split.
  - intros Hact. assert (Hr : running (clocks game) = true) by (apply H1; exact Hact).
    unfold undoOn, redoOn. rewrite Hr. split; reflexivity.
  - intros from_ to_ promotion_ ps game' Hmv. unfold makeMoveOn in Hmv.
    destruct (assertPlayerCanMove game playerId) as [e|color] eqn:Ea;
      [discriminate|].
    destruct (assert_ok_active _ _ _ Ea) as [_ [Hact [Hseat Hturn]]].
    split; [exact Hact|]. split; [apply H1; exact Hact|].
    split; [apply H4; exact Hact|]. rewrite Hturn. exact Hseat.
Qed.

(** ** A finished session stays finished *)

Lemma maybeStartGame_finished (game : Game) (now : Z) :
  state (status game) = Finished -> maybeStartGame game now = game.
Proof. intros H. unfold maybeStartGame. rewrite H. reflexivity. Qed.

Lemma settles_finished (game game' : Game) (now : Z) :
  state (status game) = Finished ->
  settles game game' now ->
  status game' = status game /\ clocks game' = clocks game.
Proof.
  intros Hf [g1 [-> [Hst [Hcl _]]]].
  rewrite maybeStartGame_finished by (rewrite Hst; exact Hf). auto.
Qed.

Lemma joinOn_finished (game : Game) (name : option string)
    (playerId : CallerId)
    (requestedColor : option string) (freshId iso : string) (now : Z) :
  state (status game) = Finished ->
  let game' := fst (joinOn game name playerId requestedColor freshId iso now)
  in status game' = status game /\ clocks game' = clocks game.
Proof.
  intros Hf.
  destruct (joinOn game name playerId requestedColor freshId iso now)
    as [game' part] eqn:E.
  destruct (joinOn_cases _ _ _ _ _ _ _ _ _ E) as [[_ Hs]|[_ ->]]; simpl.
  - apply (settles_finished _ _ _ Hf Hs).
  - auto.
Qed.

Lemma makeMoveOn_not_active (game : Game) (playerId : CallerId)
    (from_ to_ : string) (promotion_ : option string) (at_ : Z)
    (iso : string) :
  state (status game) <> Active ->
  exists e,
    makeMoveOn game playerId from_ to_ promotion_ at_ iso = (inl e, game)
    /\ (statusCode e = 400 \/ statusCode e = 409).
Proof.
  intros Hs. unfold makeMoveOn, assertPlayerCanMove.
  destruct (truthy_id playerId); simpl.
  - destruct (state (status game)) eqn:Es; try congruence; simpl;
      eexists; split; try reflexivity; auto.
  - eexists; split; try reflexivity; auto.
Qed.

Lemma tickGame_not_active (game : Game) (atMs : Z) (iso : string) :
  state (status game) <> Active -> tickGame game atMs iso = (game, false).
Proof.
  intros Hs. unfold tickGame.
  destruct (state (status game)); try congruence;
    simpl; rewrite orb_true_r; reflexivity.
Qed.

(** Join, leave, move and the sweep (and the creation of other sessions)
    leave a finished session finished: its status (state, winner, reason),
    its clocks, its move list, cursor and position are what they were.
    Only undo, redo and a load can change them. *)
Theorem finished_session_stays_finished :
  forall (st st' : GameStore) (op : Op) (gid : string) (game game' : Game),
    run st op = Some st' ->
    plays_on op gid ->
    JsMap.get st gid = Some game ->
    JsMap.get st' gid = Some game' ->
    state (status game) = Finished ->
    status game' = status game
    /\ clocks game' = clocks game
    /\ same_history game game'.
Proof.
  intros st st' op gid game game' Hrun Hplays Hg Hg' Hf.
  assert (Hna : forall g : Game, status g = status game ->
                                 state (status g) <> Active)
    by (intros g ->; rewrite Hf; discriminate).
  assert (Hsame : game' = game ->
                  status game' = status game /\ clocks game' = clocks game
                  /\ same_history game game')
    by (intros ->; split; [|split]; try reflexivity; apply same_history_refl).
  destruct op; simpl in Hrun, Hplays; try contradiction.
  - injection Hrun as <-.
    unfold createGame, createNewGame in Hg'. simpl in Hg'.
    rewrite maybeStartGame_id in Hg'. simpl in Hg'.
    rewrite JsMap_get_set in Hg'.
    destruct (gameId =? gid)%string eqn:E;
      [apply String.eqb_eq in E; congruence|].
    apply Hsame. congruence.
  - injection Hrun as <-. unfold joinGame in Hg'.
    destruct (JsMap.get st gameId) as [g0|] eqn:Hget;
      [|apply Hsame; simpl in Hg'; congruence].
    pose proof (joinOn_history g0 name playerId requestedColor
                  freshId iso now) as Hh.
    pose proof (joinOn_finished g0 name playerId requestedColor
                  freshId iso now) as Hfin.
    destruct (joinOn _ _ _ _ _ _ _) as [game1 part]. simpl in *.
    destruct (set_lookup _ _ _ _ _ _ _ Hget Hg Hg')
      as [[_ [Hg0 ->]]|[_ ->]]; [subst g0|apply Hsame; reflexivity].
    destruct (Hfin Hf) as [H1 H2]. auto.
  - injection Hrun as <-. unfold leaveGame in Hg'.
    destruct (JsMap.get st gameId) as [g0|] eqn:Hget;
      [|apply Hsame; simpl in Hg'; congruence].
    destruct (leaveOn g0 playerId iso now) as [game1|] eqn:Hl;
      [|apply Hsame; simpl in Hg'; congruence].
    simpl in Hg'.
    destruct (set_lookup _ _ _ _ _ _ _ Hget Hg Hg')
      as [[_ [Hg0 ->]]|[_ ->]]; [subst g0|apply Hsame; reflexivity].
    destruct (settles_finished _ _ _ Hf (leaveOn_settles _ _ _ _ _ Hl))
      as [H1 H2].
    split; [exact H1|]. split; [exact H2|].
    exact (leaveOn_history _ _ _ _ _ Hl).
  - injection Hrun as <-. unfold makeMove in Hg'.
    destruct (JsMap.get st gameId) as [g0|] eqn:Hget;
      [|apply Hsame; simpl in Hg'; congruence].
    destruct (makeMoveOn g0 playerId from_ to_ promotion_ at_ iso)
      as [res game1] eqn:Em. simpl in Hg'.
    destruct (set_lookup _ _ _ _ _ _ _ Hget Hg Hg')
      as [[_ [Hg0 ->]]|[_ ->]]; [subst g0|apply Hsame; reflexivity].
    destruct (makeMoveOn_not_active game playerId from_ to_ promotion_
                at_ iso (Hna game eq_refl)) as [e [Hm _]].
    apply Hsame. congruence.
  - injection Hrun as <-. rewrite tickClocks_get, Hg in Hg'.
    cbn [option_map] in Hg'.
    rewrite (tickGame_not_active game atMs iso (Hna game eq_refl)) in Hg'.
    apply Hsame. simpl in Hg'. congruence.
  - injection Hrun as <-. apply Hsame. congruence.
Qed.

End LiveContract.

Lemma Toy_game5_live : live_ok Toy.game5.
Proof.
  unfold live_ok. simpl.
  repeat split; intros; try discriminate; auto. exists 0. reflexivity.
Qed.

Lemma live_play_excludes_undo_and_strangers_witness :
  undoOn Toy.game5 (IdStr "pw") Toy.iso1 10
  = Some (inl {| error := "Undo is disabled while clocks are running";
                 statusCode := 409 |}, Toy.game5).
Proof.
  destruct (live_play_excludes_undo_and_strangers
              Toy.game5 (IdStr "pw") Toy.iso1 10 Toy_game5_live) as [H _].
  destruct (H eq_refl) as [Hundo _]. exact Hundo.
Defined.

Lemma finished_session_stays_finished_witness :
  let st' := snd (leaveGame Toy.store0_timeout "g1" (IdStr "pb")
                    Toy.iso1 6000) in
  exists game',
    JsMap.get st' "g1" = Some game'
    /\ pl_id (players_b (players game')) = None
    /\ status game'
       = {| state := Finished; winner := Some W; reason := Some "timeout" |}.
Proof.
  intros st'.
  pose (g := match JsMap.get st' "g1" with
             | Some g => g
             | None => Toy.game0
             end).
  exists g.
  assert (Hget : JsMap.get st' "g1" = Some g) by reflexivity.
  split; [exact Hget|]. split; [reflexivity|].
  destruct (finished_session_stays_finished
              Toy.store0_timeout st'
              (OpLeave "g1" (IdStr "pb") Toy.iso1 6000)
              "g1" Toy.game0_timeout g eq_refl I eq_refl Hget eq_refl)
    as [Hst _].
  rewrite Hst. reflexivity.
Defined.

(** ** The timeout sweep *)

Section Sweep.

Context {V : Validator}.

Lemma tickGame_id (game : Game) (atMs : Z) (iso : string) :
  id (fst (tickGame game atMs iso)) = id game.
Proof.
  unfold tickGame. destruct (negb _ || negb _); [reflexivity|].
  destruct (_ || _); reflexivity.
Qed.

Lemma tickGame_expired (game : Game) (c : Color) (atMs : Z) (iso : string) :
  active_expired game c atMs ->
  running (clocks game) = true ->
  state (status game) = Active ->
  state (status (fst (tickGame game atMs iso))) = Finished.
Proof.
  intros [Hact Hle] Hrun Hstate. unfold tickGame.
  rewrite Hrun, Hstate, Hact. simpl.
  destruct c; simpl in Hle; apply Z.leb_le in Hle; rewrite Hle; simpl;
    rewrite ?andb_false_r; reflexivity.
Qed.

Lemma tickGame_flag (game : Game) (atMs : Z) (iso : string) :
  snd (tickGame game atMs iso)
  = running (clocks game) && state_eqb (state (status game)) Active.
Proof.
  unfold tickGame.
  destruct (running (clocks game)); [|reflexivity].
  destruct (state (status game)); try reflexivity.
  cbn [andb state_eqb negb orb].
  destruct (activeColor (clocks game)) as [[|]|]; cbn [andb orb];
    try reflexivity;
    match goal with
    | |- snd (if ?b then _ else _) = _ => destruct b; reflexivity
    end.
Qed.

(** The sweep writes to a session only to finalize a timeout: a session
    that is not running and active is skipped; a running active session
    whose active color still has time is reported and left exactly as it
    was; otherwise it is finalized for the opponent with the projected
    times committed.  Sweeping again at the same instant changes nothing
    more. *)
Theorem sweep_writes_only_to_finalize :
  forall (game : Game) (atMs : Z) (iso : string),
    let game' := fst (tickGame game atMs iso) in
    snd (tickGame game atMs iso)
    = running (clocks game) && state_eqb (state (status game)) Active
    /\ (game' = game
        \/ exists c,
             running (clocks game) = true
             /\ state (status game) = Active
             /\ active_expired game c atMs
             /\ status game'
                = {| state := Finished; winner := Some (opponent c);
                     reason := Some "timeout" |}
             /\ clocks game'
                = stop_clock
                    (with_remaining (clocks game)
                       (snap_wRemainingMs (effectiveClocksSnapshot game atMs))
                       (snap_bRemainingMs (effectiveClocksSnapshot game atMs)))
             /\ updatedAt game' = iso
             /\ players game' = players game
             /\ same_history game game')
    /\ (forall c, active_expired game c atMs ->
                  running (clocks game) = true ->
                  state (status game) = Active ->
                  state (status game') = Finished)
    /\ fst (tickGame game' atMs iso) = game'.
Proof.
  intros game atMs iso game'. subst game'.
  assert (Hmain :
    snd (tickGame game atMs iso)
    = running (clocks game) && state_eqb (state (status game)) Active
    /\ (fst (tickGame game atMs iso) = game
        \/ exists c,
             running (clocks game) = true
             /\ state (status game) = Active
             /\ active_expired game c atMs
             /\ status (fst (tickGame game atMs iso))
                = {| state := Finished; winner := Some (opponent c);
                     reason := Some "timeout" |}
             /\ clocks (fst (tickGame game atMs iso))
                = stop_clock
                    (with_remaining (clocks game)
                       (snap_wRemainingMs (effectiveClocksSnapshot game atMs))
                       (snap_bRemainingMs (effectiveClocksSnapshot game atMs)))
             /\ updatedAt (fst (tickGame game atMs iso)) = iso
             /\ players (fst (tickGame game atMs iso)) = players game
             /\ same_history game (fst (tickGame game atMs iso)))).
  { unfold tickGame.
    destruct (running (clocks game)) eqn:Hr; simpl;
      [|split; [reflexivity|left; reflexivity]].
    destruct (state (status game)) eqn:Hs; simpl;
      try (split; [reflexivity|left; reflexivity]).
    destruct (activeColor (clocks game)) as [[|]|] eqn:Ha; simpl;
      rewrite ?andb_false_r, ?andb_true_r, ?orb_false_r; simpl.
    - destruct (snap_wRemainingMs _ <=? 0) eqn:E; simpl;
        [|split; [reflexivity|left; reflexivity]].
      split; [reflexivity|]. right. exists W.
      apply Z.leb_le in E. unfold active_expired. simpl.
      repeat split; auto.
    - destruct (snap_bRemainingMs _ <=? 0) eqn:E; simpl;
        [|split; [reflexivity|left; reflexivity]].
      split; [reflexivity|]. right. exists B.
      apply Z.leb_le in E. unfold active_expired. simpl.
      repeat split; auto.
    - split; [reflexivity|left; reflexivity]. }
  destruct Hmain as [Hflag Hcases].
  split; [exact Hflag|]. split; [exact Hcases|]. split.
  - intros c Hexp Hr Hs. apply (tickGame_expired game c atMs iso Hexp Hr Hs).
  - destruct Hcases as [Heq|[c [_ [_ [_ [Hst _]]]]]].
    + rewrite Heq. exact Heq.
    + rewrite tickGame_not_active; [reflexivity|].
      rewrite Hst. discriminate.
Qed.

Lemma existsb_eqb_In (x : string) (l : list string) :
  existsb (String.eqb x) l = true <-> In x l.
Proof.
  rewrite existsb_exists. split.
  - intros [y [Hin Hy]]. apply String.eqb_eq in Hy. subst. exact Hin.
  - intros Hin. exists x. split; [exact Hin|apply String.eqb_refl].
Qed.

Lemma dedupe_In (l : list string) :
  forall seen x, In x (dedupe seen l) <-> In x l /\ ~ In x seen.
Proof.
  induction l as [|y l IH]; intros seen x; simpl.
  - tauto.
  - destruct (existsb (String.eqb y) seen) eqn:E.
    + apply existsb_eqb_In in E. rewrite IH. split.
      * intros [H1 H2]. auto.
      * intros [[->|H1] H2]; [contradiction|auto].
    + assert (Hy : ~ In y seen)
        by (intros H; apply existsb_eqb_In in H; congruence).
      simpl. rewrite IH. simpl. split.
      * intros [<-|[H1 H2]]; [auto|]. split; [auto|]. intros H; apply H2; auto.
      * intros [[<-|H1] H2]; [auto|].
        destruct (String.eqb_spec y x) as [->|Hne]; [auto|].
        right. split; [exact H1|]. intros [H|H]; auto.
Qed.

Lemma dedupe_NoDup (l : list string) : forall seen, NoDup (dedupe seen l).
Proof.
  induction l as [|y l IH]; intros seen; simpl; [constructor|].
  destruct (existsb (String.eqb y) seen); [apply IH|].
  constructor; [|apply IH].
  intros H. apply dedupe_In in H. destruct H as [_ H]. apply H. left.
  reflexivity.
Qed.

Lemma tickAll_changed (st : GameStore) (atMs : Z) (iso : string) :
  fst (tickAll st atMs iso)
  = map (fun e => id (snd e))
      (filter (fun e => running (clocks (snd e))
                        && state_eqb (state (status (snd e))) Active) st).
Proof.
  induction st as [|[k g] st IH]; simpl; [reflexivity|].
  pose proof (tickGame_flag g atMs iso) as Hflag.
  pose proof (tickGame_id g atMs iso) as Hid.
  destruct (tickGame g atMs iso) as [g1 pushed].
  destruct (tickAll st atMs iso) as [changed rest1].
  simpl in *. rewrite <- Hflag.
  destruct pushed; simpl; rewrite IH; congruence.
Qed.

(** The sweep reports each id once, and reports exactly the ids of the
    sessions that were running and active when it started -- those it
    finalizes included, paused and finished ones never. *)
Theorem sweep_reports_running_sessions_once :
  forall (st : GameStore) (atMs : Z) (iso : string),
    NoDup (fst (tickClocks st atMs iso))
    /\ forall x,
         In x (fst (tickClocks st atMs iso))
         <-> exists k game,
               In (k, game) st
               /\ running (clocks game) = true
               /\ state (status game) = Active
               /\ id game = x.
Proof.
  intros st atMs iso. unfold tickClocks.
  pose proof (tickAll_changed st atMs iso) as Hc.
  destruct (tickAll st atMs iso) as [changed st1]. simpl in *. subst changed.
  split; [apply dedupe_NoDup|].
  intros x. rewrite dedupe_In, in_map_iff. split.
  - intros [[[k g] [Hid Hin]] _]. apply filter_In in Hin.
    destruct Hin as [Hin Hp]. simpl in *.
    apply andb_true_iff in Hp. destruct Hp as [Hr Hs].
    exists k, g. repeat split; auto.
    destruct (state (status g)); simpl in Hs; congruence.
  - intros [k [g [Hin [Hr [Hs Hid]]]]]. split; [|intros []].
    exists (k, g). split; [exact Hid|].
    apply filter_In. split; [exact Hin|]. simpl. rewrite Hr, Hs. reflexivity.
Qed.

End Sweep.

(** ** Joining and leaving *)

Section Seats.

Context {V : Validator}.

Lemma maybeStartGame_players (game : Game) (now : Z) :
  players (maybeStartGame game now) = players game
  /\ spectators (maybeStartGame game now) = spectators game.
Proof.
  unfold maybeStartGame.
  destruct (state_eqb _ _); [auto|].
  destruct (_ && _); [destruct (negb _)|destruct (running _)]; auto.
Qed.

Lemma strict_eq_truthy_seat (pid : string) (slotId : option string) :
  strict_eq (IdStr pid) slotId = true -> slotId = Some pid.
Proof.
  destruct slotId; simpl; try discriminate.
  intros H. apply String.eqb_eq in H. congruence.
Qed.

Lemma slot_set_slot (ps : Players) (c : Color) (p : Player) :
  slot (set_slot ps c p) c = p
  /\ slot (set_slot ps c p) (opponent c) = slot ps (opponent c).
Proof. destruct c; split; reflexivity. Qed.

Lemma rejoin_players (game : Game) (c : Color) (name : option string)
    (iso : string) (now : Z) :
  players (rejoin game c name iso now)
  = set_slot (players game) c
      {| pl_id := pl_id (slot (players game) c);
         pl_name := if truthy name then name
                    else pl_name (slot (players game) c);
         pl_present := true |}
  /\ spectators (rejoin game c name iso now) = spectators game.
Proof.
  unfold rejoin.
  match goal with
  | |- players (maybeStartGame ?g _) = _ /\ _ =>
      destruct (maybeStartGame_players g now) as [-> ->]
  end.
  simpl. destruct (truthy name); split; reflexivity.
Qed.

Lemma assignTo_players (game : Game) (c : Color) (name : option string)
    (freshId iso : string) (now : Z) :
  players (assignTo game c name freshId iso now)
  = set_slot (players game) c
      {| pl_id := Some freshId; pl_name := or_null name;
         pl_present := true |}
  /\ spectators (assignTo game c name freshId iso now) = spectators game.
Proof.
  unfold assignTo.
  match goal with
  | |- players (maybeStartGame ?g _) = _ /\ _ =>
      destruct (maybeStartGame_players g now) as [-> ->]
  end.
  split; reflexivity.
Qed.

(** A caller whose [playerId] is the id of a seat gets that seat back,
    with [present] set; no fresh id is used and nothing else about the
    seats changes. *)
Theorem join_reconnects_to_own_seat :
  forall (game : Game) (name : option string) (playerId : CallerId)
         (requestedColor : option string) (freshId iso : string) (now : Z)
         (c : Color),
    truthy_id playerId = true ->
    seat_of game playerId = Some c ->
    let game' :=
      fst (joinOn game name playerId requestedColor freshId iso now) in
    let part :=
      snd (joinOn game name playerId requestedColor freshId iso now) in
    IdStr (part_playerId part) = playerId
    /\ part_color part = Some c
    /\ part_role part = RolePlayer
    /\ pl_id (slot (players game') c) = Some (part_playerId part)
    /\ pl_present (slot (players game') c) = true
    /\ pl_name (slot (players game') c)
       = (if truthy name then name else pl_name (slot (players game) c))
    /\ slot (players game') (opponent c) = slot (players game) (opponent c)
    /\ spectators game' = spectators game.
Proof.
  intros game name playerId requestedColor freshId iso now c Ht Hseat.
  unfold seat_of in Hseat. unfold joinOn. rewrite Ht. cbn [andb].
  destruct playerId as [| |pid]; try discriminate Ht.
  destruct (strict_eq (IdStr pid) (pl_id (players_w (players game)))) eqn:Ew;
    cbn [orb fst snd part_playerId part_color part_role].
  - injection Hseat as <-.
    destruct (rejoin_players game W name iso now) as [-> ->].
    apply strict_eq_truthy_seat in Ew. simpl.
    repeat split; auto.
  - destruct (strict_eq (IdStr pid) (pl_id (players_b (players game)))) eqn:Eb;
      [|discriminate].
    cbn [orb fst snd part_playerId part_color part_role].
    injection Hseat as <-.
    destruct (rejoin_players game B name iso now) as [-> ->].
    apply strict_eq_truthy_seat in Eb. simpl.
    repeat split; auto.
Qed.

(** A caller who holds no seat is given the fresh id.  The seat is
    decided by the free slots and the request alone: the requested color
    when that slot is free; otherwise white when white is free; otherwise
    black when black is free; and no seat, as a spectator, exactly when
    both slots are occupied.  A seated newcomer is a player, its slot
    holds the fresh id, the name and [present], and the other slot is
    left alone; a spectator is added to the spectators and no seat
    changes. *)
Theorem join_new_participant :
  forall (game : Game) (name : option string) (playerId : CallerId)
         (requestedColor : option string) (freshId iso : string) (now : Z),
    truthy_id playerId && isPlayer game playerId = false ->
    let game' :=
      fst (joinOn game name playerId requestedColor freshId iso now) in
    let part :=
      snd (joinOn game name playerId requestedColor freshId iso now) in
    part_playerId part = freshId
    /\ (part_role part = RoleSpectator
        <-> slotAvailable game W = false /\ slotAvailable game B = false)
    /\ (part_role part = RoleSpectator ->
        part_color part = None
        /\ players game' = players game
        /\ spectators game'
           = JsMap.set (spectators game) freshId (or_null name))
    /\ (forall c,
          part_color part = Some c ->
          part_role part = RolePlayer
          /\ slotAvailable game c = true
          /\ slot (players game') c
             = {| pl_id := Some freshId; pl_name := or_null name;
                  pl_present := true |}
          /\ slot (players game') (opponent c)
             = slot (players game) (opponent c)
          /\ spectators game' = spectators game)
    /\ (forall d,
          normalizeColor requestedColor = Some d ->
          slotAvailable game d = true ->
          part_color part = Some d)
    /\ (slotAvailable game W = true ->
        (forall d, normalizeColor requestedColor = Some d ->
                   slotAvailable game d = false) ->
        part_color part = Some W)
    /\ (slotAvailable game W = false ->
        slotAvailable game B = true ->
        part_color part = Some B)
    /\ (part_color part = None
        <-> slotAvailable game W = false /\ slotAvailable game B = false)
    /\ (part_role part = RolePlayer
        <-> slotAvailable game W = true \/ slotAvailable game B = true)
    /\ part_color part
       = (let first_free :=
            if slotAvailable game W then Some W
            else if slotAvailable game B then Some B else None in
          match normalizeColor requestedColor with
          | Some d => if slotAvailable game d then Some d else first_free
          | None => first_free
          end).
Proof.
  intros game name playerId requestedColor freshId iso now Hrec.
  unfold isPlayer in Hrec. unfold joinOn. rewrite Hrec.
  assert (Hseat : forall c,
            slotAvailable game c = true ->
            slot (players (assignTo game c name freshId iso now)) c
            = {| pl_id := Some freshId; pl_name := or_null name;
                 pl_present := true |}
            /\ slot (players (assignTo game c name freshId iso now))
                 (opponent c)
               = slot (players game) (opponent c)
            /\ spectators (assignTo game c name freshId iso now)
               = spectators game).
  { intros c _. destruct (assignTo_players game c name freshId iso now)
      as [-> ->].
    destruct (slot_set_slot (players game) c
                {| pl_id := Some freshId; pl_name := or_null name;
                   pl_present := true |}) as [-> ->]. auto. }
  destruct (normalizeColor requestedColor) as [[|]|];
    destruct (slotAvailable game W) eqn:Aw;
    destruct (slotAvailable game B) eqn:Ab;
    cbn [fst snd part_playerId part_role part_color];
    (split; [reflexivity|]);
    (split;
     [split;
      [intros H; try discriminate H; auto
      |intros [H1 H2]; try discriminate H1; try discriminate H2; reflexivity]
     |]);
    (split; [intros H; try discriminate H; repeat split; reflexivity|]);
    (split;
     [intros c Hc;
      first [discriminate Hc
            |injection Hc as <-;
             split; [reflexivity|]; split; [assumption|];
             apply Hseat; assumption]
     |]);
    (split;
     [intros d Hd Hav; try discriminate Hd; try (injection Hd as <-);
      try reflexivity; congruence
     |]);
    (split;
     [intros Hw Hreq; try discriminate Hw; try reflexivity;
      specialize (Hreq _ eq_refl); congruence
     |]);
    (split; [intros Hw Hb; first [discriminate | reflexivity]|]);
    (split;
     [split;
      [intros H; first [discriminate H | split; reflexivity]
      |intros [H1 H2]; first [discriminate | reflexivity]]
     |]);
    (split;
     [split;
      [intros H; first [discriminate H | left; reflexivity
                       | right; reflexivity]
      |intros [H|H]; first [discriminate H | reflexivity]]
     |]);
    cbv zeta; rewrite ?Aw, ?Ab; reflexivity.
Qed.

(** A join never takes a seat from its holder: a slot that is occupied
    keeps its id, whoever joins. *)
Theorem join_never_displaces :
  forall (game : Game) (name : option string) (playerId : CallerId)
         (requestedColor : option string) (freshId iso : string) (now : Z)
         (c : Color),
    truthy (pl_id (slot (players game) c)) = true ->
    pl_id (slot (players
                  (fst (joinOn game name playerId requestedColor
                          freshId iso now))) c)
    = pl_id (slot (players game) c).
Proof.
  intros game name playerId requestedColor freshId iso now c Hocc.
  assert (Hseat : forall c1,
    slotAvailable game c1 = true ->
    pl_id (slot (players (assignTo game c1 name freshId iso now)) c)
    = pl_id (slot (players game) c)).
  { intros c1 Hav.
    destruct (assignTo_players game c1 name freshId iso now) as [-> _].
    unfold slotAvailable in Hav.
    destruct c, c1; cbn [slot set_slot players_w players_b] in *;
      try reflexivity; rewrite Hocc in Hav; discriminate. }
  unfold joinOn.
  destruct (truthy_id playerId && _) eqn:Hrec.
  - cbn [fst].
    match goal with
    | |- context [rejoin game ?col name iso now] =>
        destruct (rejoin_players game col name iso now) as [-> _]
    end.
    destruct c, (strict_eq playerId (pl_id (players_w (players game))));
      reflexivity.
  - destruct (normalizeColor requestedColor) as [d|];
      repeat match goal with
             | |- context [if slotAvailable game ?x then _ else _] =>
                 let E := fresh "E" in
                 destruct (slotAvailable game x) eqn:E
             end;
      cbn [fst]; auto.
Qed.

Lemma maybeStartGame_vacant_stops (game : Game) (now : Z) :
  state (status game) <> Finished ->
  both_seated game = false ->
  running (clocks (maybeStartGame game now)) = false.
Proof.
  intros Hs Hv. unfold maybeStartGame.
  destruct (state_eqb (state (status game)) Finished) eqn:Ef.
  { destruct (state (status game)); simpl in Ef; congruence. }
  unfold both_seated in Hv. rewrite Hv.
  change (running (clocks (with_state game Waiting)))
    with (running (clocks game)).
  destruct (running (clocks game)) eqn:Er; [reflexivity|exact Er].
Qed.

(** A leave with an id that is neither the id of a seat nor the id of a
    spectator is answered with 400 and changes nothing.  A leave of a
    seat empties that slot (id and name [null], not present) and touches
    neither the other slot nor the spectators; unless the session is
    finished it is then [waiting] with the clock stopped, and every move
    attempt, by anyone, is refused without any change until a seat is
    taken again.  A leave of a spectator removes that spectator and
    touches no seat. *)
Theorem leave_vacates_and_halts_play :
  forall (st : GameStore) (gameId : string) (game : Game)
         (playerId : CallerId) (iso : string) (now : Z),
    JsMap.get st gameId = Some game ->
    (seat_of game playerId = None ->
     (forall pid, playerId = IdStr pid ->
                  JsMap.has (spectators game) pid = false) ->
     leaveGame st gameId playerId iso now
     = (inl {| error := "Unknown playerId"; statusCode := 400 |}, st))
    /\ (forall c,
          seat_of game playerId = Some c ->
          exists game',
            leaveGame st gameId playerId iso now
            = (inr (publicState game' now), JsMap.set st gameId game')
            /\ slot (players game') c = empty_player
            /\ slot (players game') (opponent c)
               = slot (players game) (opponent c)
            /\ spectators game' = spectators game
            /\ (state (status game) <> Finished ->
                state (status game') = Waiting
                /\ running (clocks game') = false
                /\ forall who from_ to_ promotion_ at_ iso',
                     exists e,
                       makeMoveOn game' who from_ to_ promotion_ at_ iso'
                       = (inl e, game')))
    /\ (forall pid,
          playerId = IdStr pid ->
          seat_of game playerId = None ->
          JsMap.has (spectators game) pid = true ->
          exists game',
            leaveGame st gameId playerId iso now
            = (inr (publicState game' now), JsMap.set st gameId game')
            /\ players game' = players game
            /\ spectators game' = JsMap.delete (spectators game) pid).
Proof.
  intros st gameId game playerId iso now Hget.
  unfold leaveGame. rewrite Hget. unfold seat_of, leaveOn.
  split; [|split].
  - intros Hseat Hspec.
    destruct (strict_eq playerId (pl_id (players_w (players game))));
      [discriminate|].
    destruct (strict_eq playerId (pl_id (players_b (players game))));
      [discriminate|].
    destruct playerId as [| |pid]; try reflexivity.
    rewrite (Hspec pid eq_refl). reflexivity.
  - intros c Hseat.
    assert (Hvac : forall c0,
              let g1 := maybeStartGame
                          (with_updatedAt
                             (with_players game
                                (set_slot (players game) c0 empty_player))
                             iso) now in
              slot (players g1) c0 = empty_player
              /\ slot (players g1) (opponent c0)
                 = slot (players game) (opponent c0)
              /\ spectators g1 = spectators game
              /\ (state (status game) <> Finished ->
                  state (status g1) = Waiting
                  /\ running (clocks g1) = false
                  /\ forall who from_ to_ promotion_ at_ iso',
                       exists e,
                         makeMoveOn g1 who from_ to_ promotion_ at_ iso'
                         = (inl e, g1))).
    { intros c0 g1. subst g1.
      match goal with
      | |- slot (players (maybeStartGame ?g _)) _ = _ /\ _ =>
          destruct (maybeStartGame_players g now) as [Hp Hsp];
          pose proof (maybeStartGame_spec g now) as Hspec
      end.
      rewrite Hp, Hsp. cbn [with_updatedAt with_players players spectators].
      destruct (slot_set_slot (players game) c0 empty_player) as [-> ->].
      repeat (split; [reflexivity|]).
      intros Hnf. destruct (Hspec Hnf) as [_ [_ [Hwait [_ Hpause]]]].
      match type of Hwait with
      | state (status ?g1) = Waiting <-> _ =>
          assert (Hw : state (status g1) = Waiting)
      end.
      { apply Hwait. unfold both_seated. simpl.
        destruct c0; simpl; [reflexivity|apply andb_false_r]. }
      split; [exact Hw|]. split.
      - apply maybeStartGame_vacant_stops; [exact Hnf|].
        unfold both_seated. simpl.
        destruct c0; simpl; [reflexivity|apply andb_false_r].
      - intros who from_ to_ promotion_ at_ iso'.
        match goal with
        | |- exists e, makeMoveOn ?g1 _ _ _ _ _ _ = _ =>
            destruct (makeMoveOn_not_active g1 who from_ to_ promotion_
                        at_ iso') as [e [He _]]
        end.
        { rewrite Hw. discriminate. }
        exists e. exact He. }
    destruct (strict_eq playerId (pl_id (players_w (players game)))).
    + injection Hseat as <-. eexists. split; [reflexivity|]. apply (Hvac W).
    + destruct (strict_eq playerId (pl_id (players_b (players game))));
        [|discriminate].
      injection Hseat as <-. eexists. split; [reflexivity|]. apply (Hvac B).
  - intros pid -> Hseat Hhas.
    destruct (strict_eq (IdStr pid) (pl_id (players_w (players game))));
      [discriminate|].
    destruct (strict_eq (IdStr pid) (pl_id (players_b (players game))));
      [discriminate|].
    rewrite Hhas. eexists. split; [reflexivity|].
    match goal with
    | |- players (maybeStartGame ?g _) = _ /\ _ =>
        destruct (maybeStartGame_players g now) as [-> ->]
    end.
    split; reflexivity.
Qed.

End Seats.

(** ** The registry and its keys *)

Lemma JsMap_get_In {A} (m : JsMap.t A) (k : string) (v : A) :
  JsMap.get m k = Some v -> In (k, v) m.
Proof.
  induction m as [|[k0 v0] m IH]; simpl; [discriminate|].
  destruct (k0 =? k)%string eqn:E.
  - apply String.eqb_eq in E. intros [= <-]. left. congruence.
  - intros H. right. apply IH. exact H.
Qed.

Lemma JsMap_In_get {A} (m : JsMap.t A) (k : string) (v : A) :
  NoDup (map fst m) -> In (k, v) m -> JsMap.get m k = Some v.
Proof.
  induction m as [|[k0 v0] m IH]; simpl; [intros _ []|].
  intros Hnd [Heq|Hin].
  - injection Heq as -> ->. rewrite String.eqb_refl. reflexivity.
  - inversion Hnd as [|? ? Hnot Hnd']; subst.
    destruct (k0 =? k)%string eqn:E.
    + apply String.eqb_eq in E. subst k0. exfalso. apply Hnot.
      apply (in_map fst) in Hin. exact Hin.
    + apply IH; assumption.
Qed.

Lemma JsMap_set_absent {A} (m : JsMap.t A) (k : string) (v : A) :
  ~ In k (map fst m) -> JsMap.set m k v = (m ++ [(k, v)])%list.
Proof.
  induction m as [|[k0 v0] m IH]; simpl; [reflexivity|].
  intros Hnot. destruct (k0 =? k)%string eqn:E.
  - apply String.eqb_eq in E. subst. exfalso. apply Hnot. left. reflexivity.
  - rewrite IH; [reflexivity|]. intros H. apply Hnot. right. exact H.
Qed.

Lemma JsMap_set_keys {A} (m : JsMap.t A) (k : string) (v : A) :
  In k (map fst m) -> map fst (JsMap.set m k v) = map fst m.
Proof.
  induction m as [|[k0 v0] m IH]; simpl; [intros []|].
  intros Hin. destruct (k0 =? k)%string eqn:E.
  - apply String.eqb_eq in E. subst. reflexivity.
  - simpl. rewrite IH; [reflexivity|].
    destruct Hin as [Heq|Hin]; [|exact Hin].
    apply String.eqb_neq in E. contradiction.
Qed.

Lemma JsMap_set_NoDup {A} (m : JsMap.t A) (k : string) (v : A) :
  NoDup (map fst m) -> NoDup (map fst (JsMap.set m k v)).
Proof.
  intros Hnd. destruct (in_dec string_dec k (map fst m)) as [Hin|Hnot].
  - rewrite JsMap_set_keys; assumption.
  - rewrite JsMap_set_absent by assumption.
    rewrite map_app. simpl.
    apply NoDup_app; [exact Hnd|repeat constructor; intros []|].
    intros x Hx [<-|[]]. contradiction.
Qed.

Lemma JsMap_set_Forall {A} (P : string * A -> Prop) (m : JsMap.t A)
    (k : string) (v : A) :
  Forall P m -> P (k, v) -> Forall P (JsMap.set m k v).
Proof.
  intros Hm Hv. induction Hm as [|[k0 v0] m H0 Hm IH]; simpl.
  - constructor; [exact Hv|constructor].
  - destruct (k0 =? k)%string; constructor; assumption.
Qed.

Section RegistryKeys.

Context {V : Validator}.

Lemma store_keys_set (st : GameStore) (k : string) (game : Game) :
  store_keys_ok st -> id game = k -> k <> "" ->
  store_keys_ok (JsMap.set st k game).
Proof.
  intros [Hnd Hall] Hid Hne. split.
  - apply JsMap_set_NoDup. exact Hnd.
  - apply JsMap_set_Forall; [exact Hall|]. simpl. auto.
Qed.

Lemma store_keys_get (st : GameStore) (k : string) (game : Game) :
  store_keys_ok st -> JsMap.get st k = Some game -> id game = k /\ k <> "".
Proof.
  intros [_ Hall] Hget. apply JsMap_get_In in Hget.
  rewrite Forall_forall in Hall. apply (Hall _ Hget).
Qed.

Lemma joinOn_id (game : Game) (name : option string)
    (playerId : CallerId)
    (requestedColor : option string)
    (freshId iso : string) (now : Z) :
  id (fst (joinOn game name playerId requestedColor freshId iso now))
  = id game.
Proof.
  destruct (joinOn game name playerId requestedColor freshId iso now)
    as [game' part] eqn:E.
  destruct (joinOn_cases _ _ _ _ _ _ _ _ _ E) as [[_ Hs]|[_ ->]]; simpl;
    [|reflexivity].
  unfold joinOn in E.
  destruct (truthy_id playerId && _); [injection E as <- _; unfold rejoin;
                                    rewrite maybeStartGame_id; reflexivity|].
  destruct (normalizeColor requestedColor) as [desired|];
    repeat match type of E with
           | (if ?b then _ else _) = _ => destruct b
           end;
    injection E as <- _; unfold assignTo, addSpectator;
    rewrite ?maybeStartGame_id; reflexivity.
Qed.

Lemma leaveOn_id (game game' : Game) (playerId : CallerId)
    (iso : string) (now : Z) :
  leaveOn game playerId iso now = Some game' -> id game' = id game.
Proof.
  unfold leaveOn.
  destruct (strict_eq playerId (pl_id (players_w (players game))));
    [intros [= <-]; rewrite maybeStartGame_id; reflexivity|].
  destruct (strict_eq playerId (pl_id (players_b (players game))));
    [intros [= <-]; rewrite maybeStartGame_id; reflexivity|].
  destruct playerId as [| |pid]; try discriminate.
  destruct (JsMap.has (spectators game) pid); [|discriminate].
  intros [= <-]. rewrite maybeStartGame_id. reflexivity.
Qed.

Lemma applyAccepted_id (game : Game) (color : Color) (c' : Chess)
    (mv : Move) (at_ : Z) (iso : string) :
  id (applyAccepted game color c' mv at_ iso) = id game.
Proof.
  unfold applyAccepted. cbv zeta.
  destruct (moveCursor _ <? _);
    cbn [with_chess with_moves with_moveCursor with_clocks with_status
         with_state with_updatedAt clocks chess];
    destruct (computeTermination c'); reflexivity.
Qed.

Lemma makeMoveOn_id (game : Game) (playerId : CallerId)
    (from_ to_ : string) (promotion_ : option string) (at_ : Z)
    (iso : string) :
  id (snd (makeMoveOn game playerId from_ to_ promotion_ at_ iso)) = id game.
Proof.
  unfold makeMoveOn.
  destruct (assertPlayerCanMove game playerId); [reflexivity|].
  unfold commitClockBeforeMove.
  destruct (snap_wRemainingMs _ <=? 0); [reflexivity|].
  destruct (snap_bRemainingMs _ <=? 0); [reflexivity|].
  destruct (chess_move _ _) as [[c' mv]|]; [|reflexivity].
  cbn [snd]. rewrite applyAccepted_id. reflexivity.
Qed.

Lemma replayAt_id (game game' : Game) (cursor : Z) (iso : string) :
  replayAt game cursor iso = Some game' -> id game' = id game.
Proof.
  unfold replayAt, rebuildChess.
  destruct (replay _ _ _); [|discriminate]. intros [= <-]. reflexivity.
Qed.

Lemma undoOn_id (game game' : Game) (playerId : CallerId) (iso : string)
    (now : Z) (res : Result PublicState) :
  undoOn game playerId iso now = Some (res, game') -> id game' = id game.
Proof.
  unfold undoOn.
  destruct (running (clocks game)); [intros [= _ <-]; reflexivity|].
  destruct (negb _); [intros [= _ <-]; reflexivity|].
  destruct (moveCursor game <=? 0); [intros [= _ <-]; reflexivity|].
  destruct (replayAt game _ iso) as [g1|] eqn:E; [|discriminate].
  intros [= _ <-]. apply (replayAt_id _ _ _ _ E).
Qed.

Lemma redoOn_id (game game' : Game) (playerId : CallerId) (iso : string)
    (now : Z) (res : Result PublicState) :
  redoOn game playerId iso now = Some (res, game') -> id game' = id game.
Proof.
  unfold redoOn.
  destruct (running (clocks game)); [intros [= _ <-]; reflexivity|].
  destruct (negb _); [intros [= _ <-]; reflexivity|].
  destruct (moveCursor game >=? _); [intros [= _ <-]; reflexivity|].
  destruct (replayAt game _ iso) as [g1|] eqn:E; [|discriminate].
  intros [= _ <-]. apply (replayAt_id _ _ _ _ E).
Qed.

Lemma tickAll_keys (st : GameStore) (atMs : Z) (iso : string) :
  store_keys_ok st -> store_keys_ok (snd (tickAll st atMs iso)).
Proof.
  intros [Hnd Hall].
  assert (Hk : map fst (snd (tickAll st atMs iso)) = map fst st).
  { clear. induction st as [|[k g] st IH]; simpl; [reflexivity|].
    destruct (tickGame g atMs iso) as [g1 pushed].
    destruct (tickAll st atMs iso) as [changed rest1].
    simpl in *. rewrite IH. reflexivity. }
  split; [rewrite Hk; exact Hnd|].
  clear Hk Hnd. induction Hall as [|[k g] st H0 Hall IH]; simpl;
    [constructor|].
  pose proof (tickGame_id g atMs iso) as Hid.
  destruct (tickGame g atMs iso) as [g1 pushed].
  destruct (tickAll st atMs iso) as [changed rest1].
  simpl in *. constructor; [|exact IH]. simpl. rewrite Hid. exact H0.
Qed.

Lemma deserializeGame_id (sg : Serialized) (iso : string) (game : Game) :
  deserializeGame sg iso = Some game -> id game = s_id sg.
Proof.
  unfold deserializeGame.
  destruct (replay _ _ _); [|discriminate].
  destruct (is_scalar _); [discriminate|]. intros [= <-]. reflexivity.
Qed.

Lemma truthy_Some (x : string) : truthy (Some x) = true <-> x <> "".
Proof.
  simpl. destruct (String.eqb_spec x ""); simpl; split; congruence.
Qed.

Lemma loadInto_keys (l : list Serialized) (iso : string) :
  forall next : GameStore,
    store_keys_ok next -> store_keys_ok (loadInto next l iso).
Proof.
  induction l as [|sg l IH]; intros next Hnext; cbn [loadInto];
    [exact Hnext|].
  destruct (truthy (Some (s_id sg))) eqn:Et; cbn [negb];
    [|apply IH; exact Hnext].
  destruct (deserializeGame sg iso) as [game|] eqn:E; [|apply IH; exact Hnext].
  apply IH. apply store_keys_set; [exact Hnext|reflexivity|].
  rewrite (deserializeGame_id _ _ _ E). apply truthy_Some. exact Et.
Qed.

(** Every operation keeps each session stored under its own id, with no
    empty key and no key twice, provided a create is given an id that is
    not empty. *)
Theorem run_keeps_sessions_under_their_id :
  forall (st st' : GameStore) (op : Op),
    store_keys_ok st ->
    create_id_ok op ->
    run st op = Some st' ->
    store_keys_ok st'.
Proof.
  intros st st' op Hst Hcreate Hrun.
  destruct op; simpl in Hrun, Hcreate.
  - injection Hrun as <-. unfold createGame, createNewGame. simpl.
    apply store_keys_set; [exact Hst|reflexivity|].
    rewrite maybeStartGame_id. exact Hcreate.
  - injection Hrun as <-. unfold joinGame.
    destruct (JsMap.get st gameId) as [game|] eqn:Hget; [|exact Hst].
    pose proof (joinOn_id game name playerId requestedColor
                  freshId iso now) as Hid.
    destruct (joinOn _ _ _ _ _ _ _) as [game1 part]. simpl in *.
    destruct (store_keys_get _ _ _ Hst Hget) as [Hk Hne].
    apply store_keys_set; [exact Hst|congruence|exact Hne].
  - injection Hrun as <-. unfold leaveGame.
    destruct (JsMap.get st gameId) as [game|] eqn:Hget; [|exact Hst].
    destruct (leaveOn game playerId iso now) as [game1|] eqn:Hl; [|exact Hst].
    simpl. destruct (store_keys_get _ _ _ Hst Hget) as [Hk Hne].
    apply store_keys_set; [exact Hst| |exact Hne].
    rewrite (leaveOn_id _ _ _ _ _ Hl). exact Hk.
  - injection Hrun as <-. unfold makeMove.
    destruct (JsMap.get st gameId) as [game|] eqn:Hget; [|exact Hst].
    pose proof (makeMoveOn_id game playerId from_ to_ promotion_ at_ iso)
      as Hid.
    destruct (makeMoveOn _ _ _ _ _ _ _) as [res game1]. simpl in *.
    destruct (store_keys_get _ _ _ Hst Hget) as [Hk Hne].
    apply store_keys_set; [exact Hst|congruence|exact Hne].
  - unfold undo in Hrun.
    destruct (JsMap.get st gameId) as [game|] eqn:Hget;
      [|injection Hrun as <-; exact Hst].
    destruct (undoOn game playerId iso now) as [[res game1]|] eqn:Hu;
      [|discriminate].
    injection Hrun as <-.
    destruct (store_keys_get _ _ _ Hst Hget) as [Hk Hne].
    apply store_keys_set; [exact Hst| |exact Hne].
    rewrite (undoOn_id _ _ _ _ _ _ Hu). exact Hk.
  - unfold redo in Hrun.
    destruct (JsMap.get st gameId) as [game|] eqn:Hget;
      [|injection Hrun as <-; exact Hst].
    destruct (redoOn game playerId iso now) as [[res game1]|] eqn:Hu;
      [|discriminate].
    injection Hrun as <-.
    destruct (store_keys_get _ _ _ Hst Hget) as [Hk Hne].
    apply store_keys_set; [exact Hst| |exact Hne].
    rewrite (redoOn_id _ _ _ _ _ _ Hu). exact Hk.
  - injection Hrun as <-. unfold tickClocks.
    pose proof (tickAll_keys st atMs iso Hst) as H.
    destruct (tickAll st atMs iso). exact H.
  - injection Hrun as <-. exact Hst.
  - injection Hrun as <-. unfold loadFromDisk. simpl.
    apply loadInto_keys. split; constructor.
Qed.

End RegistryKeys.

(** ** Loading and saving the registry *)

Section Persistence.

Context {V : Validator}.

Lemma replay_in_range (ms : list MoveRecord) :
  forall (n : nat) (c : Chess),
    (n <= List.length ms)%nat -> exists c', replay c ms n = Some c'.
Proof.
  intros n c Hn. rewrite replay_firstn by exact Hn. eauto.
Qed.

(** Reading a snapshot raises exactly when its status is a truthy scalar:
    whatever cursor it carries, the cursor is clamped into the move list
    before the replay. *)
Lemma deserializeGame_raises (sg : Serialized) (iso : string) :
  deserializeGame sg iso = None <-> s_status sg = StatusScalar.
Proof.
  unfold deserializeGame.
  match goal with
  | |- context [replay ?c ?ms ?n] =>
      destruct (replay_in_range ms n c) as [c' Hc']
  end.
  { destruct (s_moveCursor sg); lia. }
  rewrite Hc'. destruct (s_status sg); cbn [is_scalar];
    split; intros H; first [reflexivity | discriminate].
Qed.

Lemma snapshot_is_read_back (sg : Serialized) (iso : string) :
  s_status sg <> StatusScalar ->
  exists game, deserializeGame sg iso = Some game.
Proof.
  intros Hs. destruct (deserializeGame sg iso) as [game|] eqn:E; [eauto|].
  apply deserializeGame_raises in E. contradiction.
Qed.

Lemma reload_spec (game : Game) (iso : string) :
  deserializeGame (serializeGame game) iso = Some (reload game iso).
Proof.
  unfold reload.
  destruct (snapshot_is_read_back (serializeGame game) iso) as [g ->];
    [discriminate|reflexivity].
Qed.

Lemma deserializeGame_freshly_loaded (sg : Serialized) (iso : string)
    (game : Game) :
  deserializeGame sg iso = Some game -> freshly_loaded game.
Proof.
  intros E. pose proof (deserializeGame_cursor_ok _ _ _ E) as [Hok _].
  revert E. unfold deserializeGame.
  destruct (replay _ _ _) as [c|]; [|discriminate].
  destruct (is_scalar _); [discriminate|].
  intros [= <-]. unfold freshly_loaded. simpl in *.
  repeat (split; [reflexivity|]). split; [|exact Hok].
  destruct (computeTermination c) as [t|] eqn:Et.
  - left. split; [reflexivity|].
    destruct (isGameOver c) eqn:Eo; [reflexivity|].
    apply computeTermination_None in Eo. congruence.
  - right. split; [reflexivity|]. apply computeTermination_None. exact Et.
Qed.

Lemma loadInto_Forall (P : string * Game -> Prop) (l : list Serialized)
    (iso : string) :
  (forall sg game, In sg l -> s_id sg <> "" ->
                   deserializeGame sg iso = Some game -> P (id game, game)) ->
  forall next : GameStore, Forall P next -> Forall P (loadInto next l iso).
Proof.
  induction l as [|sg l IH]; intros HP next Hnext; cbn [loadInto];
    [exact Hnext|].
  assert (HP' : forall sg0 game, In sg0 l -> s_id sg0 <> "" ->
                  deserializeGame sg0 iso = Some game -> P (id game, game))
    by (intros sg0 g Hin; apply HP; right; exact Hin).
  destruct (truthy (Some (s_id sg))) eqn:Et; cbn [negb];
    [|apply IH; assumption].
  destruct (deserializeGame sg iso) as [game|] eqn:E; [|apply IH; assumption].
  apply IH; [exact HP'|].
  apply JsMap_set_Forall; [exact Hnext|].
  apply (HP sg game); [left; reflexivity|apply truthy_Some; exact Et|exact E].
Qed.

Lemma loadInto_app (l1 l2 : list Serialized) (iso : string) :
  forall next : GameStore,
    loadInto next (l1 ++ l2) iso = loadInto (loadInto next l1 iso) l2 iso.
Proof.
  induction l1 as [|sg0 l1 IH]; intros next; [reflexivity|].
  cbn [app loadInto].
  destruct (negb (truthy (Some (s_id sg0)))); [apply IH|].
  destruct (deserializeGame sg0 iso); apply IH.
Qed.

(** A session of the map being built stays as long as no later record
    with its id is read. *)
Lemma loadInto_keeps (l : list Serialized) (iso : string) (k : string)
    (game : Game) :
  (forall sg, In sg l -> s_id sg = k -> deserializeGame sg iso = None) ->
  forall next : GameStore,
    JsMap.get next k = Some game ->
    JsMap.get (loadInto next l iso) k = Some game.
Proof.
  induction l as [|sg0 l IH]; intros Hnone next Hget; cbn [loadInto];
    [exact Hget|].
  assert (Hnone' : forall sg, In sg l -> s_id sg = k ->
                              deserializeGame sg iso = None)
    by (intros sg Hin; apply Hnone; right; exact Hin).
  destruct (negb (truthy (Some (s_id sg0)))); [apply IH; assumption|].
  destruct (deserializeGame sg0 iso) as [g0|] eqn:E; [|apply IH; assumption].
  apply IH; [exact Hnone'|].
  rewrite JsMap_get_set.
  destruct (String.eqb_spec (id g0) k) as [Heq|_]; [|exact Hget].
  rewrite (deserializeGame_id _ _ _ E) in Heq.
  rewrite (Hnone sg0 (or_introl eq_refl) Heq) in E. discriminate.
Qed.

(** A load replaces the registry by sessions that are all stopped: clock
    not running, no active color, no anchor, nobody present, state
    [finished] when the replayed position is over and otherwise [waiting]
    with no winner and no reason, cursor within the move list.  Each is
    stored under its id, which is not empty, and was read from a record
    of the file with that id.  A record is skipped when its id is empty
    or when reading it raises, which is when its status is a truthy
    scalar; of the records with one id the last one that can be read is
    kept, wherever it stands in the file; an id whose records all raise
    is not in the registry.  The count returned is the number of
    sessions. *)
Theorem load_gives_stopped_sessions :
  forall (disk : list Serialized) (iso : string),
    let st := snd (loadFromDisk disk iso) in
    fst (loadFromDisk disk iso) = List.length st
    /\ store_keys_ok st
    /\ (forall k game,
          JsMap.get st k = Some game ->
          freshly_loaded game
          /\ k <> ""
          /\ exists sg,
               In sg disk /\ s_id sg = k
               /\ deserializeGame sg iso = Some game)
    /\ (forall sg,
          deserializeGame sg iso = None <-> s_status sg = StatusScalar)
    /\ (forall l1 sg l2 game,
          disk = (l1 ++ sg :: l2)%list ->
          s_id sg <> "" ->
          deserializeGame sg iso = Some game ->
          (forall sg', In sg' l2 -> s_id sg' = s_id sg ->
                       deserializeGame sg' iso = None) ->
          JsMap.get st (s_id sg) = Some game)
    /\ (forall k,
          (forall sg, In sg disk -> s_id sg = k ->
                      deserializeGame sg iso = None) ->
          JsMap.get st k = None).
Proof.
  intros disk iso st. subst st. unfold loadFromDisk. cbn [fst snd].
  assert (Hfrom : forall k game,
    JsMap.get (loadInto JsMap.empty disk iso) k = Some game ->
    freshly_loaded game
    /\ k <> ""
    /\ exists sg,
         In sg disk /\ s_id sg = k /\ deserializeGame sg iso = Some game).
  { intros k game Hget. apply JsMap_get_In in Hget.
    pose proof (loadInto_Forall
                  (fun e => freshly_loaded (snd e) /\ fst e <> ""
                            /\ exists sg, In sg disk /\ s_id sg = fst e
                                 /\ deserializeGame sg iso = Some (snd e))
                  disk iso) as H.
    assert (HP : Forall
                   (fun e : string * Game =>
                      freshly_loaded (snd e) /\ fst e <> ""
                      /\ exists sg, In sg disk /\ s_id sg = fst e
                           /\ deserializeGame sg iso = Some (snd e))
                   (loadInto JsMap.empty disk iso)).
    { apply H; [|constructor].
      intros sg g Hin Hne E. simpl.
      rewrite (deserializeGame_id _ _ _ E).
      split; [apply (deserializeGame_freshly_loaded _ _ _ E)|].
      split; [exact Hne|]. exists sg. auto. }
    rewrite Forall_forall in HP. apply (HP _ Hget). }
  split; [reflexivity|].
  split; [apply loadInto_keys; split; constructor|].
  split; [exact Hfrom|].
  split; [intros sg; apply deserializeGame_raises|].
  split.
  - intros l1 sg l2 game -> Hne Hsome Hlater.
    rewrite loadInto_app. cbn [loadInto].
    apply truthy_Some in Hne. rewrite Hne. cbn [negb]. rewrite Hsome.
    apply (loadInto_keeps l2 iso (s_id sg) game Hlater).
    rewrite (deserializeGame_id _ _ _ Hsome). apply JsMap_get_set_same.
  - intros k Hnone.
    destruct (JsMap.get (loadInto JsMap.empty disk iso) k) as [game|] eqn:E;
      [|reflexivity].
    destruct (Hfrom k game E) as [_ [_ [sg [Hin [Hid Hsome]]]]].
    rewrite (Hnone sg Hin Hid) in Hsome. discriminate.
Qed.

Lemma reload_id (game : Game) (iso : string) : id (reload game iso) = id game.
Proof.
  apply (deserializeGame_id _ _ _ (reload_spec game iso)).
Qed.

Lemma loadInto_saved (st : GameStore) (iso : string) :
  forall acc : GameStore,
    NoDup (map fst acc ++ map fst st) ->
    Forall (fun e => id (snd e) = fst e /\ fst e <> "") st ->
    loadInto acc (map serializeGame (JsMap.values st)) iso
    = (acc ++ map (fun e => (fst e, reload (snd e) iso)) st)%list.
Proof.
  unfold JsMap.values.
  induction st as [|[k g] st IH]; intros acc Hnd Hall;
    cbn [map loadInto snd fst].
  - rewrite app_nil_r. reflexivity.
  - inversion Hall as [|? ? [Hid Hne] Hall']; subst. simpl in Hid, Hne.
    change (s_id (serializeGame g)) with (id g).
    rewrite Hid. apply truthy_Some in Hne. rewrite Hne. cbn [negb].
    rewrite reload_spec, reload_id, Hid.
    assert (Hnot : ~ In k (map fst acc)).
    { intros Hin. simpl in Hnd. apply NoDup_remove_2 in Hnd. apply Hnd.
      apply in_or_app. left. exact Hin. }
    rewrite (JsMap_set_absent _ _ _ Hnot).
    rewrite IH; [|rewrite map_app, <- app_assoc; exact Hnd|exact Hall'].
    rewrite <- app_assoc. reflexivity.
Qed.

(** Saving the registry and loading what was saved gives a registry with
    the same keys in the same order, each session being the one read back
    from its own snapshot; the count returned is the number of sessions
    saved. *)
Theorem save_then_load_keeps_every_session :
  forall (st : GameStore) (iso : string),
    store_keys_ok st ->
    snd (loadFromDisk (saveToDisk st) iso)
    = map (fun e => (fst e, reload (snd e) iso)) st
    /\ fst (loadFromDisk (saveToDisk st) iso) = List.length st
    /\ (forall k game,
          JsMap.get st k = Some game ->
          JsMap.get (snd (loadFromDisk (saveToDisk st) iso)) k
          = deserializeGame (serializeGame game) iso).
Proof.
  intros st iso [Hnd Hall].
  assert (Heq : snd (loadFromDisk (saveToDisk st) iso)
                = map (fun e => (fst e, reload (snd e) iso)) st).
  { unfold loadFromDisk, saveToDisk. cbn [snd].
    rewrite (loadInto_saved st iso JsMap.empty); [reflexivity|exact Hnd|
                                                   exact Hall]. }
  split; [exact Heq|]. split.
  - unfold loadFromDisk in *. cbn [fst snd] in *. unfold JsMap.size.
    rewrite Heq. apply length_map.
  - intros k game Hget. rewrite Heq, reload_spec.
    apply JsMap_In_get.
    + rewrite map_map. simpl. exact Hnd.
    + apply JsMap_get_In in Hget.
      apply (in_map (fun e => (fst e, reload (snd e) iso))) in Hget.
      exact Hget.
Qed.

End Persistence.

(** ** Creating a session *)

Section Creation.

Context {V : Validator}.

Lemma maybeStartGame_new_session (creatorName creatorColor : option string)
    (timeControl : option TimeControl)
    (gameId creatorPlayerId iso : string) (now : Z) :
  maybeStartGame
    (new_session creatorName creatorColor timeControl gameId
       creatorPlayerId iso) now
  = new_session creatorName creatorColor timeControl gameId
      creatorPlayerId iso.
Proof.
  unfold new_session, createNewGame, maybeStartGame.
  cbn -[truthy or_null tc_field Z.max].
  destruct (normalizeColor creatorColor) as [[|]|];
    cbn -[truthy or_null tc_field Z.max];
    destruct (truthy (Some creatorPlayerId)); reflexivity.
Qed.

Lemma createGame_new_session (st : GameStore)
    (creatorName creatorColor : option string)
    (timeControl : option TimeControl)
    (gameId creatorPlayerId iso : string) (now : Z) :
  createGame st creatorName creatorColor timeControl gameId
    creatorPlayerId iso now
  = ({| cr_gameId := gameId;
        cr_player := {| part_playerId := creatorPlayerId;
                        part_color := Some (creator_color creatorColor);
                        part_role := RolePlayer |};
        cr_state :=
          publicState (new_session creatorName creatorColor timeControl
                         gameId creatorPlayerId iso) now |},
     JsMap.set st gameId
       (new_session creatorName creatorColor timeControl gameId
          creatorPlayerId iso)).
Proof.
  unfold createGame.
  pose proof (maybeStartGame_new_session creatorName creatorColor
                timeControl gameId creatorPlayerId iso now) as Hm.
  unfold new_session in Hm. unfold new_session.
  unfold creator_color.
  destruct (createNewGame creatorName creatorColor timeControl gameId
              creatorPlayerId iso) as [[game0 pid] c0] eqn:E.
  cbn [fst] in *. rewrite Hm.
  unfold createNewGame in E. injection E as <- <- <-. reflexivity.
Qed.

(** A create always gives a session that waits: the creator sits on the
    requested color (white when none or another word is given), the other
    slot is empty, there are no moves and no spectators, the clock is
    stopped, and both players get the initial time, which like the
    increment is clamped at zero and defaults to 300000 ms and 2000 ms.
    The answer carries the creator's id and color and the public state of
    that session, and no other session of the registry is touched. *)
Theorem create_gives_waiting_session :
  forall (st : GameStore) (creatorName creatorColor : option string)
         (timeControl : option TimeControl)
         (gameId creatorPlayerId iso : string) (now : Z),
    let game := new_session creatorName creatorColor timeControl gameId
                  creatorPlayerId iso in
    let color := creator_color creatorColor in
    let initial := Z.max 0 (tc_field timeControl tc_initialMs 300000) in
    createGame st creatorName creatorColor timeControl gameId
      creatorPlayerId iso now
    = ({| cr_gameId := gameId;
          cr_player := {| part_playerId := creatorPlayerId;
                          part_color := Some color;
                          part_role := RolePlayer |};
          cr_state := publicState game now |},
       JsMap.set st gameId game)
    /\ id game = gameId
    /\ status game = reset_status
    /\ slot (players game) color
       = {| pl_id := Some creatorPlayerId; pl_name := or_null creatorName;
            pl_present := true |}
    /\ slot (players game) (opponent color) = empty_player
    /\ moves game = [] /\ moveCursor game = 0
    /\ chess game = new_Chess None
    /\ spectators game = JsMap.empty
    /\ clocks game
       = {| initialMs := initial;
            incrementMs := Z.max 0 (tc_field timeControl tc_incrementMs 2000);
            wRemainingMs := initial; bRemainingMs := initial;
            activeColor := None; running := false; lastTickAt := None |}
    /\ 0 <= initial
    /\ (timeControl = None -> initial = 300000)
    /\ (forall k, k <> gameId ->
                  JsMap.get (JsMap.set st gameId game) k = JsMap.get st k).
Proof.
  intros st creatorName creatorColor timeControl gameId creatorPlayerId iso
         now game color initial.
  split.
  - subst game color. apply createGame_new_session.
  - subst game color initial.
    unfold new_session, createNewGame, creator_color.
    destruct (normalizeColor creatorColor) as [[|]|];
      cbn -[or_null tc_field Z.max];
      repeat (split; [reflexivity|]);
      (split; [lia|]);
      (split; [intros ->; reflexivity|]);
      intros k Hk; rewrite JsMap_get_set;
      destruct (String.eqb_spec gameId k); congruence.
Qed.

End Creation.

(** ** Matchmaking *)

Section Matchmaking.

Context {V : Validator}.

Lemma existsb_socket (q : Queue) (sid : string) :
  existsb (fun e => (socketId e =? sid)%string) q = true
  <-> In sid (map socketId q).
Proof.
  rewrite existsb_exists, in_map_iff. split.
  - intros [e [Hin He]]. apply String.eqb_eq in He. eauto.
  - intros [e [He Hin]]. exists e. split; [exact Hin|].
    apply String.eqb_eq. exact He.
Qed.

Lemma dequeue_sockets (q : Queue) (sid x : string) :
  In x (map socketId (dequeue q sid)) -> In x (map socketId q).
Proof.
  induction q as [|e q IH]; simpl; [auto|].
  destruct (socketId e =? sid)%string; simpl; tauto.
Qed.

(** The queue holds a socket at most once.  A second request by a socket
    that is already waiting changes nothing, not even its payload; a new
    socket is put last.  A cancel or disconnect removes the entry of the
    socket and nothing else: the entries before it and the entries behind
    it stay, in their order, so that what is left is the queue without
    the entries of that socket; removing a socket that just joined the
    queue gives the queue back. *)
Theorem queue_holds_each_socket_once :
  forall (q : Queue) (sid : string) (p : option MatchPayload),
    queue_ok q ->
    queue_ok (enqueue q sid p)
    /\ In sid (map socketId (enqueue q sid p))
    /\ (forall p', enqueue (enqueue q sid p) sid p' = enqueue q sid p)
    /\ (In sid (map socketId q) -> enqueue q sid p = q)
    /\ (~ In sid (map socketId q) ->
        enqueue q sid p
        = (q ++ [ {| socketId := sid; payload := payload_or_empty p |} ])%list
        /\ dequeue (enqueue q sid p) sid = q
        /\ dequeue q sid = q)
    /\ queue_ok (dequeue q sid)
    /\ ~ In sid (map socketId (dequeue q sid))
    /\ (List.length (dequeue q sid) <= List.length q)%nat
    /\ (forall l1 e l2,
          q = (l1 ++ e :: l2)%list ->
          socketId e = sid ->
          dequeue q sid = (l1 ++ l2)%list)
    /\ dequeue q sid
       = filter (fun e => negb (socketId e =? sid)%string) q.
Proof.
  intros q sid p Hok.
  assert (Hsplit : forall l1 e l2,
            ~ In sid (map socketId l1) ->
            socketId e = sid ->
            dequeue (l1 ++ e :: l2)%list sid = (l1 ++ l2)%list).
  { induction l1 as [|e0 l1 IH]; intros e l2 Hnot He; cbn [app dequeue].
    - rewrite He, String.eqb_refl. reflexivity.
    - destruct (String.eqb_spec (socketId e0) sid) as [E|E].
      + exfalso. apply Hnot. left. exact E.
      + rewrite IH; [reflexivity| |exact He].
        intros H. apply Hnot. right. exact H. }
  assert (Hkeep : forall q0,
            ~ In sid (map socketId q0) ->
            filter (fun e => negb (socketId e =? sid)%string) q0 = q0).
  { induction q0 as [|e0 q0 IH]; intros Hnot; cbn [filter]; [reflexivity|].
    destruct (String.eqb_spec (socketId e0) sid) as [E|E].
    - exfalso. apply Hnot. left. exact E.
    - cbn [negb]. rewrite IH; [reflexivity|].
      intros H. apply Hnot. right. exact H. }
  assert (Hfilter : dequeue q sid
                    = filter (fun e => negb (socketId e =? sid)%string) q).
  { unfold queue_ok in Hok. clear Hsplit.
    induction q as [|e0 q IH]; cbn [dequeue filter map] in *; [reflexivity|].
    inversion Hok as [|? ? Hnot Hok']; subst.
    destruct (String.eqb_spec (socketId e0) sid) as [E|E]; cbn [negb].
    - rewrite Hkeep; [reflexivity|]. rewrite <- E. exact Hnot.
    - rewrite (IH Hok'). reflexivity. }
  assert (Hden : forall q0, ~ In sid (map socketId q0) -> dequeue q0 sid = q0).
  { induction q0 as [|e q0 IH]; simpl; [reflexivity|].
    intros Hnot. destruct (String.eqb_spec (socketId e) sid) as [E|E].
    - exfalso. apply Hnot. left. exact E.
    - rewrite IH; [reflexivity|]. intros H. apply Hnot. right. exact H. }
  assert (Hdapp : forall q0 e, ~ In sid (map socketId q0) -> socketId e = sid ->
                               dequeue (q0 ++ [e])%list sid = q0).
  { induction q0 as [|e0 q0 IH]; simpl; intros e Hnot He.
    - rewrite He, String.eqb_refl. reflexivity.
    - destruct (String.eqb_spec (socketId e0) sid) as [E|E].
      + exfalso. apply Hnot. left. exact E.
      + rewrite IH; [reflexivity| |exact He].
        intros H. apply Hnot. right. exact H. }
  assert (Hin : In sid (map socketId q) -> enqueue q sid p = q).
  { intros H. unfold enqueue. apply existsb_socket in H. rewrite H.
    reflexivity. }
  assert (Hout : ~ In sid (map socketId q) ->
                 enqueue q sid p
                 = (q ++ [ {| socketId := sid;
                              payload := payload_or_empty p |} ])%list).
  { intros H. unfold enqueue.
    destruct (existsb _ q) eqn:E; [|reflexivity].
    apply existsb_socket in E. contradiction. }
  assert (Hmem : In sid (map socketId (enqueue q sid p))).
  { destruct (in_dec string_dec sid (map socketId q)) as [H|H].
    - rewrite Hin; assumption.
    - rewrite Hout by assumption. rewrite map_app. apply in_or_app.
      right. left. reflexivity. }
  split.
  { destruct (in_dec string_dec sid (map socketId q)) as [H|H].
    - rewrite Hin; assumption.
    - rewrite Hout by assumption. unfold queue_ok. rewrite map_app. simpl.
      apply NoDup_app; [exact Hok|repeat constructor; intros []|].
      intros x Hx [<-|[]]. contradiction. }
  split; [exact Hmem|].
  split.
  { intros p'. unfold enqueue at 1. apply existsb_socket in Hmem.
    rewrite Hmem. reflexivity. }
  split; [exact Hin|].
  split.
  { intros H. split; [apply Hout; exact H|]. split; [|apply Hden; exact H].
    rewrite Hout by exact H. apply Hdapp; [exact H|reflexivity]. }
  assert (Hrest : queue_ok (dequeue q sid)
                  /\ ~ In sid (map socketId (dequeue q sid))
                  /\ (List.length (dequeue q sid) <= List.length q)%nat).
  { unfold queue_ok in *. clear Hin Hout Hmem Hden Hdapp Hsplit Hfilter.
    induction q as [|e q IH]; simpl; [repeat split; auto; constructor|].
    inversion Hok as [|? ? Hnot Hok']; subst.
    destruct (IH Hok') as [H1 [H2 H3]].
    destruct (String.eqb_spec (socketId e) sid) as [E|E].
    - subst sid. repeat split; auto.
    - simpl. repeat split.
      + constructor; [|exact H1].
        intros H. apply Hnot. apply (dequeue_sockets _ _ _ H).
      + intros [H|H]; [contradiction|]. apply H2. exact H.
      + lia. }
  destruct Hrest as [H1 [H2 H3]].
  split; [exact H1|]. split; [exact H2|]. split; [exact H3|].
  split; [|exact Hfilter].
  intros l1 e l2 -> He. apply Hsplit; [|exact He].
  unfold queue_ok in Hok. rewrite map_app in Hok. cbn [map] in Hok.
  apply NoDup_remove_2 in Hok. intros H. apply Hok.
  apply in_or_app. left. rewrite He. exact H.
Qed.

(** After a [match:find] the queue holds at most one entry, provided it
    held at most one before: two waiting requests are always taken out
    together, whether they are paired or one of them has gone.  The queue
    still holds each socket at most once. *)
Theorem match_find_leaves_at_most_one_waiting :
  forall (st : GameStore) (q : Queue) (sid : string)
         (p : option MatchPayload) (connected : string -> bool) (coin : bool)
         (gameId creatorPlayerId joinerId iso : string) (now : Z),
    (List.length q <= 1)%nat ->
    let q' := snd (fst (matchFind st q sid p connected coin gameId
                          creatorPlayerId joinerId iso now)) in
    (List.length q' <= 1)%nat
    /\ queue_ok q'
    /\ (forall x, In x (map socketId q') ->
                  x = sid \/ In x (map socketId q)).
Proof.
  intros st q sid p connected coin gameId creatorPlayerId joinerId iso now
         Hlen q'. subst q'.
  assert (Hsingle : forall e : QueueEntry, queue_ok [e])
    by (intros e; repeat constructor; intros []).
  assert (Hnil : queue_ok []) by constructor.
  assert (Hfin : forall q0 : Queue,
            (List.length q0 <= 1)%nat ->
            (forall x, In x (map socketId q0) ->
                       x = sid \/ In x (map socketId q)) ->
            (List.length q0 <= 1)%nat /\ queue_ok q0
            /\ (forall x, In x (map socketId q0) ->
                          x = sid \/ In x (map socketId q))).
  { intros q0 Hl Hx. split; [exact Hl|]. split; [|exact Hx].
    destruct q0 as [|e [|e' q0]]; auto. simpl in Hl. lia. }
  destruct q as [|a [|b q]]; [| |simpl in Hlen; lia].
  - unfold matchFind, enqueue. cbn [existsb app fst snd].
    apply Hfin; [simpl; lia|]. intros x [<-|[]]. left. reflexivity.
  - unfold matchFind, enqueue. cbn [existsb].
    destruct (socketId a =? sid)%string eqn:E; cbn [orb app].
    + cbn [fst snd]. apply Hfin; [simpl; lia|]. intros x H. right. exact H.
    + cbn [socketId].
      destruct (connected (socketId a)) eqn:Ca;
        destruct (connected sid) eqn:Cb; cbn [negb orb].
      * destruct (createGame _ _ _ _ _ _ _ _) as [cr st1].
        destruct (joinGame _ _ _ _ _ _ _ _) as [jr st2].
        cbn [fst snd]. apply Hfin; [simpl; lia|]. intros x [].
      * cbn [fst snd]. apply Hfin; [simpl; lia|].
        intros x H. right. exact H.
      * cbn [fst snd]. apply Hfin; [simpl; lia|].
        intros x [<-|[]]. left. reflexivity.
      * cbn [fst snd]. apply Hfin; [simpl; lia|]. intros x [].
Qed.

(** A request that finds one other socket waiting.  When either of the
    two sockets is gone, no session is made, nothing is sent, and only the
    one that is still connected stays in the queue.  When both are
    connected (and the ids drawn are not empty), one session is made under
    the id drawn: the socket that waited is its creator on the color of
    the coin, with the time control of its own request; the requester gets
    the other color; the session is [active] with the clock running for
    the side to move since [now].  Each socket gets one private message
    with the same session id and its own participant id; the creator's
    carries the state before the opponent joined ([waiting]). *)
Theorem match_find_pairs_two_waiting :
  forall (st : GameStore) (a : QueueEntry) (sid : string)
         (p : option MatchPayload) (connected : string -> bool) (coin : bool)
         (gameId creatorPlayerId joinerId iso : string) (now : Z),
    socketId a <> sid ->
    let b := {| socketId := sid; payload := payload_or_empty p |} in
    let outcome := matchFind st [a] sid p connected coin gameId
                     creatorPlayerId joinerId iso now in
    (connected (socketId a) = false \/ connected sid = false ->
     outcome
     = (st,
        (if connected sid then [b]
         else if connected (socketId a) then [a] else []),
        []))
    /\ (connected (socketId a) = true ->
        connected sid = true ->
        creatorPlayerId <> "" ->
        joinerId <> "" ->
        let color := if coin then W else B in
        let created :=
          new_session (mp_name (payload a))
            (Some (if coin then "w" else "b"))
            (mp_timeControl (payload a)) gameId creatorPlayerId iso in
        let initial :=
          Z.max 0 (tc_field (mp_timeControl (payload a))
                     tc_initialMs 300000) in
        exists game,
          outcome
          = (JsMap.set (JsMap.set st gameId created) gameId game, [],
             [ {| mf_socketId := socketId a;
                  mf_gameId := gameId;
                  mf_participant :=
                    Some {| part_playerId := creatorPlayerId;
                            part_color := Some color;
                            part_role := RolePlayer |};
                  mf_state := Some (publicState created now) |};
               {| mf_socketId := sid;
                  mf_gameId := gameId;
                  mf_participant :=
                    Some {| part_playerId := joinerId;
                            part_color := Some (opponent color);
                            part_role := RolePlayer |};
                  mf_state := Some (publicState game now) |} ])
          /\ state (status created) = Waiting
          /\ state (status game) = Active
          /\ id game = gameId
          /\ slot (players game) color
             = {| pl_id := Some creatorPlayerId;
                  pl_name := or_null (mp_name (payload a));
                  pl_present := true |}
          /\ slot (players game) (opponent color)
             = {| pl_id := Some joinerId;
                  pl_name := or_null (mp_name (payload_or_empty p));
                  pl_present := true |}
          /\ clocks game
             = {| initialMs := initial;
                  incrementMs :=
                    Z.max 0 (tc_field (mp_timeControl (payload a))
                               tc_incrementMs 2000);
                  wRemainingMs := initial; bRemainingMs := initial;
                  activeColor := Some (chess_turn (new_Chess None));
                  running := true; lastTickAt := Some now |}
          /\ moves game = []
          /\ chess game = new_Chess None).
Proof.
  intros st a sid p connected coin gameId creatorPlayerId joinerId iso now
         Hne b outcome.
  subst outcome b. apply String.eqb_neq in Hne.
  split.
  - intros Hdead.
    unfold matchFind, enqueue. cbn [existsb]. rewrite Hne.
    cbn [orb app socketId payload].
    destruct (connected (socketId a)), (connected sid); cbn [negb orb];
      try reflexivity.
    destruct Hdead; discriminate.
  - intros Ca Cb Hc Hj color created initial.
    unfold matchFind, enqueue. cbn [existsb]. rewrite Hne.
    cbn [orb app socketId payload].
    rewrite Ca, Cb. cbn [negb orb].
    apply truthy_Some in Hc. apply truthy_Some in Hj.
    rewrite createGame_new_session. cbn [cr_gameId cr_player cr_state].
    unfold joinGame. rewrite JsMap_get_set_same.
    fold created.
    assert (Hjoin :
      exists game,
        joinOn created (mp_name (payload_or_empty p)) IdUndefined None joinerId
               iso now
        = (game, {| part_playerId := joinerId;
                    part_color := Some (opponent color);
                    part_role := RolePlayer |})
        /\ state (status game) = Active
        /\ id game = gameId
        /\ slot (players game) color
           = {| pl_id := Some creatorPlayerId;
                pl_name := or_null (mp_name (payload a));
                pl_present := true |}
        /\ slot (players game) (opponent color)
           = {| pl_id := Some joinerId;
                pl_name := or_null (mp_name (payload_or_empty p));
                pl_present := true |}
        /\ clocks game
           = {| initialMs := initial;
                incrementMs :=
                  Z.max 0 (tc_field (mp_timeControl (payload a))
                             tc_incrementMs 2000);
                wRemainingMs := initial; bRemainingMs := initial;
                activeColor := Some (chess_turn (new_Chess None));
                running := true; lastTickAt := Some now |}
        /\ moves game = []
        /\ chess game = new_Chess None).
    { subst created color initial.
      unfold joinOn, new_session, createNewGame, slotAvailable, assignTo,
        maybeStartGame.
      destruct coin;
        cbn -[truthy or_null tc_field Z.max chess_turn new_Chess];
        rewrite ?Hc; cbn -[truthy or_null tc_field Z.max chess_turn new_Chess];
        rewrite ?Hc, ?Hj;
        cbn -[truthy or_null tc_field Z.max chess_turn new_Chess];
        eexists; (split; [reflexivity|]); repeat split; reflexivity. }
    destruct Hjoin as [game [Hjo Hprops]].
    rewrite Hjo. exists game.
    split; [subst color; destruct coin; reflexivity|].
    split; [subst created; unfold new_session, createNewGame; reflexivity|].
    exact Hprops.
Qed.

End Matchmaking.

(** ** An accepted move *)

Section AcceptedMove.

Context {V : Validator}.

Lemma applyAccepted_outcome (game : Game) (color : Color) (c' : Chess)
    (mv : Move) (at_ : Z) (iso : string) :
  let game2 := applyAccepted game color c' mv at_ iso in
  players game2 = players game
  /\ updatedAt game2 = iso
  /\ match computeTermination c' with
     | None =>
         status game2
         = {| state := Active; winner := winner (status game);
              reason := reason (status game) |}
         /\ running (clocks game2) = true
         /\ activeColor (clocks game2) = Some (chess_turn c')
         /\ lastTickAt (clocks game2) = Some at_
     | Some t =>
         status game2
         = {| state := Finished; winner := t_winner t;
              reason := Some (t_reason t) |}
         /\ running (clocks game2) = false
         /\ activeColor (clocks game2) = None
         /\ lastTickAt (clocks game2) = None
     end.
Proof.
  unfold applyAccepted. cbv zeta.
  destruct (moveCursor _ <? _);
    cbn [with_chess with_moves with_moveCursor with_clocks with_status
         with_state with_updatedAt clocks chess];
    destruct (computeTermination c'); repeat split; reflexivity.
Qed.

(** A move that passes the checks, is made before the flag falls and is
    accepted by the rules library: the answer is the public state of the
    session as it is left.  The position is the one the library returned;
    the mover is credited the increment once on top of the time projected
    at the move, the opponent's time is the projected one; the seats are
    untouched.  If the new position is terminal the session is finished
    with the winner and reason of the position and the clock is stopped
    (the increment is credited all the same); otherwise the session is
    active and the clock runs for the side to move from the time of the
    move, so that the answer shows the stored times. *)
Theorem accepted_move_effect :
  forall (game : Game) (playerId : CallerId) (from_ to_ : string)
         (promotion_ : option string) (at_ : Z) (iso : string)
         (color : Color) (c' : Chess) (mv : Move),
    assertPlayerCanMove game playerId = inr color ->
    snd (commitClockBeforeMove game at_) = false ->
    chess_move (chess game)
      {| from := from_; to := to_; promotion := safePromotion promotion_ |}
    = Some (c', mv) ->
    exists game2,
      makeMoveOn game playerId from_ to_ promotion_ at_ iso
      = (inr (publicState game2 at_), game2)
      /\ chess game2 = c'
      /\ wRemainingMs (clocks game2)
         = snap_wRemainingMs (effectiveClocksSnapshot game at_)
           + match color with W => incrementMs (clocks game) | B => 0 end
      /\ bRemainingMs (clocks game2)
         = snap_bRemainingMs (effectiveClocksSnapshot game at_)
           + match color with B => incrementMs (clocks game) | W => 0 end
      /\ 0 < snap_wRemainingMs (effectiveClocksSnapshot game at_)
      /\ 0 < snap_bRemainingMs (effectiveClocksSnapshot game at_)
      /\ players game2 = players game
      /\ updatedAt game2 = iso
      /\ match computeTermination c' with
         | None =>
             state (status game2) = Active
             /\ running (clocks game2) = true
             /\ activeColor (clocks game2) = Some (chess_turn c')
             /\ lastTickAt (clocks game2) = Some at_
         | Some t =>
             status game2
             = {| state := Finished; winner := t_winner t;
                  reason := Some (t_reason t) |}
             /\ running (clocks game2) = false
             /\ activeColor (clocks game2) = None
             /\ lastTickAt (clocks game2) = None
         end
      /\ (0 <= incrementMs (clocks game) ->
          snap_wRemainingMs (effectiveClocksSnapshot game2 at_)
          = wRemainingMs (clocks game2)
          /\ snap_bRemainingMs (effectiveClocksSnapshot game2 at_)
             = bRemainingMs (clocks game2)).
Proof.
  intros game playerId from_ to_ promotion_ at_ iso color c' mv
         Hperm Hcommit Hmove.
  pose proof (commit_not_timed_out _ _ Hcommit) as Hfst.
  assert (Hpos : 0 < snap_wRemainingMs (effectiveClocksSnapshot game at_)
                 /\ 0 < snap_bRemainingMs (effectiveClocksSnapshot game at_)).
  { unfold commitClockBeforeMove in Hcommit. cbv zeta in Hcommit.
    destruct (snap_wRemainingMs _ <=? 0) eqn:Ew; [discriminate|].
    destruct (snap_bRemainingMs _ <=? 0) eqn:Eb; [discriminate|].
    apply Z.leb_gt in Ew, Eb. split; assumption. }
  unfold makeMoveOn. rewrite Hperm.
  destruct (commitClockBeforeMove game at_) as [game1 timedOut].
  cbn [fst snd] in Hcommit, Hfst. subst timedOut.
  assert (Hc1 : chess game1 = chess game) by (subst game1; reflexivity).
  rewrite Hc1, Hmove.
  exists (applyAccepted game1 color c' mv at_ iso).
  split; [reflexivity|].
  pose proof (applyAccepted_remaining game1 color c' mv at_ iso) as [Hw Hb].
  pose proof (applyAccepted_outcome game1 color c' mv at_ iso)
    as [Hpl [Hup Hterm]].
  assert (Hchess : chess (applyAccepted game1 color c' mv at_ iso) = c').
  { unfold applyAccepted. cbv zeta.
    destruct (moveCursor _ <? _);
      cbn [with_chess with_moves with_moveCursor with_clocks with_status
           with_state with_updatedAt clocks chess];
      destruct (computeTermination c'); reflexivity. }
  assert (Hw1 : wRemainingMs (clocks game1)
                = snap_wRemainingMs (effectiveClocksSnapshot game at_))
    by (subst game1; reflexivity).
  assert (Hb1 : bRemainingMs (clocks game1)
                = snap_bRemainingMs (effectiveClocksSnapshot game at_))
    by (subst game1; reflexivity).
  assert (Hi1 : incrementMs (clocks game1) = incrementMs (clocks game))
    by (subst game1; reflexivity).
  assert (Hp1 : players game1 = players game) by (subst game1; reflexivity).
  cbv zeta in Hw, Hb, Hpl, Hup, Hterm.
  rewrite Hw1, Hi1 in Hw. rewrite Hb1, Hi1 in Hb.
  destruct Hpos as [Hpw Hpb].
  repeat (split; [first [assumption | congruence]|]).
  split.
  - destruct (computeTermination c').
    + exact Hterm.
    + destruct Hterm as [Hst Hrest]. split; [|exact Hrest].
      rewrite Hst. reflexivity.
  - intros Hinc. unfold effectiveClocksSnapshot.
    cbn [snap_wRemainingMs snap_bRemainingMs].
    destruct (computeTermination c').
    + destruct Hterm as [_ [Hr _]]. rewrite Hr.
      cbn [snap_wRemainingMs snap_bRemainingMs].
      split; destruct color; lia.
    + destruct Hterm as [_ [Hr [Ha Hl]]]. rewrite Hr, Ha, Hl.
      replace (at_ - at_) with 0 by lia.
      destruct (chess_turn c');
        cbn [snap_wRemainingMs snap_bRemainingMs];
        split; destruct color; lia.
Qed.

End AcceptedMove.

(** ** The REST controller *)

Section Controller.

Context {V : Validator}.

Lemma assert_codes (game : Game) (playerId : CallerId) (e : Err) :
  assertPlayerCanMove game playerId = inl e ->
  In (statusCode e) [400; 403; 409].
Proof.
  unfold assertPlayerCanMove.
  destruct (negb (truthy_id playerId));
    [intros [= <-]; cbn [statusCode In]; auto|].
  destruct (negb (state_eqb _ Active));
    [intros [= <-]; cbn [statusCode In]; auto|].
  destruct (state_eqb _ Finished);
    [intros [= <-]; cbn [statusCode In]; auto|].
  destruct (strict_eq playerId (pl_id (players_w (players game))));
    [|destruct (strict_eq playerId (pl_id (players_b (players game))))];
    try (destruct (negb (color_eqb _ _)));
    intros [= <-]; cbn [statusCode In]; auto.
Qed.

Lemma makeMove_codes (st : GameStore) (gameId : string)
    (playerId : CallerId) (from_ to_ : string)
    (promotion_ : option string) (at_ : Z) (iso : string) (f : Z) :
  let r := makeMove st gameId playerId from_ to_ promotion_ at_ iso in
  In (http_status f (fst r)) [200; 400; 403; 404; 409]
  /\ http_status f (fst r) = http_status 409 (fst r)
  /\ (In (http_status f (fst r)) [400; 403; 404] -> snd r = st).
Proof.
  unfold makeMove.
  destruct (JsMap.get st gameId) as [game|] eqn:Hg;
    [|cbn; intuition].
  unfold makeMoveOn.
  destruct (assertPlayerCanMove game playerId) as [e|color] eqn:Ha.
  - pose proof (assert_codes game playerId e Ha) as Hin.
    cbn [fst snd http_status].
    rewrite (JsMap_set_unchanged st gameId game Hg).
    cbn [In] in Hin.
    destruct Hin as [<-|[<-|[<-|[]]]]; cbn; intuition.
  - destruct (commitClockBeforeMove game at_) as [game1 [|]].
    + cbn; intuition; discriminate.
    + destruct (chess_move _ _) as [[c' mv]|]; cbn; intuition; discriminate.
Qed.

Lemma undoOn_codes (game : Game) (playerId : CallerId) (iso : string)
    (now : Z) (r : Result PublicState) (game1 : Game) (f : Z) :
  undoOn game playerId iso now = Some (r, game1) ->
  In (http_status f r) [200; 403; 409]
  /\ http_status f r = http_status 409 r
  /\ (http_status f r <> 200 -> game1 = game).
Proof.
  unfold undoOn.
  destruct (running (clocks game));
    [intros [= <- <-]; cbn; intuition|].
  destruct (negb (isPlayer game playerId));
    [intros [= <- <-]; cbn; intuition|].
  destruct (moveCursor game <=? 0);
    [intros [= <- <-]; cbn; intuition|].
  destruct (replayAt _ _ _); [|discriminate].
  intros [= <- <-]. cbn. intuition.
Qed.

Lemma redoOn_codes (game : Game) (playerId : CallerId) (iso : string)
    (now : Z) (r : Result PublicState) (game1 : Game) (f : Z) :
  redoOn game playerId iso now = Some (r, game1) ->
  In (http_status f r) [200; 403; 409]
  /\ http_status f r = http_status 409 r
  /\ (http_status f r <> 200 -> game1 = game).
Proof.
  unfold redoOn.
  destruct (running (clocks game));
    [intros [= <- <-]; cbn; intuition|].
  destruct (negb (isPlayer game playerId));
    [intros [= <- <-]; cbn; intuition|].
  destruct (moveCursor game >=? _);
    [intros [= <- <-]; cbn; intuition|].
  destruct (replayAt _ _ _); [|discriminate].
  intros [= <- <-]. cbn. intuition.
Qed.

(** The status a request is answered with.  Every error of the registry
    carries its own code, so the fallback codes of the controller are
    never used.  A state request is answered 404 exactly for an unknown
    id.  A join is answered 200, or 404 for an unknown id.  A leave
    without [playerId] is answered 400 before the registry is called;
    otherwise 200, 400 (unknown participant) or 404.  A move is answered
    200, 400, 403, 404 or 409 -- 200 also when the call only recorded the
    mover's timeout.  An undo or redo that returns is answered 200, 403,
    404 or 409.  Every answer other than 200 leaves the registry as it
    was, except a 409 to a move. *)
Theorem controller_status_codes :
  forall (st : GameStore) (gameId : string)
         (name : option string) (playerId : CallerId)
         (requestedColor : option string)
         (from_ to_ : string) (promotion_ : option string)
         (freshId iso : string) (now : Z) (f : Z),
    (ctl_getState st gameId now = 404 <-> JsMap.get st gameId = None)
    /\ In (ctl_getState st gameId now) [200; 404]
    /\ (let r := joinGame st gameId name playerId requestedColor
                   freshId iso now in
        let a := ctl_join st gameId name playerId requestedColor
                   freshId iso now in
        In (fst a) [200; 404]
        /\ http_status f (fst r) = fst a
        /\ (fst a <> 200 -> snd a = st))
    /\ (let r := leaveGame st gameId playerId iso now in
        let a := ctl_leave st gameId playerId iso now in
        In (fst a) [200; 400; 404]
        /\ (truthy_id playerId = false -> a = (400, st))
        /\ (truthy_id playerId = true -> http_status f (fst r) = fst a)
        /\ (fst a <> 200 -> snd a = st))
    /\ (let r := makeMove st gameId playerId from_ to_ promotion_ now iso in
        let a := ctl_move st gameId playerId from_ to_ promotion_ now iso in
        In (fst a) [200; 400; 403; 404; 409]
        /\ http_status f (fst r) = fst a
        /\ (In (fst a) [400; 403; 404] -> snd a = st))
    /\ (forall code st1,
          ctl_undo st gameId playerId iso now = Some (code, st1) ->
          In code [200; 403; 404; 409]
          /\ (exists r, undo st gameId playerId iso now = Some (r, st1)
                        /\ http_status f r = code)
          /\ (code <> 200 -> st1 = st))
    /\ (forall code st1,
          ctl_redo st gameId playerId iso now = Some (code, st1) ->
          In code [200; 403; 404; 409]
          /\ (exists r, redo st gameId playerId iso now = Some (r, st1)
                        /\ http_status f r = code)
          /\ (code <> 200 -> st1 = st)).
Proof.
  intros st gameId name playerId requestedColor from_ to_ promotion_
         freshId iso now f.
  split; [|split; [|split; [|split; [|split; [|split]]]]].
  - unfold ctl_getState, getGameState.
    destruct (JsMap.get st gameId); split; intros H;
      first [discriminate | reflexivity].
  - unfold ctl_getState, getGameState.
    destruct (JsMap.get st gameId); cbn [In]; auto.
  - cbv zeta. unfold ctl_join, joinGame.
    destruct (JsMap.get st gameId) as [game|].
    + destruct (joinOn game name playerId requestedColor freshId iso now)
        as [game1 participant].
      cbn. intuition.
    + cbn. intuition.
  - cbv zeta. unfold ctl_leave.
    destruct (truthy_id playerId) eqn:Ht; cbn [negb].
    + unfold leaveGame.
      destruct (JsMap.get st gameId) as [game|];
        [|cbn; intuition; discriminate].
      destruct (leaveOn game playerId iso now) as [game1|];
        cbn; intuition; discriminate.
    + cbn. intuition; discriminate.
  - cbv zeta. unfold ctl_move.
    pose proof (makeMove_codes st gameId playerId from_ to_ promotion_
                  now iso f) as H.
    pose proof (makeMove_codes st gameId playerId from_ to_ promotion_
                  now iso 409) as H9.
    cbv zeta in H, H9.
    destruct (makeMove st gameId playerId from_ to_ promotion_ now iso)
      as [r st1].
    cbn [fst snd] in *. intuition.
  - intros code st1. unfold ctl_undo, undo.
    destruct (JsMap.get st gameId) as [game|] eqn:Hg.
    + destruct (undoOn game playerId iso now) as [[r game1]|] eqn:Hu;
        [|discriminate].
      intros [= <- <-].
      destruct (undoOn_codes game playerId iso now r game1 f Hu)
        as [Hin [Hf Hsame]].
      destruct (undoOn_codes game playerId iso now r game1 409 Hu)
        as [Hin9 [_ Hsame9]].
      split; [cbn [In] in *; intuition|].
      split; [exists r; split; [reflexivity|exact Hf]|].
      intros Hne. rewrite (Hsame9 Hne).
      apply JsMap_set_unchanged. exact Hg.
    + intros [= <- <-]. cbn [http_status not_found statusCode Z.eqb In].
      split; [cbn; auto|].
      split; [exists (inl not_found); split; reflexivity|reflexivity].
  - intros code st1. unfold ctl_redo, redo.
    destruct (JsMap.get st gameId) as [game|] eqn:Hg.
    + destruct (redoOn game playerId iso now) as [[r game1]|] eqn:Hu;
        [|discriminate].
      intros [= <- <-].
      destruct (redoOn_codes game playerId iso now r game1 f Hu)
        as [Hin [Hf Hsame]].
      destruct (redoOn_codes game playerId iso now r game1 409 Hu)
        as [Hin9 [_ Hsame9]].
      split; [cbn [In] in *; intuition|].
      split; [exists r; split; [reflexivity|exact Hf]|].
      intros Hne. rewrite (Hsame9 Hne).
      apply JsMap_set_unchanged. exact Hg.
    + intros [= <- <-]. cbn [http_status not_found statusCode Z.eqb In].
      split; [cbn; auto|].
      split; [exists (inl not_found); split; reflexivity|reflexivity].
Qed.

End Controller.

(** ** Stored times *)

Section StoredTimes.

Context {V : Validator}.

Lemma maybeStartGame_nonneg (game : Game) (now : Z) :
  clock_nonneg (clocks game) -> clock_nonneg (clocks (maybeStartGame game now)).
Proof.
  intros Hn. unfold maybeStartGame.
  destruct (state_eqb _ _); [exact Hn|].
  destruct (_ && _).
  - destruct (negb _); exact Hn.
  - destruct (running (clocks (with_state game Waiting))); [|exact Hn].
    pose proof (snapshot_nonneg (with_state game Waiting) now) as [Hw Hb].
    destruct Hn as [_ [_ Hi]].
    unfold clock_nonneg. cbn [with_clocks clocks stop_clock with_run
      with_remaining wRemainingMs bRemainingMs incrementMs].
    repeat split; assumption.
Qed.

Lemma joinOn_nonneg (game : Game) (name : option string)
    (playerId : CallerId)
    (requestedColor : option string) (freshId iso : string) (now : Z) :
  clock_nonneg (clocks game) ->
  clock_nonneg (clocks (fst (joinOn game name playerId requestedColor
                               freshId iso now))).
Proof.
  intros Hn. unfold joinOn.
  destruct (truthy_id playerId && _).
  - cbn [fst]. unfold rejoin. apply maybeStartGame_nonneg. exact Hn.
  - destruct (normalizeColor requestedColor) as [d|];
      repeat match goal with
             | |- context [if slotAvailable game ?x then _ else _] =>
                 destruct (slotAvailable game x)
             end;
      cbn [fst]; first [exact Hn | apply maybeStartGame_nonneg; exact Hn].
Qed.

Lemma leaveOn_nonneg (game game' : Game) (playerId : CallerId)
    (iso : string) (now : Z) :
  clock_nonneg (clocks game) ->
  leaveOn game playerId iso now = Some game' ->
  clock_nonneg (clocks game').
Proof.
  intros Hn. unfold leaveOn.
  destruct (strict_eq playerId (pl_id (players_w (players game))));
    [intros [= <-]; apply maybeStartGame_nonneg; exact Hn|].
  destruct (strict_eq playerId (pl_id (players_b (players game))));
    [intros [= <-]; apply maybeStartGame_nonneg; exact Hn|].
  destruct playerId as [| |pid]; try discriminate.
  destruct (JsMap.has _ _); [|discriminate].
  intros [= <-]. apply maybeStartGame_nonneg. exact Hn.
Qed.

Lemma commit_nonneg (game : Game) (atMs : Z) :
  clock_nonneg (clocks game) ->
  clock_nonneg (clocks (fst (commitClockBeforeMove game atMs))).
Proof.
  intros [_ [_ Hi]].
  pose proof (snapshot_nonneg game atMs) as [Hw Hb].
  unfold commitClockBeforeMove. cbv zeta.
  destruct (snap_wRemainingMs _ <=? 0);
    [|destruct (snap_bRemainingMs _ <=? 0)];
    unfold clock_nonneg;
    cbn [fst finalize_timeout with_clocks with_status clocks stop_clock
         with_run with_remaining wRemainingMs bRemainingMs incrementMs];
    repeat split; assumption.
Qed.

Lemma applyAccepted_increment (game : Game) (color : Color) (c' : Chess)
    (mv : Move) (at_ : Z) (iso : string) :
  incrementMs (clocks (applyAccepted game color c' mv at_ iso))
  = incrementMs (clocks game).
Proof.
  unfold applyAccepted. cbv zeta.
  destruct (moveCursor _ <? _);
    cbn [with_chess with_moves with_moveCursor with_clocks with_status
         with_state with_updatedAt clocks chess];
    destruct (computeTermination c'); reflexivity.
Qed.

Lemma makeMoveOn_nonneg (game : Game) (playerId : CallerId)
    (from_ to_ : string) (promotion_ : option string) (at_ : Z)
    (iso : string) :
  clock_nonneg (clocks game) ->
  clock_nonneg
    (clocks (snd (makeMoveOn game playerId from_ to_ promotion_ at_ iso))).
Proof.
  intros Hn. unfold makeMoveOn.
  destruct (assertPlayerCanMove game playerId) as [e|color]; [exact Hn|].
  pose proof (commit_nonneg game at_ Hn) as Hc.
  destruct (commitClockBeforeMove game at_) as [game1 [|]]; cbn [fst] in Hc.
  - exact Hc.
  - destruct (chess_move _ _) as [[c' mv]|]; cbn [snd]; [|exact Hc].
    pose proof (applyAccepted_remaining game1 color c' mv at_ iso)
      as [Hw Hb].
    pose proof (applyAccepted_increment game1 color c' mv at_ iso) as Hi.
    cbv zeta in Hw, Hb. destruct Hc as [H1 [H2 H3]].
    unfold clock_nonneg. rewrite Hw, Hb, Hi.
    destruct color; repeat split; lia.
Qed.

Lemma replayAt_clocks (game game' : Game) (cursor : Z) (iso : string) :
  replayAt game cursor iso = Some game' -> clocks game' = clocks game.
Proof.
  unfold replayAt, rebuildChess.
  destruct (replay _ _ _); [|discriminate].
  intros [= <-]. reflexivity.
Qed.

Lemma undoOn_clocks (game game' : Game) (playerId : CallerId)
    (iso : string) (now : Z) (res : Result PublicState) :
  undoOn game playerId iso now = Some (res, game') ->
  clocks game' = clocks game.
Proof.
  unfold undoOn.
  destruct (running (clocks game)); [intros [= _ <-]; reflexivity|].
  destruct (negb _); [intros [= _ <-]; reflexivity|].
  destruct (moveCursor game <=? 0); [intros [= _ <-]; reflexivity|].
  destruct (replayAt game _ iso) as [g1|] eqn:E; [|discriminate].
  intros [= _ <-]. apply (replayAt_clocks _ _ _ _ E).
Qed.

Lemma redoOn_clocks (game game' : Game) (playerId : CallerId)
    (iso : string) (now : Z) (res : Result PublicState) :
  redoOn game playerId iso now = Some (res, game') ->
  clocks game' = clocks game.
Proof.
  unfold redoOn.
  destruct (running (clocks game)); [intros [= _ <-]; reflexivity|].
  destruct (negb _); [intros [= _ <-]; reflexivity|].
  destruct (moveCursor game >=? _); [intros [= _ <-]; reflexivity|].
  destruct (replayAt game _ iso) as [g1|] eqn:E; [|discriminate].
  intros [= _ <-]. apply (replayAt_clocks _ _ _ _ E).
Qed.

Lemma tickGame_nonneg (game : Game) (atMs : Z) (iso : string) :
  clock_nonneg (clocks game) ->
  clock_nonneg (clocks (fst (tickGame game atMs iso))).
Proof.
  intros Hn. unfold tickGame.
  destruct (negb _ || negb _); [exact Hn|].
  destruct (_ || _); [|exact Hn].
  pose proof (snapshot_nonneg game atMs) as [Hw Hb].
  destruct Hn as [_ [_ Hi]].
  unfold clock_nonneg.
  cbn [fst with_updatedAt with_clocks with_status clocks stop_clock
       with_run with_remaining wRemainingMs bRemainingMs incrementMs].
  repeat split; assumption.
Qed.

Lemma store_nonneg_set (st : GameStore) (k : string) (game : Game) :
  store_nonneg st -> clock_nonneg (clocks game) ->
  store_nonneg (JsMap.set st k game).
Proof.
  intros Hst Hg k' g'. rewrite JsMap_get_set.
  destruct (k =? k')%string; [intros [= <-]; exact Hg|apply Hst].
Qed.

Lemma loadInto_nonneg (l : list Serialized) (iso : string) :
  Forall (fun sg => clock_nonneg (s_clocks sg)) l ->
  forall next : GameStore,
    store_nonneg next -> store_nonneg (loadInto next l iso).
Proof.
  induction 1 as [|sg l Hsg Hl IH]; intros next Hnext; cbn [loadInto];
    [exact Hnext|].
  destruct (negb _); [apply IH; exact Hnext|].
  destruct (deserializeGame sg iso) as [game|] eqn:E; [|apply IH; exact Hnext].
  apply IH. apply store_nonneg_set; [exact Hnext|].
  unfold deserializeGame in E.
  destruct (replay _ _ _) as [c|]; [|discriminate].
  destruct (is_scalar _); [discriminate|].
  injection E as <-. exact Hsg.
Qed.

(** No operation ever stores a negative remaining time or increment: if
    the times of every session are not negative, and a load reads
    snapshots whose times are not negative, they are not negative after
    any operation. *)
Theorem run_keeps_stored_times_nonnegative :
  forall (st st' : GameStore) (op : Op),
    store_nonneg st ->
    disk_nonneg op ->
    run st op = Some st' ->
    store_nonneg st'.
Proof.
  intros st st' op Hst Hdisk Hrun.
  destruct op; simpl in Hrun, Hdisk.
  - injection Hrun as <-. unfold createGame, createNewGame. simpl.
    apply store_nonneg_set; [exact Hst|].
    apply maybeStartGame_nonneg. unfold clock_nonneg.
    cbn [clocks wRemainingMs bRemainingMs incrementMs].
    repeat split; lia.
  - injection Hrun as <-. unfold joinGame.
    destruct (JsMap.get st gameId) as [game|] eqn:Hget; [|exact Hst].
    pose proof (joinOn_nonneg game name playerId requestedColor
                  freshId iso now (Hst _ _ Hget)) as Hh.
    destruct (joinOn _ _ _ _ _ _ _) as [game1 part]. cbn [fst snd] in *.
    apply store_nonneg_set; assumption.
  - injection Hrun as <-. unfold leaveGame.
    destruct (JsMap.get st gameId) as [game|] eqn:Hget; [|exact Hst].
    destruct (leaveOn game playerId iso now) as [game1|] eqn:Hl; [|exact Hst].
    cbn [snd]. apply store_nonneg_set; [exact Hst|].
    apply (leaveOn_nonneg _ _ _ _ _ (Hst _ _ Hget) Hl).
  - injection Hrun as <-. unfold makeMove.
    destruct (JsMap.get st gameId) as [game|] eqn:Hget; [|exact Hst].
    pose proof (makeMoveOn_nonneg game playerId from_ to_ promotion_
                  at_ iso (Hst _ _ Hget)) as Hh.
    destruct (makeMoveOn _ _ _ _ _ _ _) as [res game1]. cbn [fst snd] in *.
    apply store_nonneg_set; assumption.
  - unfold undo in Hrun.
    destruct (JsMap.get st gameId) as [game|] eqn:Hget;
      [|injection Hrun as <-; exact Hst].
    destruct (undoOn game playerId iso now) as [[res game1]|] eqn:Hu;
      [|discriminate].
    injection Hrun as <-. apply store_nonneg_set; [exact Hst|].
    rewrite (undoOn_clocks _ _ _ _ _ _ Hu). apply (Hst _ _ Hget).
  - unfold redo in Hrun.
    destruct (JsMap.get st gameId) as [game|] eqn:Hget;
      [|injection Hrun as <-; exact Hst].
    destruct (redoOn game playerId iso now) as [[res game1]|] eqn:Hu;
      [|discriminate].
    injection Hrun as <-. apply store_nonneg_set; [exact Hst|].
    rewrite (redoOn_clocks _ _ _ _ _ _ Hu). apply (Hst _ _ Hget).
  - injection Hrun as <-. intros k g'. rewrite tickClocks_get.
    destruct (JsMap.get st k) as [g|] eqn:Hget; [|discriminate].
    intros [= <-]. apply tickGame_nonneg. apply (Hst _ _ Hget).
  - injection Hrun as <-. exact Hst.
  - injection Hrun as <-. unfold loadFromDisk. cbn [snd].
    apply loadInto_nonneg; [exact Hdisk|]. intros k g. discriminate.
Qed.

End StoredTimes.

(** ** The list of sessions *)

Section Listing.

Context {V : Validator}.

(** The list and the state requests agree.  In a registry that stores
    each session under its own id, [listGames] has one item per session,
    in the order of the registry; a state request for the id of an item
    finds a session, with the same id, seats and timestamps, and with the
    same state unless the state request reports [finished] (the projector
    reads a terminal position over the stored status, the list does not);
    and every session a state request finds is on the list. *)
Theorem list_matches_state_requests :
  forall (st : GameStore) (now : Z),
    store_keys_ok st ->
    map li_gameId (listGames st) = map fst st
    /\ NoDup (map li_gameId (listGames st))
    /\ (forall item,
          In item (listGames st) ->
          exists ps,
            getGameState st (li_gameId item) now = Some ps
            /\ ps_gameId ps = li_gameId item
            /\ ps_players_w ps = li_players_w item
            /\ ps_players_b ps = li_players_b item
            /\ ps_createdAt ps = li_createdAt item
            /\ ps_updatedAt ps = li_updatedAt item
            /\ (ps_state (ps_status ps) = li_state item
                \/ ps_state (ps_status ps) = Finished))
    /\ (forall k ps,
          getGameState st k now = Some ps ->
          exists item, In item (listGames st) /\ li_gameId item = k).
Proof.
  intros st now Hok.
  assert (Hids : map li_gameId (listGames st) = map fst st).
  { destruct Hok as [_ Hall]. unfold listGames, JsMap.values.
    rewrite !map_map. apply map_ext_in. intros [k g] Hin.
    rewrite Forall_forall in Hall. apply (Hall _ Hin). }
  split; [exact Hids|]. split; [rewrite Hids; apply Hok|]. split.
  - intros item Hin. unfold listGames, JsMap.values in Hin.
    rewrite map_map in Hin. apply in_map_iff in Hin.
    destruct Hin as [[k g] [<- Hin]].
    pose proof (JsMap_In_get st k g (proj1 Hok) Hin) as Hget.
    destruct (store_keys_get st k g Hok Hget) as [Hid _].
    cbn [snd listItem li_gameId li_players_w li_players_b li_createdAt
         li_updatedAt li_state].
    unfold getGameState. rewrite Hid, Hget.
    eexists. split; [reflexivity|].
    unfold publicState.
    cbn [ps_gameId ps_players_w ps_players_b ps_createdAt ps_updatedAt
         ps_status].
    repeat (split; [first [reflexivity | exact Hid]|]).
    destruct (computeTermination (chess g)); cbn [ps_state]; auto.
  - intros k ps. unfold getGameState.
    destruct (JsMap.get st k) as [g|] eqn:Hget; [|discriminate].
    intros _. exists (listItem g). split.
    + unfold listGames, JsMap.values. rewrite map_map.
      apply in_map_iff. exists (k, g). split; [reflexivity|].
      apply JsMap_get_In. exact Hget.
    + apply (store_keys_get st k g Hok Hget).
Qed.

End Listing.

(** ** The properties on the sessions of the toy validator *)

Lemma Toy_store5_keys : store_keys_ok Toy.store5.
Proof.
  split.
  - constructor; [intros []|constructor].
  - constructor; [split; [reflexivity|discriminate]|constructor].
Qed.

Lemma Toy_store5_strings : store_strings Toy.store5.
Proof.
  intros k game. unfold Toy.store5. cbn [JsMap.get].
  destruct ("g1" =? k)%string; [|discriminate].
  intros [= <-]. repeat split; try discriminate; reflexivity.
Qed.

Lemma Toy_store5_nonneg : store_nonneg Toy.store5.
Proof.
  intros k game. unfold Toy.store5. cbn [JsMap.get].
  destruct ("g1" =? k)%string; [|discriminate].
  intros [= <-]. repeat split; discriminate.
Qed.

Lemma computeTermination_winner_only_by_checkmate_witness :
  let c := {| Toy.start := "startpos";
              Toy.played := [ {| from := "d8"; to := "mate";
                                 promotion := None |} ] |} in
  isGameOver (Validator := Toy.validator) c = true
  /\ computeTermination (V := Toy.validator) c
     = Some {| t_winner := Some W; t_reason := "checkmate" |}.
Proof.
  intros c.
  destruct (computeTermination_winner_only_by_checkmate
              (V := Toy.validator) c
              {| t_winner := Some W; t_reason := "checkmate" |} eq_refl)
    as [Hover _].
  split; [exact Hover|reflexivity].
Defined.

Lemma projected_clock_monotone_witness :
  snap_remaining (effectiveClocksSnapshot Toy.game5 2000) W
  < snap_remaining (effectiveClocksSnapshot Toy.game5 1000) W
  /\ snap_remaining (effectiveClocksSnapshot Toy.game5 2000) B
     = snap_remaining (effectiveClocksSnapshot Toy.game5 1000) B
  /\ snap_remaining (effectiveClocksSnapshot Toy.game5 0) W
     = snap_remaining (effectiveClocksSnapshot Toy.game5 (-100)) W
  /\ snap_remaining (effectiveClocksSnapshot Toy.game5 1000) W = 299000.
Proof.
  destruct (projected_clock_monotone Toy.game5 1000 2000 ltac:(lia))
    as [_ [Hsame Hrun]].
  destruct (Hrun W 0 eq_refl eq_refl eq_refl) as [Hat [_ Hless]].
  destruct (projected_clock_monotone Toy.game5 (-100) 0 ltac:(lia))
    as [_ [_ Hrun0]].
  destruct (Hrun0 W 0 eq_refl eq_refl eq_refl) as [_ [Hflat _]].
  split; [apply Hless; first [reflexivity | lia]|].
  split; [apply Hsame; right; discriminate|].
  split; [apply Hflat; lia|].
  rewrite Hat. reflexivity.
Defined.

Lemma join_reconnects_to_own_seat_witness :
  let joined := joinOn Toy.game5 (Some "ann") (IdStr "pw") (Some "b")
                  "fresh" Toy.iso1 7 in
  part_color (snd joined) = Some W
  /\ pl_name (slot (players (fst joined)) W) = Some "ann"
  /\ slot (players (fst joined)) B = slot (players Toy.game5) B.
Proof.
  intros joined.
  destruct (join_reconnects_to_own_seat Toy.game5 (Some "ann") (IdStr "pw")
              (Some "b") "fresh" Toy.iso1 7 W eq_refl eq_refl)
    as [_ [Hc [_ [_ [_ [Hn [Ho _]]]]]]].
  split; [exact Hc|]. split; [exact Hn|exact Ho].
Defined.

Lemma join_new_participant_witness :
  let joined := joinOn (Toy.created None) (Some "bob") IdUndefined (Some "w")
                  "pb" Toy.iso0 0 in
  part_playerId (snd joined) = "pb"
  /\ part_color (snd joined) = Some B
  /\ part_role (snd joined) = RolePlayer
  /\ slot (players (fst joined)) B
     = {| pl_id := Some "pb"; pl_name := Some "bob"; pl_present := true |}.
Proof.
  intros joined.
  destruct (join_new_participant (Toy.created None) (Some "bob") IdUndefined
              (Some "w") "pb" Toy.iso0 0 eq_refl)
    as [Hid [_ [_ [Hseat [_ [_ [Hblack _]]]]]]].
  pose proof (Hblack eq_refl eq_refl) as Hc.
  destruct (Hseat B Hc) as [Hrole [_ [Hslot _]]].
  split; [exact Hid|]. split; [exact Hc|]. split; [exact Hrole|exact Hslot].
Defined.

Lemma join_never_displaces_witness :
  pl_id (slot (players
                (fst (joinOn Toy.game5 (Some "eve") IdUndefined (Some "w")
                        "pe" Toy.iso1 9))) W)
  = Some "pw".
Proof.
  apply (join_never_displaces Toy.game5 (Some "eve") IdUndefined (Some "w")
           "pe" Toy.iso1 9 W eq_refl).
Defined.

Lemma leave_vacates_and_halts_play_witness :
  exists game',
    leaveGame Toy.store5 "g1" (IdStr "pb") Toy.iso1 3000
    = (inr (publicState game' 3000), JsMap.set Toy.store5 "g1" game')
    /\ slot (players game') B = empty_player
    /\ slot (players game') W = slot (players Toy.game5) W.
Proof.
  destruct (leave_vacates_and_halts_play Toy.store5 "g1" Toy.game5
              (IdStr "pb") Toy.iso1 3000 eq_refl) as [_ [Hseat _]].
  destruct (Hseat B eq_refl) as [game' [Hcall [Hb [Hw _]]]].
  exists game'. split; [exact Hcall|]. split; [exact Hb|exact Hw].
Defined.

Lemma run_keeps_sessions_under_their_id_witness :
  store_keys_ok Toy.store5_moved.
Proof.
  apply (run_keeps_sessions_under_their_id Toy.store5 Toy.store5_moved
           (OpMove "g1" (IdStr "pw") "e2" "e4" None 5000 Toy.iso1)
           Toy_store5_keys I eq_refl).
Defined.

Lemma save_then_load_keeps_every_session_witness :
  fst (loadFromDisk (V := Toy.validator) (saveToDisk Toy.store5) Toy.iso1)
  = 1%nat
  /\ JsMap.get
       (snd (loadFromDisk (V := Toy.validator) (saveToDisk Toy.store5)
               Toy.iso1)) "g1"
     = deserializeGame (serializeGame Toy.game5) Toy.iso1.
Proof.
  destruct (save_then_load_keeps_every_session Toy.store5 Toy.iso1
              Toy_store5_keys) as [_ [Hn Hget]].
  split; [exact Hn|]. apply Hget. reflexivity.
Defined.

Lemma queue_holds_each_socket_once_witness :
  let entry sid := {| socketId := sid;
                      payload := {| mp_name := Some sid;
                                    mp_timeControl := None |} |} in
  let q := [entry "s1"; entry "s2"; entry "s3"] in
  enqueue q "s2" None = q
  /\ dequeue q "s2" = [entry "s1"; entry "s3"]
  /\ queue_ok (enqueue q "s4" None)
  /\ ~ In "s2" (map socketId (dequeue q "s2")).
Proof.
  intros entry q.
  assert (Hq : queue_ok q).
  { unfold queue_ok. cbn [map q entry socketId].
    repeat constructor; cbn [In]; intros H;
      repeat (destruct H as [H|H]; [discriminate H|]); exact H. }
  destruct (queue_holds_each_socket_once q "s2" None Hq)
    as [_ [_ [_ [Hsame [_ [_ [Hgone [_ [Hsplit _]]]]]]]]].
  destruct (queue_holds_each_socket_once q "s4" None Hq) as [Hok _].
  split; [apply Hsame; right; left; reflexivity|].
  split; [apply (Hsplit [entry "s1"] (entry "s2") [entry "s3"]); reflexivity|].
  split; [exact Hok|exact Hgone].
Defined.

Lemma match_find_leaves_at_most_one_waiting_witness :
  let first := {| socketId := "s1";
                  payload := {| mp_name := Some "ann";
                                mp_timeControl := None |} |} in
  (List.length
     (snd (fst (matchFind (V := Toy.validator) [] [first] "s2" None
                  (fun _ => true) true "g1" "pw" "pb" Toy.iso0 0)))
   <= 1)%nat.
Proof.
  intros first.
  destruct (match_find_leaves_at_most_one_waiting (V := Toy.validator)
              [] [first] "s2" None (fun _ => true) true "g1" "pw" "pb"
              Toy.iso0 0 (le_n 1)) as [Hlen _].
  exact Hlen.
Defined.

Lemma match_find_pairs_two_waiting_witness :
  let first := {| socketId := "s1";
                  payload := {| mp_name := Some "ann";
                                mp_timeControl := None |} |} in
  exists game : Game (V := Toy.validator),
    snd (fst (matchFind (V := Toy.validator) [] [first] "s2" None
                (fun _ => true) false "g1" "pb" "pw" Toy.iso0 0)) = []
    /\ state (status game) = Active
    /\ pl_id (slot (players game) B) = Some "pb"
    /\ pl_id (slot (players game) W) = Some "pw".
Proof.
  intros first.
  destruct (match_find_pairs_two_waiting (V := Toy.validator)
              [] first "s2" None (fun _ => true) false
              "g1" "pb" "pw" Toy.iso0 0 ltac:(discriminate))
    as [_ Hpair].
  destruct (Hpair eq_refl eq_refl ltac:(discriminate) ltac:(discriminate))
    as [game [Hcall [_ [Hact [_ [Hb [Hw _]]]]]]].
  exists game. split; [rewrite Hcall; reflexivity|].
  split; [exact Hact|].
  split; [rewrite Hb; reflexivity|].
  change W with (opponent B). rewrite Hw. reflexivity.
Defined.

Lemma accepted_move_effect_witness :
  exists game2,
    makeMoveOn Toy.game5 (IdStr "pw") "e2" "e4" None 5000 Toy.iso1
    = (inr (publicState game2 5000), game2)
    /\ wRemainingMs (clocks game2) = 297000
    /\ bRemainingMs (clocks game2) = 300000
    /\ lastTickAt (clocks game2) = Some 5000.
Proof.
  destruct (accepted_move_effect Toy.game5 (IdStr "pw") "e2" "e4" None
              5000 Toy.iso1 W
              {| Toy.start := "startpos";
                 Toy.played := [ {| from := "e2"; to := "e4";
                                    promotion := None |} ] |}
              {| from := "e2"; to := "e4"; promotion := None |}
              eq_refl eq_refl eq_refl)
    as [game2 [Hcall [_ [Hw [Hb [_ [_ [_ [_ [Hterm _]]]]]]]]]].
  exists game2. split; [exact Hcall|].
  split; [rewrite Hw; reflexivity|]. split; [rewrite Hb; reflexivity|].
  apply Hterm.
Defined.

Lemma run_keeps_stored_times_nonnegative_witness :
  store_nonneg Toy.store5_moved.
Proof.
  apply (run_keeps_stored_times_nonnegative Toy.store5 Toy.store5_moved
           (OpMove "g1" (IdStr "pw") "e2" "e4" None 5000 Toy.iso1)
           Toy_store5_nonneg I eq_refl).
Defined.

Lemma list_matches_state_requests_witness :
  map li_gameId (listGames Toy.store5) = ["g1"].
Proof.
  destruct (list_matches_state_requests Toy.store5 0 Toy_store5_keys)
    as [Hids _].
  exact Hids.
Defined.

Lemma run_keeps_strings_normal_witness :
  store_strings Toy.store5_moved.
Proof.
  apply (run_keeps_strings_normal Toy.store5 Toy.store5_moved
           (OpMove "g1" (IdStr "pw") "e2" "e4" None 5000 Toy.iso1)
           Toy_store5_strings ltac:(discriminate) eq_refl).
Defined.


Lemma load_gives_stopped_sessions_witness :
  let disk := [ serializeGame Toy.game5; Toy.scalar_record "g2";
                Toy.scalar_record "g1" ] in
  let st := snd (loadFromDisk (V := Toy.validator) disk Toy.iso1) in
  fst (loadFromDisk (V := Toy.validator) disk Toy.iso1) = 1%nat
  /\ JsMap.get st "g1" = Some (reload Toy.game5 Toy.iso1)
  /\ JsMap.get st "g2" = None.
Proof.
  intros disk st.
  destruct (load_gives_stopped_sessions (V := Toy.validator) disk Toy.iso1)
    as [Hcount [_ [_ [Hraise [Hlast Hnone]]]]].
  split; [rewrite Hcount; reflexivity|]. split.
  - apply (Hlast [] (serializeGame Toy.game5)
             [Toy.scalar_record "g2"; Toy.scalar_record "g1"]
             (reload Toy.game5 Toy.iso1) eq_refl);
      [discriminate|reflexivity|].
    intros sg' Hin _. apply Hraise.
    destruct Hin as [<-|[<-|[]]]; reflexivity.
  - apply Hnone. intros sg Hin Hid. apply Hraise.
    destruct Hin as [<-|[<-|[<-|[]]]];
      first [discriminate Hid | reflexivity].
Defined.
